(** * Open MPI fragments: CUDA completion-event pools and the uGNI BTL progress engine

    A shallow embedding of
    - [ompi/mca/common/cuda/common_cuda.c]: the deferred host-memory
      registrations and the three circular pools of CUDA events (IPC,
      device-to-host, host-to-device);
    - the uGNI BTL component ([btl_ugni_component.c]): the SMSG limit
      auto-selection, the RDMA retry policy, the endpoint wait list and the
      component progress function.

    C [int] values are modelled as [Z].  Every counter of the event pools is
    shown to stay within [0, cuda_event_max], so no signed overflow is
    reachable there.  Pointers are modelled as [Z] with [NULL = 0]; calls into
    the CUDA driver and into the GNI library are answered by an explicit
    function table / environment argument, and the driver calls a function
    makes are appended to a log kept in the state. *)

From Stdlib Require Import ZArith List Bool Lia String.
From stdpp Require Import base tactics option list numbers.
Import ListNotations.

Local Open Scope Z_scope.

(** ** Return codes ([opal/constants.h], [ompi/constants.h]) *)

Definition OMPI_SUCCESS : Z := 0.
Definition OMPI_ERROR : Z := -1.
Definition OMPI_ERR_OUT_OF_RESOURCE : Z := -2.

Definition NULL : Z := 0.

(* ===================================================================== *)
(** * The CUDA support code, [common_cuda.c]                              *)
(* ===================================================================== *)

Module Cuda.

(** [CUresult] as the code distinguishes it: success, not-ready, and every
    other code. *)
Inductive CUresult :=
| CUDA_SUCCESS
| CUDA_ERROR_NOT_READY
| CUDA_ERROR_NOT_INITIALIZED
| CUDA_ERROR (code : Z).

Definition is_success (r : CUresult) : bool :=
  match r with CUDA_SUCCESS => true | _ => false end.

(** A hard error: neither success nor not-ready. *)
Definition hard_error (r : CUresult) : Prop :=
  r <> CUDA_SUCCESS /\ r <> CUDA_ERROR_NOT_READY.

Abbreviation CUevent := Z.
Abbreviation CUstream := Z.
Abbreviation descriptor := Z.   (* struct mca_btl_base_descriptor_t * *)

(** The three copy directions; each has its own event array, fragment array
    and counters ([cuda_event_ipc_*], [cuda_event_dtoh_*],
    [cuda_event_htod_*]). *)
Inductive direction := IPC | DTOH | HTOD.

#[global] Instance direction_eq_dec : EqDecision direction.
Proof. solve_decision. Defined.

(** One direction's globals: [cuda_event_X_array], [cuda_event_X_frag_array],
    [cuda_event_X_first_avail], [cuda_event_X_first_used],
    [cuda_event_X_num_used]. *)
Record event_pool := mk_pool {
  event_array : list CUevent;
  frag_array : list descriptor;
  first_avail : Z;
  first_used : Z;
  num_used : Z
}.

(** Structure holding a memory registration that is delayed until the first
    call to send or receive a GPU pointer. *)
Record common_cuda_mem_regs_t := mk_reg {
  ptr : Z;
  amount : Z;
  msg : string
}.

(** Calls with an effect outside the process state, in the order made. *)
Inductive driver_call :=
| MemHostRegister (p : Z) (n : Z)
| MemHostUnregister (p : Z)
| MemcpyAsync (dst src n : Z) (s : CUstream)
| EventRecord (e : CUevent) (s : CUstream)
| EventQuery (e : CUevent)
| EventCreate (k : nat)
| StreamCreate (k : nat)
| Free (r : common_cuda_mem_regs_t).

(** The file's globals. *)
Record cuda_state := mk_state {
  ompi_mpi_cuda_support : bool;
  common_cuda_initialized : bool;
  common_cuda_init_function_added : bool;
  mca_common_cuda_enabled : bool;
  mca_common_cuda_register_memory : bool;
  mca_common_cuda_warning : bool;
  mca_common_cuda_async : Z;
  cuda_event_max : Z;
  registered : bool;
  common_cuda_memory_registrations : list common_cuda_mem_regs_t;
  ipcStream : CUstream;
  dtohStream : CUstream;
  htodStream : CUstream;
  cuda_event_ipc : event_pool;
  cuda_event_dtoh : event_pool;
  cuda_event_htod : event_pool;
  driver_log : list driver_call
}.

(** The dynamically loaded driver entry points ([cuFunc]) as the answers the
    driver gives.  [cuEventQuery] takes the number of queries the current
    call has already made, so that a busy-wait can see the answer change;
    [cuEventCreate] and [cuStreamCreate] take the number of earlier calls. *)
Record cudaFunctionTable := mk_cuFunc {
  cuMemcpyAsync : Z -> Z -> Z -> CUstream -> CUresult;
  cuCtxGetCurrent : CUresult * Z;
  cuStreamCreate : nat -> CUresult * CUstream;
  cuEventCreate : nat -> CUresult * CUevent;
  cuEventRecord : CUevent -> CUstream -> CUresult;
  cuMemHostRegister : Z -> Z -> CUresult;
  cuMemHostUnregister : Z -> CUresult;
  cuEventQuery : nat -> CUevent -> CUresult
}.

(** *** State accessors *)

Definition pool (d : direction) (st : cuda_state) : event_pool :=
  match d with
  | IPC => cuda_event_ipc st
  | DTOH => cuda_event_dtoh st
  | HTOD => cuda_event_htod st
  end.

Definition stream (d : direction) (st : cuda_state) : CUstream :=
  match d with
  | IPC => ipcStream st
  | DTOH => dtohStream st
  | HTOD => htodStream st
  end.

Definition set_pool (d : direction) (p : event_pool) (st : cuda_state) : cuda_state :=
  mk_state (ompi_mpi_cuda_support st) (common_cuda_initialized st)
    (common_cuda_init_function_added st) (mca_common_cuda_enabled st)
    (mca_common_cuda_register_memory st) (mca_common_cuda_warning st)
    (mca_common_cuda_async st) (cuda_event_max st) (registered st)
    (common_cuda_memory_registrations st)
    (ipcStream st) (dtohStream st) (htodStream st)
    (if decide (d = IPC) then p else cuda_event_ipc st)
    (if decide (d = DTOH) then p else cuda_event_dtoh st)
    (if decide (d = HTOD) then p else cuda_event_htod st)
    (driver_log st).

Definition log (c : driver_call) (st : cuda_state) : cuda_state :=
  mk_state (ompi_mpi_cuda_support st) (common_cuda_initialized st)
    (common_cuda_init_function_added st) (mca_common_cuda_enabled st)
    (mca_common_cuda_register_memory st) (mca_common_cuda_warning st)
    (mca_common_cuda_async st) (cuda_event_max st) (registered st)
    (common_cuda_memory_registrations st)
    (ipcStream st) (dtohStream st) (htodStream st)
    (cuda_event_ipc st) (cuda_event_dtoh st) (cuda_event_htod st)
    (driver_log st ++ [c]).

Definition set_registrations (l : list common_cuda_mem_regs_t)
    (added : bool) (st : cuda_state) : cuda_state :=
  mk_state (ompi_mpi_cuda_support st) (common_cuda_initialized st)
    added (mca_common_cuda_enabled st)
    (mca_common_cuda_register_memory st) (mca_common_cuda_warning st)
    (mca_common_cuda_async st) (cuda_event_max st) (registered st)
    l
    (ipcStream st) (dtohStream st) (htodStream st)
    (cuda_event_ipc st) (cuda_event_dtoh st) (cuda_event_htod st)
    (driver_log st).

(** Array reads [a[i]] for an [int] index.  Outside the array a read gives
    0 and a write does nothing; the ring invariant below shows that the pool
    functions stay inside their arrays. *)
Definition aget (a : list Z) (i : Z) : Z := a !!! Z.to_nat i.

(** Array writes [a[i] = v]. *)
Definition aset (a : list Z) (i : Z) (v : Z) : list Z := <[Z.to_nat i := v]> a.

(** *** Recording an event *)

(** The slot bookkeeping shared by the three record functions:
<<
    cuda_event_X_frag_array[cuda_event_X_first_avail] = frag;
    cuda_event_X_first_avail++;
    if (cuda_event_X_first_avail >= cuda_event_max) cuda_event_X_first_avail = 0;
    cuda_event_X_num_used++;
>> *)
Definition bump_avail (max : Z) (frag : descriptor) (p : event_pool) : event_pool :=
  let fa := first_avail p + 1 in
  mk_pool (event_array p)
          (aset (frag_array p) (first_avail p) frag)
          (if fa >=? max then 0 else fa)
          (first_used p)
          (num_used p + 1).

(** The slot release shared by the progress functions and the synchronous
    copy:
<<
    --cuda_event_X_num_used;
    ++cuda_event_X_first_used;
    if (cuda_event_X_first_used >= cuda_event_max) cuda_event_X_first_used = 0;
>> *)
Definition bump_used (max : Z) (p : event_pool) : event_pool :=
  let fu := first_used p + 1 in
  mk_pool (event_array p) (frag_array p) (first_avail p)
          (if fu >=? max then 0 else fu)
          (num_used p - 1).

(** [mca_common_cuda_record_dtoh_event] and
    [mca_common_cuda_record_htod_event]: the same text on the two pools. *)
Definition record_event (d : direction) (cuFunc : cudaFunctionTable)
    (frag : descriptor) (st : cuda_state) : Z * cuda_state :=
  let p := pool d st in
  if num_used p =? cuda_event_max st then
    (OMPI_ERR_OUT_OF_RESOURCE, st)
  else
    let ev := aget (event_array p) (first_avail p) in
    let st1 := log (EventRecord ev (stream d st)) st in
    if is_success (cuEventRecord cuFunc ev (stream d st)) then
      (OMPI_SUCCESS, set_pool d (bump_avail (cuda_event_max st) frag p) st1)
    else
      (OMPI_ERROR, st1).

Definition mca_common_cuda_record_dtoh_event := record_event DTOH.
Definition mca_common_cuda_record_htod_event := record_event HTOD.

(** The busy-wait of the synchronous copy:
<<
    while (CUDA_ERROR_NOT_READY == result) {
        result = cuFunc.cuEventQuery(cuda_event_ipc_array[cuda_event_ipc_first_used]);
        if ((CUDA_SUCCESS != result) && (CUDA_ERROR_NOT_READY != result)) return OMPI_ERROR;
        iter++;
    }
>>
    [result] is the answer of the query before the loop.  The loop has no
    bound in the code; [fuel] bounds the number of iterations looked at, and
    [None] means that the answer was still not-ready after them.  The result
    is [Some true] when the loop is left on success and [Some false] on the
    error return; the second component counts the queries made. *)
Fixpoint wait_event (fuel : nat) (cuFunc : cudaFunctionTable) (ev : CUevent)
    (k : nat) (result : CUresult) : option bool * nat :=
  match result with
  | CUDA_SUCCESS => (Some true, k)
  | CUDA_ERROR_NOT_READY =>
      match fuel with
      | O => (None, k)
      | S fuel' => wait_event fuel' cuFunc ev (S k) (cuEventQuery cuFunc k ev)
      end
  | _ => (Some false, k)
  end.

Fixpoint log_queries (n : nat) (ev : CUevent) (st : cuda_state) : cuda_state :=
  match n with
  | O => st
  | S n' => log_queries n' ev (log (EventQuery ev) st)
  end.

(** The statements both branches of [mca_common_cuda_memcpy] begin with:
<<
    result = cuFunc.cuMemcpyAsync((CUdeviceptr)dst, (CUdeviceptr)src, amount, ipcStream);
    if (CUDA_SUCCESS != result) return OMPI_ERROR;
    result = cuFunc.cuEventRecord(cuda_event_ipc_array[cuda_event_ipc_first_avail], ipcStream);
    if (CUDA_SUCCESS != result) return OMPI_ERROR;
    cuda_event_ipc_frag_array[cuda_event_ipc_first_avail] = frag;
    /* Bump up the first available slot and number used by 1 */
>>
    [inl] is the state at an error return, [inr] the state after the bump. *)
Definition start_copy (cuFunc : cudaFunctionTable) (dst src amt : Z)
    (frag : descriptor) (st : cuda_state) : cuda_state + cuda_state :=
  let p := pool IPC st in
  let st1 := log (MemcpyAsync dst src amt (ipcStream st)) st in
  if negb (is_success (cuMemcpyAsync cuFunc dst src amt (ipcStream st))) then inl st1
  else
    let ev := aget (event_array p) (first_avail p) in
    let st2 := log (EventRecord ev (ipcStream st)) st1 in
    if negb (is_success (cuEventRecord cuFunc ev (ipcStream st))) then inl st2
    else inr (set_pool IPC (bump_avail (cuda_event_max st) frag p) st2).

(** [mca_common_cuda_memcpy]: start the asynchronous copy, then record and
    save away an event that will be queried to indicate the copy has
    completed.  The result is the return value, the value of [*done] when it
    is written, and the new state; [None] when the synchronous busy-wait has
    not ended within [fuel] iterations. *)
Definition mca_common_cuda_memcpy (fuel : nat) (cuFunc : cudaFunctionTable)
    (dst src amt : Z) (frag : descriptor) (st : cuda_state)
    : option (Z * option Z * cuda_state) :=
  if num_used (pool IPC st) =? cuda_event_max st then
    Some (OMPI_ERR_OUT_OF_RESOURCE, None, st)
  else if negb (mca_common_cuda_async st =? 0) then
    (* the standard way to run *)
    match start_copy cuFunc dst src amt frag st with
    | inl st' => Some (OMPI_ERROR, None, st')
    | inr st' => Some (OMPI_SUCCESS, Some 0, st')
    end
  else
    (* mimic the async function, then wait for the event *)
    match start_copy cuFunc dst src amt frag st with
    | inl st' => Some (OMPI_ERROR, None, st')
    | inr st3 =>
        let p1 := pool IPC st3 in
        let head := aget (event_array p1) (first_used p1) in
        match wait_event fuel cuFunc head 1 (cuEventQuery cuFunc 0%nat head) with
        | (None, _) => None
        | (Some false, k) => Some (OMPI_ERROR, None, log_queries k head st3)
        | (Some true, k) =>
            let st4 := log_queries k head st3 in
            Some (OMPI_SUCCESS, Some 1,
                  set_pool IPC (bump_used (cuda_event_max st) p1) st4)
        end
    end.

(** *** Polling for a completed event *)

(** [progress_one_cuda_ipc_event], [progress_one_cuda_dtoh_event] and
    [progress_one_cuda_htod_event]: the same text on the three pools.  The
    result is the return value, the value of [*frag] after the call
    ([frag0] is its value before), and the new state. *)
Definition progress_one (d : direction) (cuFunc : cudaFunctionTable)
    (frag0 : descriptor) (st : cuda_state) : Z * descriptor * cuda_state :=
  let p := pool d st in
  if num_used p >? 0 then
    let ev := aget (event_array p) (first_used p) in
    let st1 := log (EventQuery ev) st in
    match cuEventQuery cuFunc 0%nat ev with
    | CUDA_ERROR_NOT_READY => (0, NULL, st1)
    | CUDA_SUCCESS =>
        (1, aget (frag_array p) (first_used p),
         set_pool d (bump_used (cuda_event_max st) p) st1)
    | _ => (OMPI_ERROR, NULL, st1)
    end
  else (0, frag0, st).

Definition progress_one_cuda_ipc_event := progress_one IPC.
Definition progress_one_cuda_dtoh_event := progress_one DTOH.
Definition progress_one_cuda_htod_event := progress_one HTOD.

(** *** Deferred registration of host memory *)

Definition set_flags (support initialized enabled register_memory : bool)
    (st : cuda_state) : cuda_state :=
  mk_state support initialized
    (common_cuda_init_function_added st) enabled
    register_memory (mca_common_cuda_warning st)
    (mca_common_cuda_async st) (cuda_event_max st) (registered st)
    (common_cuda_memory_registrations st)
    (ipcStream st) (dtohStream st) (htodStream st)
    (cuda_event_ipc st) (cuda_event_dtoh st) (cuda_event_htod st)
    (driver_log st).

Definition set_stream (d : direction) (s : CUstream) (st : cuda_state) : cuda_state :=
  mk_state (ompi_mpi_cuda_support st) (common_cuda_initialized st)
    (common_cuda_init_function_added st) (mca_common_cuda_enabled st)
    (mca_common_cuda_register_memory st) (mca_common_cuda_warning st)
    (mca_common_cuda_async st) (cuda_event_max st) (registered st)
    (common_cuda_memory_registrations st)
    (if decide (d = IPC) then s else ipcStream st)
    (if decide (d = DTOH) then s else dtohStream st)
    (if decide (d = HTOD) then s else htodStream st)
    (cuda_event_ipc st) (cuda_event_dtoh st) (cuda_event_htod st)
    (driver_log st).

(** The values the MCA variable system ([mca_base_var_register]) assigns to
    the registered variables; [None] keeps the default set just before the
    registration. *)
Record mca_settings := mk_mca {
  mca_register_memory : option bool;
  mca_warning : option bool;
  mca_memcpy_async : option Z;
  mca_event_max : option Z
}.

(** [mca_common_cuda_register_mca_variables]; the verbosity level only
    affects diagnostics and is left out. *)
Definition mca_common_cuda_register_mca_variables (mca : mca_settings)
    (st : cuda_state) : cuda_state :=
  if registered st then st
  else
    mk_state (ompi_mpi_cuda_support st) (common_cuda_initialized st)
      (common_cuda_init_function_added st) (mca_common_cuda_enabled st)
      (default true (mca_register_memory mca))
      (default true (mca_warning mca))
      (default 1 (mca_memcpy_async mca))
      (default 200 (mca_event_max mca))
      true
      (common_cuda_memory_registrations st)
      (ipcStream st) (dtohStream st) (htodStream st)
      (cuda_event_ipc st) (cuda_event_dtoh st) (cuda_event_htod st)
      (driver_log st).

(** [mca_common_cuda_register]: call the CUDA register function so we pin
    the memory in the CUDA space; before initialization the request is
    queued. *)
Definition mca_common_cuda_register (cuFunc : cudaFunctionTable)
    (p : Z) (n : Z) (m : string) (st : cuda_state) : cuda_state :=
  if negb (common_cuda_initialized st) then
    let st1 :=
      if negb (common_cuda_init_function_added st)
      then set_registrations [] true st   (* OBJ_CONSTRUCT *)
      else st in
    set_registrations
      (common_cuda_memory_registrations st1 ++ [mk_reg p n m])
      (common_cuda_init_function_added st1) st1
  else if mca_common_cuda_enabled st && mca_common_cuda_register_memory st then
    log (MemHostRegister p n) st
  else st.

(** The loop of [mca_common_cuda_unregister] before initialization:
<<
    for(i = 0; i < s; i++) {
        mem_reg = opal_list_remove_first(&common_cuda_memory_registrations);
        free(mem_reg->msg);
        OBJ_RELEASE(mem_reg);
    }
>>
    On an empty list [opal_list_remove_first] returns [NULL]; the loop runs
    [s = opal_list_get_size] times, so that case is not reached. *)
Fixpoint release_registrations (s : nat) (st : cuda_state) : cuda_state :=
  match s with
  | O => st
  | S s' =>
      match common_cuda_memory_registrations st with
      | [] => st
      | mem_reg :: rest =>
          release_registrations s'
            (log (Free mem_reg)
               (set_registrations rest (common_cuda_init_function_added st) st))
      end
  end.

(** [mca_common_cuda_unregister]: call the CUDA unregister function so we
    unpin the memory in the CUDA space. *)
Definition mca_common_cuda_unregister (cuFunc : cudaFunctionTable)
    (p : Z) (m : string) (st : cuda_state) : cuda_state :=
  if negb (common_cuda_initialized st) then
    release_registrations (length (common_cuda_memory_registrations st)) st
  else if mca_common_cuda_enabled st && mca_common_cuda_register_memory st then
    log (MemHostUnregister p) st
  else st.

(** *** Initialization *)

(** What [mca_common_cuda_init] gets from outside the file: the MCA
    settings, the result of [mca_common_cuda_load_libcuda] and whether the
    k-th [malloc] of the function succeeds. *)
Record init_env := mk_env {
  mca : mca_settings;
  load_libcuda : Z;
  malloc_ok : nat -> bool
}.

(** The loop creating the events of one array:
<<
    for (i = 0; i < cuda_event_max; i++) {
        res = cuFunc.cuEventCreate(&cuda_event_X_array[i], CU_EVENT_DISABLE_TIMING);
        if (CUDA_SUCCESS != res) return OMPI_ERROR;
    }
>>
    [base] is the number of events created for the earlier arrays. *)
Fixpoint create_events (cuFunc : cudaFunctionTable) (base : nat) (n : nat)
    (i : nat) (arr : list CUevent) (st : cuda_state)
    : bool * list CUevent * cuda_state :=
  match n with
  | O => (true, arr, st)
  | S n' =>
      let st1 := log (EventCreate (base + i)) st in
      match cuEventCreate cuFunc (base + i)%nat with
      | (CUDA_SUCCESS, ev) =>
          create_events cuFunc base n' (S i) (<[i := ev]> arr) st1
      | _ => (false, arr, st1)
      end
  end.

(** Setting up one direction's arrays.  Memory returned by [malloc] is
    modelled as filled with zeros. *)
Definition setup_pool (d : direction) (env : init_env) (cuFunc : cudaFunctionTable)
    (k : nat) (st : cuda_state) : bool * cuda_state :=
  let n := Z.to_nat (cuda_event_max st) in
  let st1 := set_pool d (mk_pool [] [] 0 0 0) st in
  if negb (malloc_ok env (2 * k)%nat) then (false, st1)
  else
    match create_events cuFunc (k * n) n 0 (replicate n 0) st1 with
    | (ok, arr, st2) =>
        let st3 := set_pool d (mk_pool arr [] 0 0 0) st2 in
        if negb ok then (false, st3)
        else if negb (malloc_ok env (2 * k + 1)%nat) then (false, st3)
        else (true, set_pool d (mk_pool arr (replicate n NULL) 0 0 0) st3)
    end.

(** The loop draining the queued registrations:
<<
    s = opal_list_get_size(&common_cuda_memory_registrations);
    for(i = 0; i < s; i++) {
        mem_reg = opal_list_remove_first(&common_cuda_memory_registrations);
        if (mca_common_cuda_enabled && mca_common_cuda_register_memory) {
            res = cuFunc.cuMemHostRegister(mem_reg->ptr, mem_reg->amount, 0);
            ...   /* a failure is reported and is not fatal */
        }
        free(mem_reg->msg);
        OBJ_RELEASE(mem_reg);
    }
>> *)
Fixpoint drain_registrations (s : nat) (st : cuda_state) : cuda_state :=
  match s with
  | O => st
  | S s' =>
      match common_cuda_memory_registrations st with
      | [] => st
      | mem_reg :: rest =>
          let st1 := set_registrations rest (common_cuda_init_function_added st) st in
          let st2 :=
            if mca_common_cuda_enabled st1 && mca_common_cuda_register_memory st1
            then log (MemHostRegister (ptr mem_reg) (amount mem_reg)) st1
            else st1 in
          drain_registrations s' (log (Free mem_reg) st2)
      end
  end.

(** Creating one stream; the handle is stored on success. *)
Definition create_stream (d : direction) (cuFunc : cudaFunctionTable) (k : nat)
    (st : cuda_state) : bool * cuda_state :=
  let st1 := log (StreamCreate k) st in
  match cuStreamCreate cuFunc k with
  | (CUDA_SUCCESS, s) => (true, set_stream d s st1)
  | _ => (false, st1)
  end.

(** [mca_common_cuda_init]: completes the initialization when the first GPU
    memory access is detected. *)
Definition mca_common_cuda_init (env : init_env) (cuFunc : cudaFunctionTable)
    (st : cuda_state) : Z * cuda_state :=
  if negb (ompi_mpi_cuda_support st) then (OMPI_ERROR, st)
  else if common_cuda_initialized st then (OMPI_SUCCESS, st)
  else
    let st := mca_common_cuda_register_mca_variables (mca env) st in
    if negb (load_libcuda env =? 0) then
      (OMPI_ERROR,
       set_flags false true (mca_common_cuda_enabled st)
                 (mca_common_cuda_register_memory st) st)
    else
      let '(res, cuContext) := cuCtxGetCurrent cuFunc in
      let st :=
        if negb (is_success res) then
          set_flags (ompi_mpi_cuda_support st) (common_cuda_initialized st) false false st
        else if cuContext =? NULL then
          set_flags (ompi_mpi_cuda_support st) (common_cuda_initialized st) false false st
        else
          set_flags (ompi_mpi_cuda_support st) (common_cuda_initialized st) true
                    (mca_common_cuda_register_memory st) st in
      if negb (mca_common_cuda_enabled st) then (OMPI_ERROR, st)
      else
        match setup_pool IPC env cuFunc 0 st with
        | (false, st) => (OMPI_ERROR, st)
        | (true, st) =>
        match setup_pool DTOH env cuFunc 1 st with
        | (false, st) => (OMPI_ERROR, st)
        | (true, st) =>
        match setup_pool HTOD env cuFunc 2 st with
        | (false, st) => (OMPI_ERROR, st)
        | (true, st) =>
            let st :=
              drain_registrations
                (length (common_cuda_memory_registrations st)) st in
            match create_stream IPC cuFunc 0 st with
            | (false, st) => (OMPI_ERROR, st)
            | (true, st) =>
            match create_stream DTOH cuFunc 1 st with
            | (false, st) => (OMPI_ERROR, st)
            | (true, st) =>
            match create_stream HTOD cuFunc 2 st with
            | (false, st) => (OMPI_ERROR, st)
            | (true, st) =>
                (OMPI_SUCCESS,
                 set_flags (ompi_mpi_cuda_support st) true
                           (mca_common_cuda_enabled st)
                           (mca_common_cuda_register_memory st) st)
            end end end
        end end end.

(** *** Sequences of calls *)

(** The calls of the event-pool interface, with the arguments that matter. *)
Inductive call :=
| Call_memcpy (fuel : nat) (dst src amt : Z) (frag : descriptor)
| Call_record_dtoh (frag : descriptor)
| Call_record_htod (frag : descriptor)
| Call_progress (d : direction) (frag0 : descriptor).

(** What the caller sees: the return value with [*done] for a record call,
    the return value with [*frag] for a poll. *)
Inductive outcome :=
| Recorded (d : direction) (frag : descriptor) (rc : Z) (done : option Z)
| Polled (d : direction) (rc : Z) (frag : descriptor).

Definition step (cuFunc : cudaFunctionTable) (c : call) (st : cuda_state)
    : option (outcome * cuda_state) :=
  match c with
  | Call_memcpy fuel dst src amt frag =>
      match mca_common_cuda_memcpy fuel cuFunc dst src amt frag st with
      | Some (rc, done, st') => Some (Recorded IPC frag rc done, st')
      | None => None
      end
  | Call_record_dtoh frag =>
      let '(rc, st') := mca_common_cuda_record_dtoh_event cuFunc frag st in
      Some (Recorded DTOH frag rc None, st')
  | Call_record_htod frag =>
      let '(rc, st') := mca_common_cuda_record_htod_event cuFunc frag st in
      Some (Recorded HTOD frag rc None, st')
  | Call_progress d frag0 =>
      let '(rc, frag, st') :=
        match d with
        | IPC => progress_one_cuda_ipc_event cuFunc frag0 st
        | DTOH => progress_one_cuda_dtoh_event cuFunc frag0 st
        | HTOD => progress_one_cuda_htod_event cuFunc frag0 st
        end in
      Some (Polled d rc frag, st')
  end.

(** A run: each call is made against the driver's answers of its moment; the
    trace pairs what each call returned with the state it left.  A call that
    does not return ends the trace. *)
Fixpoint run (cs : list (cudaFunctionTable * call)) (st : cuda_state)
    : list (outcome * cuda_state) :=
  match cs with
  | [] => []
  | (cuFunc, c) :: cs' =>
      match step cuFunc c st with
      | None => []
      | Some (o, st') => (o, st') :: run cs' st'
      end
  end.

(** The state a trace ends in. *)
Fixpoint final (st : cuda_state) (tr : list (outcome * cuda_state)) : cuda_state :=
  match tr with
  | [] => st
  | (_, st') :: tr' => final st' tr'
  end.

(** The descriptor a poll of direction [d] handed back (return value 1). *)
Definition polled1 (d : direction) (o : outcome) : list descriptor :=
  match o with
  | Polled d' rc frag => if decide (d' = d) then if rc =? 1 then [frag] else [] else []
  | _ => []
  end.

(** The descriptor a successful record call of direction [d] was given. *)
Definition recorded1 (d : direction) (o : outcome) : list descriptor :=
  match o with
  | Recorded d' frag rc _ =>
      if decide (d' = d) then if rc =? OMPI_SUCCESS then [frag] else [] else []
  | _ => []
  end.

(** As [recorded1], leaving out the copies that were waited for inside the
    record call itself ([*done = 1]). *)
Definition deferred1 (d : direction) (o : outcome) : list descriptor :=
  match o with
  | Recorded d' frag rc done =>
      if decide (d' = d)
      then if rc =? OMPI_SUCCESS
           then match done with Some 1 => [] | _ => [frag] end
           else []
      else []
  | _ => []
  end.

Definition polled (d : direction) (tr : list (outcome * cuda_state)) :=
  concat (map (fun x => polled1 d (fst x)) tr).
Definition recorded (d : direction) (tr : list (outcome * cuda_state)) :=
  concat (map (fun x => recorded1 d (fst x)) tr).
Definition deferred (d : direction) (tr : list (outcome * cuda_state)) :=
  concat (map (fun x => deferred1 d (fst x)) tr).

Definition record_succeeded (o : outcome) : Prop :=
  match o with
  | Recorded _ _ rc _ => rc = OMPI_SUCCESS
  | Polled _ _ _ => True
  end.

(** *** The ring of used slots *)

(** The index [k] slots after [first_used], wrapping at [max]. *)
Definition slot (max fu k : Z) : Z :=
  if fu + k <? max then fu + k else fu + k - max.

(** The descriptors of the slots in use, oldest first. *)
Definition contents (max : Z) (p : event_pool) : list descriptor :=
  map (fun k => aget (frag_array p) (slot max (first_used p) (Z.of_nat k)))
      (seq 0 (Z.to_nat (num_used p))).

(** A pool as [mca_common_cuda_init] leaves it. *)
Definition pool_fresh (max : Z) (p : event_pool) : Prop :=
  length (frag_array p) = Z.to_nat max /\
  num_used p = 0 /\ first_avail p = 0 /\ first_used p = 0.

(** The ring invariant. *)
Definition pool_wf (max : Z) (p : event_pool) : Prop :=
  length (frag_array p) = Z.to_nat max /\
  0 <= first_used p < max /\
  0 <= num_used p <= max /\
  first_avail p = slot max (first_used p) (num_used p).

Definition pool_inv (max : Z) (p : event_pool) : Prop :=
  (max = 0 /\ num_used p = 0) \/ pool_wf max p.

(** [n] polls of one direction in a row, each against the driver's answers
    of its moment. *)
Fixpoint polls (d : direction) (fs : list cudaFunctionTable) (frag0 : descriptor)
    (st : cuda_state) : list (Z * descriptor) * cuda_state :=
  match fs with
  | [] => ([], st)
  | cuFunc :: fs' =>
      let '(rc, frag, st1) := progress_one d cuFunc frag0 st in
      let '(rs, st2) := polls d fs' frag st1 in
      ((rc, frag) :: rs, st2)
  end.

(** The host regions handed to [cuMemHostRegister], in call order. *)
Definition host_registrations (l : list driver_call) : list (Z * Z) :=
  concat (map (fun c => match c with MemHostRegister p n => [(p, n)] | _ => [] end) l).

Definition host_unregistrations (l : list driver_call) : list Z :=
  concat (map (fun c => match c with MemHostUnregister p => [p] | _ => [] end) l).

(** A sequence of registration requests. *)
Definition register_all (cuFunc : cudaFunctionTable)
    (reqs : list (Z * Z * string)) (st : cuda_state) : cuda_state :=
  foldl (fun st r => mca_common_cuda_register cuFunc r.1.1 r.1.2 r.2 st) st reqs.

(** The state [mca_common_cuda_unregister] leaves when called before
    initialization with the registrations [l] queued. *)
Definition released (l : list common_cuda_mem_regs_t) (st : cuda_state) : cuda_state :=
  mk_state (ompi_mpi_cuda_support st) (common_cuda_initialized st)
    (common_cuda_init_function_added st) (mca_common_cuda_enabled st)
    (mca_common_cuda_register_memory st) (mca_common_cuda_warning st)
    (mca_common_cuda_async st) (cuda_event_max st) (registered st)
    []
    (ipcStream st) (dtohStream st) (htodStream st)
    (cuda_event_ipc st) (cuda_event_dtoh st) (cuda_event_htod st)
    (driver_log st ++ map Free l).

(** *** Notions used in the proofs *)

(** What a record call and a poll do to the pool they work on. *)
Definition push_ok (max : Z) (frag : descriptor) (p p' : event_pool) : Prop :=
  num_used p <> max /\ p' = bump_avail max frag p.

Definition pop_ok (max : Z) (p p' : event_pool) : Prop :=
  0 < num_used p /\ p' = bump_used max p.

(** In the synchronous mode of the IPC copies every successful copy is
    waited for before the call returns, so the IPC pool is empty between
    calls. *)
Definition sync_idle (d : direction) (st : cuda_state) : Prop :=
  d = IPC -> mca_common_cuda_async st = 0 -> num_used (pool IPC st) = 0.

Definition step_ok (d : direction) (st : cuda_state) (o : outcome)
    (st' : cuda_state) : Prop :=
  let max := cuda_event_max st in
  cuda_event_max st' = max /\
  mca_common_cuda_async st' = mca_common_cuda_async st /\
  (pool_inv max (pool d st) -> pool_inv max (pool d st')) /\
  (pool_inv max (pool d st) -> sync_idle d st -> record_succeeded o ->
   polled1 d o ++ contents max (pool d st') =
     contents max (pool d st) ++ deferred1 d o /\
   sync_idle d st') /\
  (mca_common_cuda_async st <> 0 \/ d <> IPC -> deferred1 d o = recorded1 d o) /\
  (d = IPC -> mca_common_cuda_async st = 0 -> num_used (pool IPC st) = 0 ->
   polled1 d o = []).

(** The event at the head of the queue of direction [d]. *)
Definition head_event (d : direction) (st : cuda_state) : Z :=
  aget (event_array (pool d st)) (first_used (pool d st)).

(** What the initialization steps around the drain loop leave alone: the
    queue, the regions registered so far and the two flags that gate the
    registration. *)
Definition same_queue (st st' : cuda_state) : Prop :=
  common_cuda_memory_registrations st' = common_cuda_memory_registrations st /\
  host_registrations (driver_log st') = host_registrations (driver_log st) /\
  mca_common_cuda_enabled st' = mca_common_cuda_enabled st /\
  mca_common_cuda_register_memory st' = mca_common_cuda_register_memory st.

(** What the steps of the initialization other than the set-up of a pool
    leave alone: the capacity and the pools. *)
Definition same_pools (st st' : cuda_state) : Prop :=
  cuda_event_max st' = cuda_event_max st /\
  forall d, pool d st' = pool d st.

(** *** Example inputs *)

(** A driver on which every call succeeds at once. *)
Definition cuFunc_ok : cudaFunctionTable :=
  mk_cuFunc (fun _ _ _ _ => CUDA_SUCCESS) (CUDA_SUCCESS, 1)
            (fun k => (CUDA_SUCCESS, 500 + Z.of_nat k))
            (fun k => (CUDA_SUCCESS, 100 + Z.of_nat k))
            (fun _ _ => CUDA_SUCCESS) (fun _ _ => CUDA_SUCCESS)
            (fun _ => CUDA_SUCCESS) (fun _ _ => CUDA_SUCCESS).

(** The same driver with every event query failing with error code [c]. *)
Definition cuFunc_query_error (c : Z) : cudaFunctionTable :=
  mk_cuFunc (fun _ _ _ _ => CUDA_SUCCESS) (CUDA_SUCCESS, 1)
            (fun k => (CUDA_SUCCESS, 500 + Z.of_nat k))
            (fun k => (CUDA_SUCCESS, 100 + Z.of_nat k))
            (fun _ _ => CUDA_SUCCESS) (fun _ _ => CUDA_SUCCESS)
            (fun _ => CUDA_SUCCESS) (fun _ _ => CUDA_ERROR c).

Definition empty_pool2 (base : Z) : event_pool :=
  mk_pool [base; base + 1] [NULL; NULL] 0 0 0.

(** An initialized state with pools of two slots ([event_max = 2]). *)
Definition st_cap2 : cuda_state :=
  mk_state true true true true true true 1 2 true []
           500 501 502
           (empty_pool2 100) (empty_pool2 102) (empty_pool2 104) [].

(** A driver whose events are reported not ready by the first two queries
    of a call and completed by the third. *)
Definition cuFunc_slow : cudaFunctionTable :=
  mk_cuFunc (fun _ _ _ _ => CUDA_SUCCESS) (CUDA_SUCCESS, 1)
            (fun k => (CUDA_SUCCESS, 500 + Z.of_nat k))
            (fun k => (CUDA_SUCCESS, 100 + Z.of_nat k))
            (fun _ _ => CUDA_SUCCESS) (fun _ _ => CUDA_SUCCESS)
            (fun _ => CUDA_SUCCESS)
            (fun k _ => if (k <? 2)%nat then CUDA_ERROR_NOT_READY else CUDA_SUCCESS).

(** [st_cap2] with synchronous IPC copies ([memcpy_async = 0]). *)
Definition st_cap2_sync : cuda_state :=
  mk_state true true true true true true 0 2 true []
           500 501 502
           (empty_pool2 100) (empty_pool2 102) (empty_pool2 104) [].

(** Two records, a poll, a third record that wraps around, two polls. *)
Definition cs_wrap : list (cudaFunctionTable * call) :=
  [(cuFunc_ok, Call_record_dtoh 11); (cuFunc_ok, Call_record_dtoh 12);
   (cuFunc_ok, Call_progress DTOH NULL); (cuFunc_ok, Call_record_dtoh 13);
   (cuFunc_ok, Call_progress DTOH NULL); (cuFunc_ok, Call_progress DTOH NULL)].

(** [st_cap2] after descriptor 11 was recorded for the device-to-host pool. *)
Definition st_one : cuda_state :=
  snd (mca_common_cuda_record_dtoh_event cuFunc_ok 11 st_cap2).

(** [st_cap2] with both slots of the device-to-host pool in use. *)
Definition st_full : cuda_state :=
  snd (mca_common_cuda_record_dtoh_event cuFunc_ok 12 st_one).

(** Two requests for the same region of 64 bytes at address 4096. *)
Definition reqs_twice : list (Z * Z * string) :=
  [(4096, 64, "sm"%string); (4096, 64, "sm"%string)].

(** The process before any CUDA use: nothing initialized, nothing queued. *)
Definition st_boot : cuda_state :=
  mk_state true false false false true false 1 200 false []
           0 0 0
           (mk_pool [] [] 0 0 0) (mk_pool [] [] 0 0 0) (mk_pool [] [] 0 0 0) [].

(** An environment in which the library loads, every allocation succeeds and
    the event pools get two slots. *)
Definition env_ok : init_env :=
  mk_env (mk_mca None None None (Some 2)) 0 (fun _ => true).

(** *** The memory-handle functions and the datatype hooks *)

Definition OMPI_ERR_WOULD_BLOCK : Z := -10.

(** [CUDA_ERROR_ALREADY_MAPPED] of [cuda.h]. *)
Definition CUDA_ERROR_ALREADY_MAPPED : CUresult := CUDA_ERROR 208.

#[global] Instance CUresult_eq_dec : EqDecision CUresult.
Proof. solve_decision. Defined.

(** The fields of [mca_mpool_common_cuda_reg_t] the functions use:
    [base.base], [base.bound], [base.alloc_base], the 64 bytes of
    [memHandle] and of [evtHandle], and [event]. *)
Record mca_mpool_common_cuda_reg_t := mk_cuda_reg {
  reg_base : Z;
  reg_bound : Z;
  reg_alloc_base : Z;
  memHandle : list Z;
  evtHandle : list Z;
  event : Z
}.

(** The driver calls these functions make, in the order made. *)
Inductive ipc_call :=
| IpcGetMemHandle (p : Z)
| MemGetAddressRange (p : Z)
| EventRecord0 (e : CUevent)                 (* cuEventRecord (e, 0) *)
| IpcOpenMemHandle (h : list Z)
| IpcCloseMemHandle (p : Z)
| IpcOpenEventHandle (h : list Z)
| StreamWaitEvent0 (e : CUevent)             (* cuStreamWaitEvent (0, e, 0) *)
| EventDestroy (e : CUevent)
| MemAlloc (n : Z)
| Memcpy (dst src n : Z)
| MemFree (p : Z).

(** The remaining entries of [cuFunc], as the answers of the driver. *)
Record cudaIpcTable := mk_cuIpc {
  cuIpcGetMemHandle : Z -> CUresult * list Z;
  cuMemGetAddressRange : Z -> CUresult * Z * Z;      (* result, pbase, psize *)
  cuEventRecord0 : CUevent -> CUresult;
  cuIpcOpenMemHandle : list Z -> CUresult * Z;
  cuIpcCloseMemHandle : Z -> CUresult;
  cuIpcOpenEventHandle : list Z -> CUresult * CUevent;
  cuStreamWaitEvent : CUevent -> CUresult;
  cuEventDestroy : CUevent -> CUresult;
  cuMemAlloc : Z -> CUresult * Z;
  cuMemcpy : Z -> Z -> Z -> CUresult;
  cuMemFree : Z -> CUresult
}.

(** Pointer arithmetic on a 64-bit address. *)
Definition ptr_add (p n : Z) : Z := (p + n) mod 2 ^ 64.

(** [cuda_getmemhandle]: get the memory handle of a local section of memory
    that can be sent to the remote side.  The two [assert]s on the pointer
    attribute are compiled out.  The result is the return value, the
    registration afterwards and the driver calls made. *)
Definition cuda_getmemhandle (t : cudaIpcTable) (base size : Z)
    (newreg : mca_mpool_common_cuda_reg_t)
    : Z * mca_mpool_common_cuda_reg_t * list ipc_call :=
  let '(result, handle) := cuIpcGetMemHandle t base in
  if negb (is_success result) then (OMPI_ERROR, newreg, [IpcGetMemHandle base])
  else
    let '(result, pbase, psize) := cuMemGetAddressRange t base in
    if negb (is_success result) then
      (OMPI_ERROR, newreg, [IpcGetMemHandle base; MemGetAddressRange base])
    else
      (* Store all the information in the registration *)
      let cuda_reg :=
        mk_cuda_reg pbase (ptr_add pbase (psize - 1)) (reg_alloc_base newreg)
                    handle (evtHandle newreg) (event newreg) in
      let calls := [IpcGetMemHandle base; MemGetAddressRange base;
                    EventRecord0 (event cuda_reg)] in
      if negb (is_success (cuEventRecord0 t (event cuda_reg))) then
        (OMPI_ERROR, cuda_reg, calls)
      else (OMPI_SUCCESS, cuda_reg, calls).

(** [cuda_openmemhandle]: open a memory handle that refers to remote memory.
    The driver's answer carries the address it leaves in
    [newreg->alloc_base]. *)
Definition cuda_openmemhandle (t : cudaIpcTable) (base size : Z)
    (newreg : mca_mpool_common_cuda_reg_t)
    : Z * mca_mpool_common_cuda_reg_t * list ipc_call :=
  let '(result, addr) := cuIpcOpenMemHandle t (memHandle newreg) in
  let reg' :=
    mk_cuda_reg (reg_base newreg) (reg_bound newreg) addr
                (memHandle newreg) (evtHandle newreg) (event newreg) in
  if decide (result = CUDA_ERROR_ALREADY_MAPPED) then
    (OMPI_ERR_WOULD_BLOCK, reg', [IpcOpenMemHandle (memHandle newreg)])
  else if negb (is_success result) then
    (OMPI_ERROR, reg', [IpcOpenMemHandle (memHandle newreg)])
  else (OMPI_SUCCESS, reg', [IpcOpenMemHandle (memHandle newreg)]).

(** [cuda_closememhandle]: close a memory handle that refers to remote
    memory; a failure is reported and the function continues. *)
Definition cuda_closememhandle (t : cudaIpcTable)
    (reg : mca_mpool_common_cuda_reg_t) : Z * list ipc_call :=
  (OMPI_SUCCESS, [IpcCloseMemHandle (reg_alloc_base reg)]).

(** [mca_common_wait_stream_synchronize]: put the remote event on the
    stream.  Each failure is reported and the function goes on. *)
Definition mca_common_wait_stream_synchronize (t : cudaIpcTable)
    (rget_reg : mca_mpool_common_cuda_reg_t) : list ipc_call :=
  let '(_, ev) := cuIpcOpenEventHandle t (evtHandle rget_reg) in
  [IpcOpenEventHandle (evtHandle rget_reg); EventRecord0 ev;
   StreamWaitEvent0 ev; EventDestroy ev].

(** [memcmp] over the first [n] bytes: the sign of the first difference. *)
Fixpoint memcmp (a b : list Z) (n : nat) : Z :=
  match n with
  | O => 0
  | S n' =>
      match a, b with
      | x :: a', y :: b' =>
          if x <? y then -1 else if y <? x then 1 else memcmp a' b' n'
      | _, _ => 0
      end
  end.

(** [mca_common_cuda_memhandle_matches]: compare the cached handle to the
    one received; [sizeof (new_reg->memHandle)] is 64. *)
Definition mca_common_cuda_memhandle_matches
    (new_reg old_reg : mca_mpool_common_cuda_reg_t) : Z :=
  if memcmp (memHandle new_reg) (memHandle old_reg) 64 =? 0 then 1 else 0.


(** *** More notions used in the proofs *)

(** The scalar globals that only [mca_common_cuda_init] and the variable
    registration write. *)
Definition same_params (st st' : cuda_state) : Prop :=
  ompi_mpi_cuda_support st' = ompi_mpi_cuda_support st /\
  common_cuda_initialized st' = common_cuda_initialized st /\
  mca_common_cuda_enabled st' = mca_common_cuda_enabled st /\
  mca_common_cuda_register_memory st' = mca_common_cuda_register_memory st /\
  mca_common_cuda_async st' = mca_common_cuda_async st /\
  cuda_event_max st' = cuda_event_max st /\
  registered st' = registered st.

(** The place of a direction in the order the pools are set up. *)
Definition pool_index (d : direction) : nat :=
  match d with IPC => 0 | DTOH => 1 | HTOD => 2 end.

(** Record calls of one direction made one after the other. *)
Fixpoint record_all (d : direction) (cuFunc : cudaFunctionTable)
    (frags : list descriptor) (st : cuda_state) : list Z * cuda_state :=
  match frags with
  | [] => ([], st)
  | frag :: frags' =>
      let '(rc, st1) := record_event d cuFunc frag st in
      let '(rcs, st2) := record_all d cuFunc frags' st1 in
      (rc :: rcs, st2)
  end.

(** The direction a call works on. *)
Definition call_direction (c : call) : direction :=
  match c with
  | Call_memcpy _ _ _ _ _ => IPC
  | Call_record_dtoh _ => DTOH
  | Call_record_htod _ => HTOD
  | Call_progress d _ => d
  end.

(** Registration requests made one after the other, as [register_all], and
    the regions they name. *)
Definition regions (reqs : list (Z * Z * string)) : list (Z * Z) :=
  map (fun r => (r.1.1, r.1.2)) reqs.

(** A driver that reports no current context. *)
Definition cuFunc_no_context : cudaFunctionTable :=
  mk_cuFunc (fun _ _ _ _ => CUDA_SUCCESS) (CUDA_ERROR_NOT_INITIALIZED, 0)
            (fun k => (CUDA_SUCCESS, 500 + Z.of_nat k))
            (fun k => (CUDA_SUCCESS, 100 + Z.of_nat k))
            (fun _ _ => CUDA_SUCCESS) (fun _ _ => CUDA_SUCCESS)
            (fun _ => CUDA_SUCCESS) (fun _ _ => CUDA_SUCCESS).

(** An environment in which the driver library cannot be loaded. *)
Definition env_no_library : init_env :=
  mk_env (mk_mca None None None (Some 2)) 1 (fun _ => true).

(** A driver on which every IPC and copy call succeeds; address ranges are
    the 4096-byte page of the pointer. *)
Definition cuIpc_ok : cudaIpcTable :=
  mk_cuIpc (fun p => (CUDA_SUCCESS, replicate 64 (p mod 256)))
           (fun p => (CUDA_SUCCESS, p - p mod 4096, 4096))
           (fun _ => CUDA_SUCCESS)
           (fun h => (CUDA_SUCCESS, 65536))
           (fun _ => CUDA_SUCCESS)
           (fun h => (CUDA_SUCCESS, 900))
           (fun _ => CUDA_SUCCESS) (fun _ => CUDA_SUCCESS)
           (fun n => (CUDA_SUCCESS, 1048576))
           (fun _ _ _ => CUDA_SUCCESS) (fun _ => CUDA_SUCCESS).

Definition reg_empty : mca_mpool_common_cuda_reg_t :=
  mk_cuda_reg 0 0 0 (replicate 64 0) (replicate 64 0) 700.

End Cuda.

(* ===================================================================== *)
(** * The uGNI BTL component, [btl_ugni_component.c]                      *)
(* ===================================================================== *)

Module Ugni.

(** [gni_return_t] as the code distinguishes it. *)
Inductive gni_return_t :=
| GNI_RC_SUCCESS
| GNI_RC_NOT_DONE
| GNI_RC_TRANSACTION_ERROR
| GNI_RC_ERROR (code : Z).

Definition gni_ok (rc : gni_return_t) : bool :=
  match rc with GNI_RC_SUCCESS => true | _ => false end.

Definition gni_not_done (rc : gni_return_t) : bool :=
  match rc with GNI_RC_NOT_DONE => true | _ => false end.

Definition gni_transaction_error (rc : gni_return_t) : bool :=
  match rc with GNI_RC_TRANSACTION_ERROR => true | _ => false end.

(** What the progress functions do to fragments and endpoints through code
    that is not part of the component file. *)
Inductive action :=
| Callback (frag : Z) (status : Z)       (* frag->cbfunc (frag, status) *)
| Repost (frag : Z) (status : Z)         (* mca_btl_ugni_repost (frag, status) *)
| SendWaitList (ep : Z)                  (* mca_btl_progress_send_wait_list (ep) *)
| WaitListAppend (ep : Z)                (* opal_list_append (&ep_wait_list, &ep->super) *)
| ConnectProgress (ep : Z)               (* mca_btl_ugni_ep_connect_progress (ep) *)
| SmsgProcess (ep : Z)                   (* mca_btl_ugni_smsg_process (ep) *)
| WildcardPost                           (* mca_btl_ugni_wildcard_ep_post *)
| ProgressLocalSmsg                      (* mca_btl_ugni_progress_local_smsg *)
| ProgressRemoteSmsg.                    (* mca_btl_ugni_progress_remote_smsg *)

(** The fields of [mca_btl_ugni_component] the modelled functions use. *)
Record mca_btl_ugni_component_t := mk_component {
  ugni_smsg_limit : Z;
  smsg_max_data : Z;
  smsg_max_credits : Z;
  smsg_mbox_size : Z;
  rdma_max_retries : Z
}.

(** One module, with the fields of its endpoints ([wait_listed]) and of the
    fragments in flight ([post_desc.tries], 0 when a fragment is first
    posted) that the progress functions touch. *)
Record mca_btl_ugni_module_t := mk_module {
  failed_frags : list Z;
  ep_wait_list : list Z;
  wait_listed : Z -> bool;
  tries : Z -> Z;
  actions : list action
}.

(** The answers of the GNI library and of the BTL functions defined in other
    files, for one module during one progress call. *)
Record gni_env := mk_gni {
  PostDataProbeById : gni_return_t * Z;        (* rc, datagram_id *)
  EpPostDataWaitById : gni_return_t * Z;       (* rc, remote_id *)
  ep_connected : bool;   (* MCA_BTL_UGNI_EP_STATE_CONNECTED == ep->state afterwards *)
  smsg_process : Z;                            (* mca_btl_ugni_smsg_process *)
  progress_local_smsg : Z;                     (* mca_btl_ugni_progress_local_smsg *)
  progress_remote_smsg : Z;                    (* mca_btl_ugni_progress_remote_smsg *)
  CqGetEvent : gni_return_t * Z;               (* rc, event_data *)
  CQ_OVERRUN : Z -> bool;
  GetCompleted : gni_return_t * Z;             (* rc, the fragment of the descriptor *)
  CQ_STATUS_OK : Z -> bool;
  CqErrorRecoverable : Z -> Z;                 (* recoverable after the call *)
  (* mca_btl_progress_send_wait_list on the i-th endpoint taken from the wait
     list: its return value and the endpoints on which it hits backpressure *)
  send_wait_list : nat -> Z -> Z * list Z
}.

Definition act (a : action) (m : mca_btl_ugni_module_t) : mca_btl_ugni_module_t :=
  mk_module (failed_frags m) (ep_wait_list m) (wait_listed m) (tries m)
            (actions m ++ [a]).

Definition set_failed_frags (l : list Z) (m : mca_btl_ugni_module_t) :=
  mk_module l (ep_wait_list m) (wait_listed m) (tries m) (actions m).

Definition set_ep_wait_list (l : list Z) (m : mca_btl_ugni_module_t) :=
  mk_module (failed_frags m) l (wait_listed m) (tries m) (actions m).

Definition set_wait_listed (ep : Z) (b : bool) (m : mca_btl_ugni_module_t) :=
  mk_module (failed_frags m) (ep_wait_list m)
            (fun e => if decide (e = ep) then b else wait_listed m e)
            (tries m) (actions m).

Definition set_tries (frag : Z) (t : Z) (m : mca_btl_ugni_module_t) :=
  mk_module (failed_frags m) (ep_wait_list m) (wait_listed m)
            (fun f => if decide (f = frag) then t else tries m f)
            (actions m).

Section Component.

(** Declared in other headers ([btl_ugni.h], [btl_ugni_frag.h],
    [opal/align.h], [gni_pub.h], the common uGNI code). *)
Variable sizeof_send_frag_hdr : Z.     (* sizeof (mca_btl_ugni_send_frag_hdr_t) *)
Variable OPAL_ALIGN : Z -> Z -> Z.
Variable GNI_SmsgBufferSizeNeeded : Z -> Z -> gni_return_t * Z.
Variable ompi_common_rc_ugni_to_ompi : gni_return_t -> Z.
Variable MCA_BTL_UGNI_DATAGRAM_MASK : Z.
Variable MCA_BTL_UGNI_CONNECT_WILDCARD_ID : Z.

(** The auto-selection of [mca_btl_ugni_smsg_setup]: the smsg limit based on
    the number of ranks. *)
Definition autoset_smsg_limit (nprocs : Z) : Z :=
  if nprocs <=? 512 then 8192
  else if nprocs <=? 1024 then 2048
  else if nprocs <=? 8192 then 1024
  else if nprocs <=? 16384 then 512
  else 256.

(** [mca_btl_ugni_smsg_setup]; [nprocs] is what [ompi_proc_world] reports. *)
Definition mca_btl_ugni_smsg_setup (nprocs : Z) (c : mca_btl_ugni_component_t)
    : Z * mca_btl_ugni_component_t :=
  let limit :=
    if ugni_smsg_limit c =? 0 then autoset_smsg_limit nprocs
    else ugni_smsg_limit c in
  let max_data := limit - sizeof_send_frag_hdr in
  match GNI_SmsgBufferSizeNeeded limit (smsg_max_credits c) with
  | (GNI_RC_SUCCESS, mbox_size) =>
      (OMPI_SUCCESS,
       mk_component limit max_data (smsg_max_credits c)
                    (OPAL_ALIGN mbox_size 64) (rdma_max_retries c))
  | (rc, _) =>
      (ompi_common_rc_ugni_to_ompi rc,
       mk_component limit max_data (smsg_max_credits c)
                    (smsg_mbox_size c) (rdma_max_retries c))
  end.

Definition is_wildcard (datagram_id : Z) : bool :=
  Z.land datagram_id MCA_BTL_UGNI_DATAGRAM_MASK =? MCA_BTL_UGNI_CONNECT_WILDCARD_ID.

(** [mca_btl_ugni_progress_datagram] *)
Definition mca_btl_ugni_progress_datagram (env : gni_env)
    (m : mca_btl_ugni_module_t) : Z * mca_btl_ugni_module_t :=
  let '(grc, datagram_id) := PostDataProbeById env in
  if negb (gni_ok grc) then (0, m)
  else
    let '(grc, remote_id) := EpPostDataWaitById env in
    if negb (gni_ok grc) then (ompi_common_rc_ugni_to_ompi grc, m)
    else
      let m1 := act (ConnectProgress remote_id) m in
      let '(count, m2) :=
        if ep_connected env
        then (smsg_process env, act (SmsgProcess remote_id) m1)
        else (0, m1) in
      let m3 := if is_wildcard datagram_id then act WildcardPost m2 else m2 in
      (count, m3).

(** [mca_btl_ugni_progress_rdma]; the [assert (0)] of the overrun branch is
    compiled out. *)
Definition mca_btl_ugni_progress_rdma (c : mca_btl_ugni_component_t)
    (env : gni_env) (m : mca_btl_ugni_module_t) : Z * mca_btl_ugni_module_t :=
  let '(rc, event_data) := CqGetEvent env in
  if gni_not_done rc then (0, m)
  else if (negb (gni_ok rc) && (event_data =? 0)) || CQ_OVERRUN env event_data then
    (ompi_common_rc_ugni_to_ompi rc, m)
  else
    let '(rc, frag) := GetCompleted env in
    if negb (gni_ok rc) && negb (gni_transaction_error rc) then
      (ompi_common_rc_ugni_to_ompi rc, m)
    else if negb (gni_ok rc) || negb (CQ_STATUS_OK env event_data) then
      let recoverable := CqErrorRecoverable env event_data in
      let t := tries m frag + 1 in                 (* ++frag->post_desc.tries *)
      let m1 := set_tries frag t m in
      if (t >=? rdma_max_retries c) || (recoverable =? 0) then
        (* give up *)
        (OMPI_ERROR, act (Callback frag OMPI_ERROR) m1)
      else
        (* repost transaction *)
        (0, act (Repost frag OMPI_SUCCESS) m1)
    else
      (1, act (Callback frag (ompi_common_rc_ugni_to_ompi rc)) m).

(** The loop of [mca_btl_ugni_retry_failed]. *)
Fixpoint retry_failed_loop (count : nat) (m : mca_btl_ugni_module_t)
    : mca_btl_ugni_module_t :=
  match count with
  | O => m
  | S count' =>
      match failed_frags m with
      | [] => m                                     (* assert (NULL != frag) *)
      | frag :: rest =>
          retry_failed_loop count'
            (act (Callback frag OMPI_SUCCESS) (set_failed_frags rest m))
      end
  end.

(** [mca_btl_ugni_retry_failed] *)
Definition mca_btl_ugni_retry_failed (m : mca_btl_ugni_module_t)
    : Z * mca_btl_ugni_module_t :=
  let count := length (failed_frags m) in
  (Z.of_nat count, retry_failed_loop count m).

(** Putting an endpoint on the wait list:
<<
    opal_list_append (&ugni_module->ep_wait_list, &endpoint->super);
    endpoint->wait_listed = true;
>> *)
Definition wait_list_append (ep : Z) (m : mca_btl_ugni_module_t) : mca_btl_ugni_module_t :=
  set_wait_listed ep true
    (set_ep_wait_list (ep_wait_list m ++ [ep]) (act (WaitListAppend ep) m)).

(** Modelled from the spec: the code that parks an endpoint on backpressure
    is not part of the component file.  "When a send cannot be issued
    immediately, the endpoint is appended to a module-wide wait list
    (idempotently -- a boolean flag prevents double-listing)". *)
Definition backpressure (ep : Z) (m : mca_btl_ugni_module_t) : mca_btl_ugni_module_t :=
  if wait_listed m ep then m else wait_list_append ep m.

(** The loop of [mca_btl_ugni_progress_wait_list]; [i] is the loop counter. *)
Fixpoint progress_wait_list_loop (env : gni_env) (count : nat) (i : nat)
    (m : mca_btl_ugni_module_t) : mca_btl_ugni_module_t :=
  match count with
  | O => m
  | S count' =>
      match ep_wait_list m with
      | [] => m                                     (* assert (NULL != endpoint) *)
      | endpoint :: rest =>
          let m1 := set_wait_listed endpoint false (set_ep_wait_list rest m) in
          let '(rc, hits) := send_wait_list env i endpoint in
          let m2 := foldl (fun m e => backpressure e m)
                          (act (SendWaitList endpoint) m1) hits in
          let m3 :=
            if negb (rc =? OMPI_SUCCESS) && negb (wait_listed m2 endpoint)
            then wait_list_append endpoint m2
            else m2 in
          progress_wait_list_loop env count' (S i) m3
      end
  end.

(** [mca_btl_ugni_progress_wait_list] *)
Definition mca_btl_ugni_progress_wait_list (env : gni_env)
    (m : mca_btl_ugni_module_t) : Z * mca_btl_ugni_module_t :=
  let count := length (ep_wait_list m) in
  (Z.of_nat count, progress_wait_list_loop env count 0 m).

(** The body of the loop of [mca_btl_ugni_component_progress] for one
    module: what it adds to [count], and the module afterwards. *)
Definition progress_module (c : mca_btl_ugni_component_t) (env : gni_env)
    (m : mca_btl_ugni_module_t) : Z * mca_btl_ugni_module_t :=
  let '(_, m1) := mca_btl_ugni_retry_failed m in
  let '(_, m2) := mca_btl_ugni_progress_wait_list env m1 in
  let '(c1, m3) := mca_btl_ugni_progress_datagram env m2 in
  let c2 := progress_local_smsg env in
  let c3 := progress_remote_smsg env in
  let '(c4, m4) :=
    mca_btl_ugni_progress_rdma c env
      (act ProgressRemoteSmsg (act ProgressLocalSmsg m3)) in
  (c1 + c2 + c3 + c4, m4).

(** [mca_btl_ugni_component_progress]: [modules] are the
    [ugni_num_btls] modules of the component, [envs i] the environment of
    module [i]. *)
Fixpoint progress_loop (c : mca_btl_ugni_component_t) (envs : nat -> gni_env)
    (i : nat) (modules : list mca_btl_ugni_module_t) (count : Z)
    : Z * list mca_btl_ugni_module_t :=
  match modules with
  | [] => (count, [])
  | ugni_module :: rest =>
      let '(n, m') := progress_module c (envs i) ugni_module in
      let '(count', rest') := progress_loop c envs (S i) rest (count + n) in
      (count', m' :: rest')
  end.

Definition mca_btl_ugni_component_progress (c : mca_btl_ugni_component_t)
    (envs : nat -> gni_env) (modules : list mca_btl_ugni_module_t)
    : Z * list mca_btl_ugni_module_t :=
  progress_loop c envs 0 modules 0.

(** *** Sequences of calls *)

(** Successive calls of [mca_btl_ugni_progress_rdma] on one module, each
    against the completion the hardware reports at that moment. *)
Fixpoint rdma_completions (c : mca_btl_ugni_component_t) (envs : list gni_env)
    (m : mca_btl_ugni_module_t) : list Z * mca_btl_ugni_module_t :=
  match envs with
  | [] => ([], m)
  | env :: envs' =>
      let '(rc, m1) := mca_btl_ugni_progress_rdma c env m in
      let '(rcs, m2) := rdma_completions c envs' m1 in
      (rc :: rcs, m2)
  end.

(** What the four polling steps of one module return, added up. *)
Definition polled_count (c : mca_btl_ugni_component_t) (env : gni_env)
    (m : mca_btl_ugni_module_t) : Z :=
  fst (mca_btl_ugni_progress_datagram env m)
  + progress_local_smsg env
  + progress_remote_smsg env
  + fst (mca_btl_ugni_progress_rdma c env m).

Fixpoint sum_polled (c : mca_btl_ugni_component_t) (envs : nat -> gni_env)
    (i : nat) (modules : list mca_btl_ugni_module_t) : Z :=
  match modules with
  | [] => 0
  | m :: rest => polled_count c (envs i) m + sum_polled c envs (S i) rest
  end.

End Component.

(** The hardware completion of [env] is a recoverable error of fragment
    [frag]: an event is there, it is not an overrun, its descriptor is
    obtained, the transaction failed, and the error is reported
    recoverable. *)
Definition recoverable_error_of (env : gni_env) (frag : Z) : Prop :=
  exists rc event_data rc',
    CqGetEvent env = (rc, event_data) /\
    gni_not_done rc = false /\
    (gni_ok rc = true \/ event_data <> 0) /\
    CQ_OVERRUN env event_data = false /\
    GetCompleted env = (rc', frag) /\
    (rc' = GNI_RC_TRANSACTION_ERROR \/
     (rc' = GNI_RC_SUCCESS /\ CQ_STATUS_OK env event_data = false)) /\
    CqErrorRecoverable env event_data <> 0.

(** Backpressure events and progress calls on one module. *)
Inductive wl_event :=
| Backpressure (ep : Z)
| Progress (env : gni_env).

Definition wl_step (m : mca_btl_ugni_module_t) (ev : wl_event) : mca_btl_ugni_module_t :=
  match ev with
  | Backpressure ep => backpressure ep m
  | Progress env => snd (mca_btl_ugni_progress_wait_list env m)
  end.

Definition wl_run (evs : list wl_event) (m : mca_btl_ugni_module_t)
    : mca_btl_ugni_module_t :=
  foldl wl_step m evs.

(** The endpoints appended to the wait list by a sequence of actions. *)
Definition appends (l : list action) : list Z :=
  concat (map (fun a => match a with WaitListAppend ep => [ep] | _ => [] end) l).

(** No endpoint is listed twice, and the flag of an endpoint is set exactly
    while it is on the list. *)
Definition wl_inv (m : mca_btl_ugni_module_t) : Prop :=
  NoDup (ep_wait_list m) /\
  forall ep, wait_listed m ep = true <-> ep ∈ ep_wait_list m.

(** [m'] is [m] after some appends to the tail of the wait list, each with
    its flag set, and nothing else done to the list. *)
Definition extends (m m' : mca_btl_ugni_module_t) : Prop :=
  exists new,
    actions m' = actions m ++ new /\
    ep_wait_list m' = ep_wait_list m ++ appends new.

(** *** Example inputs *)

Definition rc_to_ompi (rc : gni_return_t) : Z :=
  match rc with GNI_RC_SUCCESS => OMPI_SUCCESS | _ => OMPI_ERROR end.

(** Nothing has completed anywhere. *)
Definition env_idle : gni_env :=
  mk_gni (GNI_RC_NOT_DONE, 0) (GNI_RC_SUCCESS, 0) false 0 0 0
         (GNI_RC_NOT_DONE, 0) (fun _ => false) (GNI_RC_SUCCESS, 0)
         (fun _ => true) (fun _ => 1) (fun _ _ => (OMPI_SUCCESS, [])).

(** The RDMA completion queue reports a recoverable transaction error of
    fragment [frag]. *)
Definition env_rdma_error (frag : Z) : gni_env :=
  mk_gni (GNI_RC_NOT_DONE, 0) (GNI_RC_SUCCESS, 0) false 0 0 0
         (GNI_RC_SUCCESS, 1) (fun _ => false) (GNI_RC_TRANSACTION_ERROR, frag)
         (fun _ => false) (fun _ => 1) (fun _ _ => (OMPI_SUCCESS, [])).

(** Every send from the wait list fails again, hitting backpressure on its
    own endpoint. *)
Definition env_stuck : gni_env :=
  mk_gni (GNI_RC_NOT_DONE, 0) (GNI_RC_SUCCESS, 0) false 0 0 0
         (GNI_RC_NOT_DONE, 0) (fun _ => false) (GNI_RC_SUCCESS, 0)
         (fun _ => true) (fun _ => 1) (fun _ ep => (OMPI_ERR_OUT_OF_RESOURCE, [ep])).

(** The registered defaults: smsg_limit 0 (auto-select), 32 credits,
    rdma_max_retries 16. *)
Definition component_default : mca_btl_ugni_component_t :=
  mk_component 0 0 32 0 16.

Definition module_idle : mca_btl_ugni_module_t :=
  mk_module [] [] (fun _ => false) (fun _ => 0) [].

(** A module with fragment 7 on its failed-frags list. *)
Definition module_failed : mca_btl_ugni_module_t :=
  mk_module [7] [] (fun _ => false) (fun _ => 0) [].

(** *** Component initialization *)

(** The globals [mca_btl_ugni_component_init] works on besides the fields of
    [mca_btl_ugni_component_t] above: [ugni_fma_limit] and [ugni_num_btls] of
    the component, [btl_eager_limit] and [btl_rdma_pipeline_send_length] of
    [mca_btl_ugni_module.super], and the two leave-pinned parameters of the
    MPI layer. *)
Record ugni_globals := mk_globals {
  component : mca_btl_ugni_component_t;
  ugni_fma_limit : Z;
  ugni_num_btls : Z;
  btl_eager_limit : Z;
  btl_rdma_pipeline_send_length : Z;
  ompi_mpi_leave_pinned : Z;
  ompi_mpi_leave_pinned_pipeline : Z
}.

(** What the initialization gets from the functions it calls. *)
Record init_answers := mk_answers {
  ompi_common_ugni_init : Z;
  device_count : Z;                        (* ompi_common_ugni_module.device_count *)
  calloc_modules_ok : bool;
  calloc_base_modules_ok : bool;
  opal_mem_hooks_support_level : Z;
  ompi_proc_world_size : Z;                (* nprocs of ompi_proc_world *)
  mca_btl_ugni_module_init : nat -> Z      (* on module i *)
}.

Section Init.

Variable sizeof_send_frag_hdr : Z.
Variable OPAL_ALIGN : Z -> Z -> Z.
Variable GNI_SmsgBufferSizeNeeded : Z -> Z -> gni_return_t * Z.
Variable ompi_common_rc_ugni_to_ompi : gni_return_t -> Z.
Variable OPAL_MEMORY_FREE_SUPPORT : Z.
Variable OPAL_MEMORY_MUNMAP_SUPPORT : Z.

(** [mca_btl_ugni_autoset_leave_pinned], on the pair
    [(ompi_mpi_leave_pinned, ompi_mpi_leave_pinned_pipeline)]. *)
Definition mca_btl_ugni_autoset_leave_pinned (value : Z) (lp : Z * Z) : Z * Z :=
  let both := Z.lor OPAL_MEMORY_FREE_SUPPORT OPAL_MEMORY_MUNMAP_SUPPORT in
  if both =? Z.land both value then
    (* Set leave pinned to 1 if leave pinned pipeline is not set *)
    if -1 =? lp.1 then ((if lp.2 =? 0 then 1 else 0), lp.2) else lp
  else (0, 0).

(** The loop over the modules:
<<
    for (i = 0 ; i < mca_btl_ugni_component.ugni_num_btls ; ++i) {
        rc = mca_btl_ugni_module_init (ugni_modules + i, devices + i);
        if (OPAL_UNLIKELY(OMPI_SUCCESS != rc)) return NULL;
        base_modules[i] = ugni_module;
    }
>>
    The result is the list of module indices stored in [base_modules], or
    [None] at the [return NULL]. *)
Fixpoint init_modules (a : init_answers) (count i : nat) : option (list nat) :=
  match count with
  | O => Some []
  | S count' =>
      if mca_btl_ugni_module_init a i =? OMPI_SUCCESS then
        match init_modules a count' (S i) with
        | Some l => Some (i :: l)
        | None => None
        end
      else None
  end.

(** [mca_btl_ugni_component_init].  The result is the array returned
    ([None] for [NULL]), the value written to [*num_btl_modules] if any, and
    the globals afterwards. *)
Definition mca_btl_ugni_component_init (a : init_answers) (g : ugni_globals)
    : option (list nat) * option Z * ugni_globals :=
  let c := component g in
  let c1 :=
    if 16384 <? ugni_smsg_limit c
    then mk_component 16384 (smsg_max_data c) (smsg_max_credits c)
                      (smsg_mbox_size c) (rdma_max_retries c)
    else c in
  let fma := if 65536 <? ugni_fma_limit g then 65536 else ugni_fma_limit g in
  let g1 := mk_globals c1 fma (ugni_num_btls g) (btl_eager_limit g)
                       (btl_rdma_pipeline_send_length g)
                       (ompi_mpi_leave_pinned g) (ompi_mpi_leave_pinned_pipeline g) in
  (* Initialize ugni library and create communication domain *)
  if negb (ompi_common_ugni_init a =? OMPI_SUCCESS) then (None, None, g1)
  else
    let g2 := mk_globals c1 fma (device_count a) (btl_eager_limit g)
                         (btl_rdma_pipeline_send_length g)
                         (ompi_mpi_leave_pinned g) (ompi_mpi_leave_pinned_pipeline g) in
    if negb (calloc_modules_ok a) then (None, None, g2)
    else if negb (calloc_base_modules_ok a) then (None, None, g2)
    else
      let lp := mca_btl_ugni_autoset_leave_pinned (opal_mem_hooks_support_level a)
                  (ompi_mpi_leave_pinned g, ompi_mpi_leave_pinned_pipeline g) in
      let '(rc, c2) :=
        mca_btl_ugni_smsg_setup sizeof_send_frag_hdr OPAL_ALIGN
          GNI_SmsgBufferSizeNeeded ompi_common_rc_ugni_to_ompi
          (ompi_proc_world_size a) c1 in
      if negb (rc =? OMPI_SUCCESS) then
        (None, None,
         mk_globals c2 fma (device_count a) (btl_eager_limit g)
                    (btl_rdma_pipeline_send_length g) lp.1 lp.2)
      else
        let eager :=
          if ugni_smsg_limit c2 =? btl_eager_limit g then smsg_max_data c2
          else btl_eager_limit g in
        let g3 := mk_globals c2 fma (device_count a) eager eager lp.1 lp.2 in
        match init_modules a (Z.to_nat (device_count a)) 0 with
        | None => (None, None, g3)
        | Some base_modules => (Some base_modules, Some (device_count a), g3)
        end.

End Init.

(** *** More notions used in the proofs *)

(** Every send taken up from the wait list fails again; it may hit
    backpressure on its own endpoint. *)
Definition all_sends_fail (env : gni_env) : Prop :=
  forall i ep, (send_wait_list env i ep).1 <> OMPI_SUCCESS /\
               ((send_wait_list env i ep).2 = [] \/ (send_wait_list env i ep).2 = [ep]).

(** Every send taken up from the wait list goes through. *)
Definition all_sends_succeed (env : gni_env) : Prop :=
  forall i ep, send_wait_list env i ep = (OMPI_SUCCESS, []).

(** The completion of [env] is an error of fragment [frag] that is reported
    not recoverable. *)
Definition unrecoverable_error_of (env : gni_env) (frag : Z) : Prop :=
  exists rc event_data rc',
    CqGetEvent env = (rc, event_data) /\
    gni_not_done rc = false /\
    (gni_ok rc = true \/ event_data <> 0) /\
    CQ_OVERRUN env event_data = false /\
    GetCompleted env = (rc', frag) /\
    (rc' = GNI_RC_TRANSACTION_ERROR \/
     (rc' = GNI_RC_SUCCESS /\ CQ_STATUS_OK env event_data = false)) /\
    CqErrorRecoverable env event_data = 0.

(** The completion of [env] is a successful completion of fragment
    [frag]. *)
Definition successful_completion_of (env : gni_env) (frag : Z) : Prop :=
  exists rc event_data,
    CqGetEvent env = (rc, event_data) /\
    gni_not_done rc = false /\
    (gni_ok rc = true \/ event_data <> 0) /\
    CQ_OVERRUN env event_data = false /\
    GetCompleted env = (GNI_RC_SUCCESS, frag) /\
    CQ_STATUS_OK env event_data = true.

(** The sends taken up from the wait list leave the list alone. *)
Definition sends_keep_list (env : gni_env) : Prop :=
  forall i ep, (send_wait_list env i ep).2 = [].

(** The endpoints of [l] whose send fails again; [i] is the loop counter at
    the first of them. *)
Fixpoint still_waiting (env : gni_env) (i : nat) (l : list Z) : list Z :=
  match l with
  | [] => []
  | ep :: l' =>
      (if (send_wait_list env i ep).1 =? OMPI_SUCCESS then [] else [ep])
      ++ still_waiting env (S i) l'
  end.

(** The endpoints whose queued sends were taken up, in call order. *)
Definition sends (l : list action) : list Z :=
  concat (map (fun a => match a with SendWaitList ep => [ep] | _ => [] end) l).

(** The completion queue reports an error of fragment [frag] that cannot be
    recovered. *)
Definition env_rdma_fatal (frag : Z) : gni_env :=
  mk_gni (GNI_RC_NOT_DONE, 0) (GNI_RC_SUCCESS, 0) false 0 0 0
         (GNI_RC_SUCCESS, 1) (fun _ => false) (GNI_RC_TRANSACTION_ERROR, frag)
         (fun _ => false) (fun _ => 0) (fun _ _ => (OMPI_SUCCESS, [])).

(** The send of the first endpoint taken from the list goes through, the
    later ones fail. *)
Definition env_first_goes : gni_env :=
  mk_gni (GNI_RC_NOT_DONE, 0) (GNI_RC_SUCCESS, 0) false 0 0 0
         (GNI_RC_NOT_DONE, 0) (fun _ => false) (GNI_RC_SUCCESS, 0)
         (fun _ => true) (fun _ => 1)
         (fun i _ => (match i with O => OMPI_SUCCESS | _ => OMPI_ERR_OUT_OF_RESOURCE end, [])).

(** Modules 3 and 9 wait on the list of a module. *)
Definition module_waiting : mca_btl_ugni_module_t :=
  mk_module [] [3; 9] (fun e => if decide (e = 3) then true
                                else if decide (e = 9) then true else false)
            (fun _ => 0) [].

Definition globals_default : ugni_globals :=
  mk_globals component_default 1024 0 8192 8192 (-1) 0.

Definition answers_ok (n : Z) : init_answers :=
  mk_answers OMPI_SUCCESS 2 true true 3 n (fun _ => OMPI_SUCCESS).

End Ugni.

(* ===================================================================== *)
(** * Properties of the CUDA event pools and registrations               *)
(* ===================================================================== *)

(** Boolean comparisons of the code, turned into the propositions [lia]
    works with. *)
Ltac zbool :=
  repeat match goal with
  | H : (_ <? _) = true |- _ => apply Z.ltb_lt in H
  | H : (_ <? _) = false |- _ => apply Z.ltb_ge in H
  | H : (_ <=? _) = true |- _ => apply Z.leb_le in H
  | H : (_ <=? _) = false |- _ => apply Z.leb_gt in H
  | H : (_ >=? _) = true |- _ => rewrite Z.geb_leb in H; apply Z.leb_le in H
  | H : (_ >=? _) = false |- _ => rewrite Z.geb_leb in H; apply Z.leb_gt in H
  | H : (_ >? _) = true |- _ => rewrite Z.gtb_ltb in H; apply Z.ltb_lt in H
  | H : (_ >? _) = false |- _ => rewrite Z.gtb_ltb in H; apply Z.ltb_ge in H
  | H : (_ =? _) = true |- _ => apply Z.eqb_eq in H
  | H : (_ =? _) = false |- _ => apply Z.eqb_neq in H
  end.

Ltac zcases := repeat case_match; zbool; try lia.

Module CudaFacts.
Import Cuda.

(** ** Arrays *)

Lemma aget_aset_eq (a : list Z) (i v : Z) :
  0 <= i < Z.of_nat (length a) -> aget (aset a i v) i = v.
Proof.
  intros Hi. unfold aget, aset.
  apply list_lookup_total_insert_eq. lia.
Qed.

Lemma aget_aset_ne (a : list Z) (i j v : Z) :
  0 <= i -> 0 <= j -> i <> j -> aget (aset a i v) j = aget a j.
Proof.
  intros Hi Hj Hne. unfold aget, aset.
  apply list_lookup_total_insert_ne. lia.
Qed.

(** ** State accessors *)

Lemma pool_set_pool d d' p st :
  pool d (set_pool d' p st) = if decide (d = d') then p else pool d st.
Proof. destruct d, d'; reflexivity. Qed.

Lemma pool_set_pool_eq d p st : pool d (set_pool d p st) = p.
Proof. rewrite pool_set_pool. by rewrite decide_True. Qed.

Lemma pool_log d c st : pool d (log c st) = pool d st.
Proof. by destruct d. Qed.

Lemma pool_log_queries d n ev st : pool d (log_queries n ev st) = pool d st.
Proof.
  revert st. induction n as [|n IH]; intros st; simpl; [done|].
  by rewrite IH, pool_log.
Qed.

Lemma max_log_queries n ev st :
  cuda_event_max (log_queries n ev st) = cuda_event_max st.
Proof. revert st. induction n as [|n IH]; intros st; simpl; [done|]. by rewrite IH. Qed.

Lemma async_log_queries n ev st :
  mca_common_cuda_async (log_queries n ev st) = mca_common_cuda_async st.
Proof. revert st. induction n as [|n IH]; intros st; simpl; [done|]. by rewrite IH. Qed.

(** ** The ring *)

Lemma slot_range max fu k :
  0 <= fu < max -> 0 <= k <= max -> 0 <= slot max fu k < max.
Proof. unfold slot. intros. zcases. Qed.

Lemma slot_inj max fu k n :
  0 <= fu < max -> 0 <= k < n -> n <= max -> n < max ->
  slot max fu k <> slot max fu n.
Proof. unfold slot. intros. zcases. Qed.

Lemma bump_avail_wf max frag p :
  pool_wf max p -> num_used p <> max -> pool_wf max (bump_avail max frag p).
Proof.
  intros (Hlen & Hfu & Hn & Hfa) Hne. unfold pool_wf, bump_avail, aset; simpl.
  rewrite length_insert. repeat split; try lia.
  rewrite Hfa. unfold slot. zcases.
Qed.

Lemma bump_avail_contents max frag p :
  pool_wf max p -> num_used p <> max ->
  contents max (bump_avail max frag p) = contents max p ++ [frag].
Proof.
  intros (Hlen & Hfu & Hn & Hfa) Hne. unfold contents, bump_avail; simpl.
  replace (Z.to_nat (num_used p + 1)) with (S (Z.to_nat (num_used p))) by lia.
  rewrite seq_S, map_app. simpl. f_equal.
  - apply map_ext_in. intros k Hk%in_seq.
    apply aget_aset_ne.
    + rewrite Hfa. apply slot_range; lia.
    + apply slot_range; lia.
    + rewrite Hfa. intros Heq. symmetry in Heq. revert Heq.
      apply slot_inj; lia.
  - f_equal. rewrite Z2Nat.id by lia. rewrite <- Hfa.
    apply aget_aset_eq.
    pose proof (slot_range max (first_used p) (num_used p) Hfu Hn).
    rewrite Hfa. lia.
Qed.

Lemma bump_used_wf max p :
  pool_wf max p -> 0 < num_used p -> pool_wf max (bump_used max p).
Proof.
  intros (Hlen & Hfu & Hn & Hfa) Hpos. unfold pool_wf, bump_used; simpl.
  repeat split; try lia; try (by zcases).
  rewrite Hfa. unfold slot. zcases.
Qed.

Lemma bump_used_contents max p :
  pool_wf max p -> 0 < num_used p ->
  contents max p =
  aget (frag_array p) (first_used p) :: contents max (bump_used max p).
Proof.
  intros (Hlen & Hfu & Hn & Hfa) Hpos. unfold contents, bump_used; simpl.
  replace (Z.to_nat (num_used p)) with (S (Z.to_nat (num_used p - 1))) by lia.
  simpl. f_equal.
  - f_equal. unfold slot. zcases.
  - rewrite <- seq_shift, map_map. apply map_ext_in. intros k Hk%in_seq.
    f_equal. unfold slot. zcases.
Qed.

Lemma contents_empty max p : num_used p = 0 -> contents max p = [].
Proof. intros H. unfold contents. by rewrite H. Qed.

Lemma pool_fresh_inv max p : 0 <= max -> pool_fresh max p -> pool_inv max p.
Proof.
  intros Hmax (Hlen & Hn & Hfa & Hfu).
  destruct (decide (max = 0)) as [->|Hne]; [by left|].
  right. unfold pool_wf, slot. rewrite Hn, Hfa, Hfu.
  repeat split; try lia. zcases.
Qed.

(** ** What one call does to one pool *)

Lemma inv_push max frag p p' :
  pool_inv max p -> push_ok max frag p p' ->
  pool_inv max p' /\ contents max p' = contents max p ++ [frag].
Proof.
  intros [[-> Hn]|Hwf] [Hne ->]; [congruence|].
  split; [right; by apply bump_avail_wf | by apply bump_avail_contents].
Qed.

Lemma inv_pop max p p' :
  pool_inv max p -> pop_ok max p p' ->
  pool_inv max p' /\
  contents max p = aget (frag_array p) (first_used p) :: contents max p'.
Proof.
  intros [[-> Hn]|Hwf] [Hpos ->]; [lia|].
  split; [right; by apply bump_used_wf | by apply bump_used_contents].
Qed.

Lemma pool_inv_bound max p : pool_inv max p -> 0 <= num_used p <= max.
Proof. intros [[-> ->]|(_ & _ & H & _)]; lia. Qed.

(** A record call of [mca_common_cuda_record_dtoh_event] /
    [mca_common_cuda_record_htod_event]. *)
Lemma record_event_effect d' cuFunc frag st rc st' :
  record_event d' cuFunc frag st = (rc, st') ->
  cuda_event_max st' = cuda_event_max st /\
  mca_common_cuda_async st' = mca_common_cuda_async st /\
  (forall d, d <> d' -> pool d st' = pool d st) /\
  ((rc = OMPI_SUCCESS /\
    push_ok (cuda_event_max st) frag (pool d' st) (pool d' st')) \/
   (rc <> OMPI_SUCCESS /\ pool d' st' = pool d' st)).
Proof.
  unfold record_event. intros H.
  repeat case_match; simplify_eq; zbool; simpl;
    (split; [done|]); (split; [done|]); split;
    try (intros d Hd; rewrite ?pool_set_pool, ?pool_log;
         by rewrite ?decide_False by done).
  - right. by split.
  - left. split; [done|]. split; [done|].
    by rewrite pool_set_pool_eq.
  - right. split; [done|]. by rewrite pool_log.
Qed.

(** A poll. *)
Lemma progress_one_effect d' cuFunc frag0 st rc frag st' :
  progress_one d' cuFunc frag0 st = (rc, frag, st') ->
  cuda_event_max st' = cuda_event_max st /\
  mca_common_cuda_async st' = mca_common_cuda_async st /\
  (forall d, d <> d' -> pool d st' = pool d st) /\
  ((rc = 1 /\ frag = aget (frag_array (pool d' st)) (first_used (pool d' st)) /\
    pop_ok (cuda_event_max st) (pool d' st) (pool d' st')) \/
   (rc <> 1 /\ pool d' st' = pool d' st)).
Proof.
  unfold progress_one. intros H.
  repeat case_match; simplify_eq; zbool; simpl;
    (split; [done|]); (split; [done|]); split;
    try (intros d Hd; rewrite ?pool_set_pool, ?pool_log;
         by rewrite ?decide_False by done).
  all: try (right; split; [done|]; by rewrite ?pool_log).
  left. split; [done|]. split; [done|]. split; [done|].
  by rewrite pool_set_pool_eq.
Qed.

(** The asynchronous-copy call. *)
Lemma start_copy_effect cuFunc dst src amt frag st :
  match start_copy cuFunc dst src amt frag st with
  | inl st' =>
      cuda_event_max st' = cuda_event_max st /\
      mca_common_cuda_async st' = mca_common_cuda_async st /\
      forall d, pool d st' = pool d st
  | inr st' =>
      cuda_event_max st' = cuda_event_max st /\
      mca_common_cuda_async st' = mca_common_cuda_async st /\
      (forall d, d <> IPC -> pool d st' = pool d st) /\
      pool IPC st' = bump_avail (cuda_event_max st) frag (pool IPC st)
  end.
Proof.
  unfold start_copy.
  destruct (negb (is_success (cuMemcpyAsync _ _ _ _ _))).
  { split_and!; try done; intros d; by rewrite ?pool_log. }
  destruct (negb (is_success (cuEventRecord _ _ _))).
  { split_and!; try done; intros d; by rewrite ?pool_log. }
  split_and!; try done; try (by rewrite pool_set_pool_eq).
  intros d Hd. rewrite pool_set_pool, !pool_log. by rewrite decide_False.
Qed.

Lemma memcpy_effect fuel cuFunc dst src amt frag st rc done st' :
  mca_common_cuda_memcpy fuel cuFunc dst src amt frag st = Some (rc, done, st') ->
  cuda_event_max st' = cuda_event_max st /\
  mca_common_cuda_async st' = mca_common_cuda_async st /\
  (forall d, d <> IPC -> pool d st' = pool d st) /\
  ((rc <> OMPI_SUCCESS /\ pool IPC st' = pool IPC st) \/
   (rc <> OMPI_SUCCESS /\ mca_common_cuda_async st = 0 /\
    push_ok (cuda_event_max st) frag (pool IPC st) (pool IPC st')) \/
   (rc = OMPI_SUCCESS /\ mca_common_cuda_async st <> 0 /\ done = Some 0 /\
    push_ok (cuda_event_max st) frag (pool IPC st) (pool IPC st')) \/
   (rc = OMPI_SUCCESS /\ mca_common_cuda_async st = 0 /\ done = Some 1 /\
    exists p1, push_ok (cuda_event_max st) frag (pool IPC st) p1 /\
               pool IPC st' = bump_used (cuda_event_max st) p1)).
Proof.
  unfold mca_common_cuda_memcpy. intros H.
  destruct (num_used (pool IPC st) =? cuda_event_max st) eqn:Hfull; zbool.
  { simplify_eq. split_and!; try done. left. by split. }
  pose proof (start_copy_effect cuFunc dst src amt frag st) as Hs.
  destruct (mca_common_cuda_async st =? 0) eqn:Hasync; zbool; cbn [negb] in H;
    destruct (start_copy cuFunc dst src amt frag st) as [st1|st3].
  - (* synchronous, error before the event is stored *)
    destruct Hs as (? & ? & Hp). simplify_eq.
    split_and!; try done; try (by intros; apply Hp). left. by split.
  - (* synchronous, waiting for the head event *)
    destruct Hs as (Hmax & Has & Ho & Hp).
    destruct (wait_event _ _ _ _ _) as [[[]|] k]; simplify_eq.
    + split_and!.
      * simpl. by rewrite max_log_queries.
      * simpl. by rewrite async_log_queries.
      * intros d Hd. rewrite pool_set_pool, pool_log_queries.
        rewrite decide_False by done. by apply Ho.
      * right; right; right. split_and!; try done.
        exists (pool IPC st3). rewrite pool_set_pool_eq. by rewrite Hp.
    + split_and!.
      * by rewrite max_log_queries.
      * by rewrite async_log_queries.
      * intros d Hd. rewrite pool_log_queries. by apply Ho.
      * right; left. rewrite pool_log_queries, Hp. by split_and!.
  - (* asynchronous, error *)
    destruct Hs as (? & ? & Hp). simplify_eq.
    split_and!; try done; try (by intros; apply Hp). left. by split.
  - (* asynchronous, recorded *)
    destruct Hs as (Hmax & Has & Ho & Hp). simplify_eq.
    split_and!; try done. right; right; left. by rewrite Hp.
Qed.

(** ** What one call does to the queue of one direction *)

Lemma step_ok_frame d st o st' :
  cuda_event_max st' = cuda_event_max st ->
  mca_common_cuda_async st' = mca_common_cuda_async st ->
  pool d st' = pool d st ->
  polled1 d o = [] -> deferred1 d o = [] -> recorded1 d o = [] ->
  step_ok d st o st'.
Proof.
  intros Hmax Has Hp Ho Hd Hr. unfold step_ok, sync_idle.
  rewrite Hp, Ho, Hd, Hr, Has. split_and!; try done.
  intros Hinv Hidle Hsucc. split; [by rewrite app_nil_r|].
  intros -> Ha. rewrite Hp. auto.
Qed.

Lemma step_ok_record d d' cuFunc frag st rc st' :
  d' <> IPC ->
  record_event d' cuFunc frag st = (rc, st') ->
  step_ok d st (Recorded d' frag rc None) st'.
Proof.
  intros Hd' (Hmax & Has & Hother & Hcase)%record_event_effect.
  destruct (decide (d = d')) as [->|Hne].
  2: { apply step_ok_frame; auto; simpl; by rewrite decide_False. }
  unfold step_ok, sync_idle; cbn [polled1 deferred1 recorded1 record_succeeded]. rewrite !decide_True by done.
  split_and!; try done.
  - intros Hinv. destruct Hcase as [[_ Hp]|[_ ->]]; [|done].
    by destruct (inv_push _ _ _ _ Hinv Hp).
  - intros Hinv Hidle Hsucc. split; [|done].
    destruct Hcase as [[-> Hp]|[Hrc Hp]]; simpl in *; [|done].
    by destruct (inv_push _ _ _ _ Hinv Hp) as [_ ->].
Qed.

Lemma step_ok_progress d d' cuFunc frag0 st rc frag st' :
  progress_one d' cuFunc frag0 st = (rc, frag, st') ->
  step_ok d st (Polled d' rc frag) st'.
Proof.
  intros (Hmax & Has & Hother & Hcase)%progress_one_effect.
  destruct (decide (d = d')) as [->|Hne].
  2: { apply step_ok_frame; auto; simpl; by rewrite decide_False. }
  unfold step_ok, sync_idle; cbn [polled1 deferred1 recorded1 record_succeeded]. rewrite !decide_True by done.
  split_and!; try done.
  - intros Hinv. destruct Hcase as [(_ & _ & Hp)|[_ ->]]; [|done].
    by destruct (inv_pop _ _ _ Hinv Hp).
  - intros Hinv Hidle _. split.
    + destruct Hcase as [(-> & -> & Hp)|[Hrc Hp]]; simpl.
      * destruct (inv_pop _ _ _ Hinv Hp) as [_ ->]. by rewrite app_nil_r.
      * rewrite Hp, app_nil_r. case_match; zbool; done.
    + intros -> Hsync. rewrite Has in Hsync.
      destruct Hcase as [(_ & _ & Hpos & _)|[_ ->]]; [|auto].
      specialize (Hidle eq_refl Hsync). lia.
  - intros -> Hsync Hn.
    destruct Hcase as [(_ & _ & Hpos & _)|[Hrc _]]; [lia|].
    case_match; zbool; done.
Qed.

Lemma step_ok_memcpy d fuel cuFunc dst src amt frag st rc done st' :
  mca_common_cuda_memcpy fuel cuFunc dst src amt frag st = Some (rc, done, st') ->
  step_ok d st (Recorded IPC frag rc done) st'.
Proof.
  intros (Hmax & Has & Hother & Hcase)%memcpy_effect.
  destruct (decide (d = IPC)) as [->|Hne].
  2: { apply step_ok_frame; auto; simpl; by rewrite decide_False. }
  unfold step_ok, sync_idle; cbn [polled1 deferred1 recorded1 record_succeeded]. rewrite Has.
  split; [done|]. split; [done|].
  destruct Hcase as [[Hrc Hp]|[(Hrc & Ha & Hp)|[(-> & Ha & -> & Hp)|(-> & Ha & -> & p1 & Hp & Hq)]]].
  - rewrite Hp. split_and!; try done.
    intros [?|?]; [|done]. rewrite !decide_True by done.
    destruct (rc =? OMPI_SUCCESS) eqn:E; zbool; done.
  - split_and!; try done.
    + intros Hinv. by destruct (inv_push _ _ _ _ Hinv Hp).
    + intros [?|?]; done.
  - split_and!; try done.
    + intros Hinv. by destruct (inv_push _ _ _ _ Hinv Hp).
    + intros Hinv Hidle _. split; [|done].
      by destruct (inv_push _ _ _ _ Hinv Hp) as [_ ->].
  - assert (Hpush : forall p, pool_inv (cuda_event_max st) p ->
              push_ok (cuda_event_max st) frag p p1 ->
              pool_inv (cuda_event_max st) (bump_used (cuda_event_max st) p1) /\
              contents (cuda_event_max st) p ++ [frag] =
                aget (frag_array p1) (first_used p1)
                  :: contents (cuda_event_max st) (bump_used (cuda_event_max st) p1)).
    { intros p Hinv Hp'. destruct (inv_push _ _ _ _ Hinv Hp') as [Hinv1 Hc1].
      assert (Hpop : pop_ok (cuda_event_max st) p1 (bump_used (cuda_event_max st) p1)).
      { split; [|done]. destruct Hp' as [_ ->]. simpl.
        pose proof (pool_inv_bound _ _ Hinv). lia. }
      destruct (inv_pop _ _ _ Hinv1 Hpop) as [? Hc2]. split; [done|].
      by rewrite <- Hc1, Hc2. }
    rewrite Hq. split_and!; try done.
    + intros Hinv. by destruct (Hpush _ Hinv Hp).
    + intros Hinv Hidle _. destruct (Hpush _ Hinv Hp) as [_ Hc].
      rewrite contents_empty in Hc by auto. simpl in Hc.
      injection Hc as _ <-. split.
      { rewrite (contents_empty _ (pool IPC st)) by auto. done. }
      intros _ _. destruct Hp as [_ ->]. cbn [num_used bump_used bump_avail].
      specialize (Hidle eq_refl Ha). lia.
    + intros [?|?]; done.
Qed.

Lemma step_step_ok d cuFunc c st o st' :
  step cuFunc c st = Some (o, st') -> step_ok d st o st'.
Proof.
  destruct c as [fuel dst src amt frag|frag|frag|d' frag0]; simpl; intros H.
  - destruct mca_common_cuda_memcpy as [[[rc done] st1]|] eqn:E; simplify_eq.
    by eapply step_ok_memcpy.
  - destruct mca_common_cuda_record_dtoh_event as [rc st1] eqn:E; simplify_eq.
    by eapply step_ok_record.
  - destruct mca_common_cuda_record_htod_event as [rc st1] eqn:E; simplify_eq.
    by eapply step_ok_record.
  - assert (E : exists rc frag,
        progress_one d' cuFunc frag0 st = (rc, frag, st') /\ o = Polled d' rc frag).
    { destruct d'; unfold progress_one_cuda_ipc_event, progress_one_cuda_dtoh_event,
        progress_one_cuda_htod_event in H;
        destruct progress_one as [[rc frag] st1]; simplify_eq; eauto. }
    destruct E as (rc & frag & E & ->). by eapply step_ok_progress.
Qed.

(** ** Runs *)

Lemma run_inv d cs st :
  pool_inv (cuda_event_max st) (pool d st) ->
  Forall (fun x => cuda_event_max (snd x) = cuda_event_max st /\
                   pool_inv (cuda_event_max st) (pool d (snd x))) (run cs st).
Proof.
  revert st. induction cs as [|[cuFunc c] cs IH]; intros st Hinv; simpl; [constructor|].
  destruct (step cuFunc c st) as [[o st']|] eqn:E; [|constructor].
  destruct (step_step_ok d _ _ _ _ _ E) as (Hmax & _ & Hpres & _).
  constructor; simpl; [by auto|].
  specialize (IH st'). rewrite Hmax in IH. apply IH. auto.
Qed.

Lemma run_fifo d cs st :
  pool_inv (cuda_event_max st) (pool d st) -> sync_idle d st ->
  Forall (fun x => record_succeeded (fst x)) (run cs st) ->
  polled d (run cs st) ++ contents (cuda_event_max st) (pool d (final st (run cs st)))
    = contents (cuda_event_max st) (pool d st) ++ deferred d (run cs st) /\
  (mca_common_cuda_async st <> 0 \/ d <> IPC ->
   deferred d (run cs st) = recorded d (run cs st)) /\
  (d = IPC -> mca_common_cuda_async st = 0 -> polled d (run cs st) = []).
Proof.
  revert st. induction cs as [|[cuFunc c] cs IH]; intros st Hinv Hidle Hsucc; simpl.
  { split_and!; try done. by rewrite app_nil_r. }
  simpl in Hsucc.
  destruct (step cuFunc c st) as [[o st']|] eqn:E.
  2: { split_and!; try done. by rewrite app_nil_r. }
  apply Forall_cons_1 in Hsucc as [Ho Hsucc]. simpl in Ho.
  destruct (step_step_ok d _ _ _ _ _ E) as (Hmax & Has & Hpres & Hfifo & Hdef & Hpol).
  destruct (Hfifo Hinv Hidle Ho) as [Heq Hidle'].
  specialize (IH st'). rewrite Hmax, Has in IH.
  destruct (IH (Hpres Hinv) Hidle' Hsucc) as (IH1 & IH2 & IH3).
  unfold polled, deferred, recorded in *. simpl.
  split_and!.
  - rewrite <- !app_assoc, IH1, !app_assoc. by rewrite Heq.
  - intros H. by rewrite Hdef, IH2.
  - intros Hd Ha. rewrite IH3 by done.
    rewrite Hpol; [done..|]. subst d. by apply Hidle.
Qed.

(** C1.  From freshly initialized pools of capacity [cuda_event_max >= 0],
    along every sequence of record and poll calls (whatever the driver
    answers), [num_used] of each direction stays at most [cuda_event_max];
    and when the record calls of the sequence are successful, the
    descriptors handed back by the polls of a direction are, in order, a
    prefix of the descriptors recorded for it, the rest being exactly the
    slots still in use (copies completed inside a synchronous record call
    apart). *)
Theorem event_pool_bounded_fifo (d : direction)
    (cs : list (cudaFunctionTable * call)) (st : cuda_state) :
  0 <= cuda_event_max st ->
  pool_fresh (cuda_event_max st) (pool d st) ->
  Forall (fun x => cuda_event_max (snd x) = cuda_event_max st /\
                   0 <= num_used (pool d (snd x)) <= cuda_event_max st)
         (run cs st) /\
  (Forall (fun x => record_succeeded (fst x)) (run cs st) ->
   polled d (run cs st) `prefix_of` recorded d (run cs st) /\
   polled d (run cs st)
     ++ contents (cuda_event_max st) (pool d (final st (run cs st)))
   = deferred d (run cs st)).
Proof.
  intros Hmax Hfresh.
  assert (Hinv := pool_fresh_inv _ _ Hmax Hfresh).
  split.
  - eapply Forall_impl; [|exact (run_inv d cs st Hinv)].
    intros x [? ?%pool_inv_bound]. done.
  - intros Hsucc.
    assert (Hidle : sync_idle d st).
    { intros -> _. by destruct Hfresh as (_ & ? & _). }
    destruct (run_fifo d cs st Hinv Hidle Hsucc) as (H1 & H2 & H3).
    rewrite (contents_empty _ (pool d st)) in H1 by (by destruct Hfresh as (_ & ? & _)).
    simpl in H1. split; [|done].
    destruct (decide (mca_common_cuda_async st <> 0 \/ d <> IPC)) as [Hc|Hc].
    + rewrite <- H2 by done. rewrite <- H1. by apply prefix_app_r.
    + rewrite H3; [apply prefix_nil|..].
      * destruct (decide (d = IPC)); [done|]. exfalso; auto.
      * destruct (decide (mca_common_cuda_async st = 0)); [done|]. exfalso; auto.
Qed.

Example run_wrap :
  map fst (run cs_wrap st_cap2) =
  [Recorded DTOH 11 OMPI_SUCCESS None; Recorded DTOH 12 OMPI_SUCCESS None;
   Polled DTOH 1 11; Recorded DTOH 13 OMPI_SUCCESS None;
   Polled DTOH 1 12; Polled DTOH 1 13].
Proof. reflexivity. Qed.

Lemma event_pool_bounded_fifo_witness :
  Forall (fun x => cuda_event_max (snd x) = cuda_event_max st_cap2 /\
                   0 <= num_used (pool DTOH (snd x)) <= cuda_event_max st_cap2)
         (run cs_wrap st_cap2) /\
  (Forall (fun x => record_succeeded (fst x)) (run cs_wrap st_cap2) ->
   polled DTOH (run cs_wrap st_cap2) `prefix_of` recorded DTOH (run cs_wrap st_cap2) /\
   polled DTOH (run cs_wrap st_cap2)
     ++ contents (cuda_event_max st_cap2)
          (pool DTOH (final st_cap2 (run cs_wrap st_cap2)))
   = deferred DTOH (run cs_wrap st_cap2)).
Proof.
  apply (event_pool_bounded_fifo DTOH cs_wrap st_cap2).
  - vm_compute. discriminate.
  - vm_compute. auto.
Defined.

(** A synchronous copy: the event is stored, waited for with three queries
    and released before the call returns; with too few iterations looked at
    the call has not returned yet. *)
Example synchronous_copy :
  (exists st',
     mca_common_cuda_memcpy 5 cuFunc_slow 4096 8192 64 77 st_cap2_sync
       = Some (OMPI_SUCCESS, Some 1, st') /\
     cuda_event_ipc st' = mk_pool [100; 101] [77; NULL] 1 1 0 /\
     driver_log st' = [MemcpyAsync 4096 8192 64 500; EventRecord 100 500;
                       EventQuery 100; EventQuery 100; EventQuery 100]) /\
  mca_common_cuda_memcpy 1 cuFunc_slow 4096 8192 64 77 st_cap2_sync = None.
Proof. split; [eexists; split_and!|]; reflexivity. Qed.

(** ** Single calls *)

(** C6.  Each of the three record calls returns
    [OMPI_ERR_OUT_OF_RESOURCE] exactly when [num_used] of its pool equals
    [cuda_event_max]; the call then returns to its caller with that code and
    leaves the whole state, hence [num_used], [first_avail] and [first_used]
    of every pool, as it was. *)
Theorem record_out_of_resource_iff_full (cuFunc : cudaFunctionTable)
    (fuel : nat) (dst src amt frag : Z) (st : cuda_state) :
  (fst (mca_common_cuda_record_dtoh_event cuFunc frag st) = OMPI_ERR_OUT_OF_RESOURCE
   <-> num_used (cuda_event_dtoh st) = cuda_event_max st) /\
  (fst (mca_common_cuda_record_htod_event cuFunc frag st) = OMPI_ERR_OUT_OF_RESOURCE
   <-> num_used (cuda_event_htod st) = cuda_event_max st) /\
  ((exists done st',
      mca_common_cuda_memcpy fuel cuFunc dst src amt frag st
      = Some (OMPI_ERR_OUT_OF_RESOURCE, done, st'))
   <-> num_used (cuda_event_ipc st) = cuda_event_max st) /\
  (num_used (cuda_event_dtoh st) = cuda_event_max st ->
   mca_common_cuda_record_dtoh_event cuFunc frag st = (OMPI_ERR_OUT_OF_RESOURCE, st)) /\
  (num_used (cuda_event_htod st) = cuda_event_max st ->
   mca_common_cuda_record_htod_event cuFunc frag st = (OMPI_ERR_OUT_OF_RESOURCE, st)) /\
  (num_used (cuda_event_ipc st) = cuda_event_max st ->
   mca_common_cuda_memcpy fuel cuFunc dst src amt frag st
   = Some (OMPI_ERR_OUT_OF_RESOURCE, None, st)).
Proof.
  unfold mca_common_cuda_record_dtoh_event, mca_common_cuda_record_htod_event,
    record_event, mca_common_cuda_memcpy. cbn [pool].
  split_and!.
  - split; intros H.
    + revert H. repeat case_match; zbool; simpl; try done; discriminate.
    + apply Z.eqb_eq in H. by rewrite H.
  - split; intros H.
    + revert H. repeat case_match; zbool; simpl; try done; discriminate.
    + apply Z.eqb_eq in H. by rewrite H.
  - split.
    + intros (done & st' & H). revert H.
      repeat case_match; zbool; intros; simplify_eq; done.
    + intros H. apply Z.eqb_eq in H. rewrite H. eauto.
  - intros H. apply Z.eqb_eq in H. by rewrite H.
  - intros H. apply Z.eqb_eq in H. by rewrite H.
  - intros H. apply Z.eqb_eq in H. by rewrite H.
Qed.

Example record_on_full_pool :
  num_used (cuda_event_dtoh st_full) = cuda_event_max st_full /\
  mca_common_cuda_record_dtoh_event cuFunc_ok 13 st_full
  = (OMPI_ERR_OUT_OF_RESOURCE, st_full).
Proof. split; reflexivity. Qed.

Lemma progress_one_idle d cuFunc frag0 st :
  num_used (pool d st) <= 0 -> progress_one d cuFunc frag0 st = (0, frag0, st).
Proof.
  intros H. unfold progress_one.
  destruct (num_used (pool d st) >? 0) eqn:E; zbool; [lia|done].
Qed.

Lemma progress_one_not_ready d cuFunc frag0 st :
  0 < num_used (pool d st) ->
  cuEventQuery cuFunc 0%nat (head_event d st) = CUDA_ERROR_NOT_READY ->
  progress_one d cuFunc frag0 st = (0, NULL, log (EventQuery (head_event d st)) st).
Proof.
  intros Hn Hq. unfold progress_one, head_event in *.
  destruct (num_used (pool d st) >? 0) eqn:E; zbool; [|lia]. by rewrite Hq.
Qed.

Lemma progress_one_success d cuFunc frag0 st :
  0 < num_used (pool d st) ->
  cuEventQuery cuFunc 0%nat (head_event d st) = CUDA_SUCCESS ->
  progress_one d cuFunc frag0 st =
  (1, aget (frag_array (pool d st)) (first_used (pool d st)),
   set_pool d (bump_used (cuda_event_max st) (pool d st))
     (log (EventQuery (head_event d st)) st)).
Proof.
  intros Hn Hq. unfold progress_one, head_event in *.
  destruct (num_used (pool d st) >? 0) eqn:E; zbool; [|lia]. by rewrite Hq.
Qed.

Lemma progress_one_hard_error d cuFunc frag0 st :
  0 < num_used (pool d st) ->
  hard_error (cuEventQuery cuFunc 0%nat (head_event d st)) ->
  progress_one d cuFunc frag0 st =
  (OMPI_ERROR, NULL, log (EventQuery (head_event d st)) st).
Proof.
  intros Hn [H1 H2]. unfold progress_one, head_event in *.
  destruct (num_used (pool d st) >? 0) eqn:E; zbool; [|lia].
  by destruct (cuEventQuery cuFunc 0%nat _).
Qed.

(** C5 as stated fails: a poll that finds the head event completed advances
    [first_used] only; [first_avail] keeps its value. *)
Lemma poll_keeps_first_avail :
  let '(rc, frag, st') := progress_one_cuda_dtoh_event cuFunc_ok NULL st_one in
  rc = 1 /\ frag = 11 /\
  first_used (cuda_event_dtoh st_one) = 0 /\
  first_used (cuda_event_dtoh st') = 1 /\
  first_avail (cuda_event_dtoh st_one) = 1 /\
  first_avail (cuda_event_dtoh st') = 1 /\
  first_avail (cuda_event_dtoh st')
    <> (first_avail (cuda_event_dtoh st_one) + 1) mod cuda_event_max st_one.
Proof. vm_compute. split_and!; try done. Qed.

(** C5, amended.  A poll is one pass without a loop: it makes at most one
    driver call, a query of the event in slot [first_used], and its result
    is the same under any two drivers that agree on that event.  With a slot
    in use: when the head event is not ready the poll returns 0 with
    [*frag = NULL] and changes no pool; when it has completed the poll
    returns 1 with the descriptor of the head slot, decrements [num_used]
    and advances [first_used] by one modulo [cuda_event_max], leaving
    [first_avail], the arrays and the other pools as they were. *)
Theorem progress_one_inspects_head (d : direction) (cuFunc : cudaFunctionTable)
    (frag0 : Z) (st : cuda_state) :
  0 < num_used (pool d st) ->
  0 <= first_used (pool d st) < cuda_event_max st ->
  let '(rc, frag, st') := progress_one d cuFunc frag0 st in
  driver_log st' = driver_log st ++ [EventQuery (head_event d st)] /\
  (forall cuFunc',
     cuEventQuery cuFunc' 0%nat (head_event d st)
     = cuEventQuery cuFunc 0%nat (head_event d st) ->
     progress_one d cuFunc' frag0 st = (rc, frag, st')) /\
  (forall d', d' <> d -> pool d' st' = pool d' st) /\
  (cuEventQuery cuFunc 0%nat (head_event d st) = CUDA_ERROR_NOT_READY ->
   rc = 0 /\ frag = NULL /\ pool d st' = pool d st) /\
  (cuEventQuery cuFunc 0%nat (head_event d st) = CUDA_SUCCESS ->
   rc = 1 /\
   frag = aget (frag_array (pool d st)) (first_used (pool d st)) /\
   num_used (pool d st') = num_used (pool d st) - 1 /\
   first_used (pool d st') = (first_used (pool d st) + 1) mod cuda_event_max st /\
   first_avail (pool d st') = first_avail (pool d st) /\
   event_array (pool d st') = event_array (pool d st) /\
   frag_array (pool d st') = frag_array (pool d st)).
Proof.
  intros Hn Hfu.
  destruct (cuEventQuery cuFunc 0%nat (head_event d st)) eqn:Hq.
  - rewrite (progress_one_success _ _ _ _ Hn Hq).
    split_and!; try done.
    + intros cuFunc' Hq'. by rewrite (progress_one_success _ _ _ _ Hn Hq').
    + intros d' Hd'. rewrite pool_set_pool, pool_log. by rewrite decide_False.
    + intros _. rewrite pool_set_pool_eq. cbn [bump_used num_used first_used
        first_avail event_array frag_array]. split_and!; try done.
      destruct (first_used (pool d st) + 1 >=? cuda_event_max st) eqn:E; zbool.
      * replace (first_used (pool d st) + 1) with (cuda_event_max st) by lia.
        by rewrite Z.mod_same by lia.
      * by rewrite Z.mod_small by lia.
  - rewrite (progress_one_not_ready _ _ _ _ Hn Hq).
    split_and!; try done.
    all: try (intros cuFunc' Hq'; by rewrite (progress_one_not_ready _ _ _ _ Hn Hq')).
    all: try (intros d' Hd'; by rewrite pool_log).
    all: try (intros _; by rewrite pool_log).
  - assert (Hh : hard_error (cuEventQuery cuFunc 0%nat (head_event d st)))
      by (by rewrite Hq).
    rewrite (progress_one_hard_error _ _ _ _ Hn Hh).
    split_and!; try done.
    all: try (intros cuFunc' Hq'; apply progress_one_hard_error; [done|];
              rewrite Hq'; by split).
    all: try (intros d' Hd'; by rewrite pool_log).
  - assert (Hh : hard_error (cuEventQuery cuFunc 0%nat (head_event d st)))
      by (by rewrite Hq).
    rewrite (progress_one_hard_error _ _ _ _ Hn Hh).
    split_and!; try done.
    all: try (intros cuFunc' Hq'; apply progress_one_hard_error; [done|];
              rewrite Hq'; by split).
    all: try (intros d' Hd'; by rewrite pool_log).
Qed.

Lemma progress_one_inspects_head_witness :
  let '(rc, frag, st') := progress_one DTOH cuFunc_ok NULL st_one in
  driver_log st' = driver_log st_one ++ [EventQuery (head_event DTOH st_one)] /\
  (forall cuFunc',
     cuEventQuery cuFunc' 0%nat (head_event DTOH st_one)
     = cuEventQuery cuFunc_ok 0%nat (head_event DTOH st_one) ->
     progress_one DTOH cuFunc' NULL st_one = (rc, frag, st')) /\
  (forall d', d' <> DTOH -> pool d' st' = pool d' st_one) /\
  (cuEventQuery cuFunc_ok 0%nat (head_event DTOH st_one) = CUDA_ERROR_NOT_READY ->
   rc = 0 /\ frag = NULL /\ pool DTOH st' = pool DTOH st_one) /\
  (cuEventQuery cuFunc_ok 0%nat (head_event DTOH st_one) = CUDA_SUCCESS ->
   rc = 1 /\
   frag = aget (frag_array (pool DTOH st_one)) (first_used (pool DTOH st_one)) /\
   num_used (pool DTOH st') = num_used (pool DTOH st_one) - 1 /\
   first_used (pool DTOH st')
     = (first_used (pool DTOH st_one) + 1) mod cuda_event_max st_one /\
   first_avail (pool DTOH st') = first_avail (pool DTOH st_one) /\
   event_array (pool DTOH st') = event_array (pool DTOH st_one) /\
   frag_array (pool DTOH st') = frag_array (pool DTOH st_one)).
Proof.
  apply (progress_one_inspects_head DTOH cuFunc_ok NULL st_one).
  - vm_compute. reflexivity.
  - vm_compute. split; [discriminate|reflexivity].
Defined.

(** C9 as stated fails: after a poll that met a hard error, a later poll
    whose query of the same head event succeeds hands the descriptor back
    and frees the slot. *)
Lemma poll_error_is_not_final :
  let '(rc1, frag1, st1) :=
    progress_one_cuda_dtoh_event (cuFunc_query_error 700) NULL st_one in
  let '(rc2, frag2, st2) := progress_one_cuda_dtoh_event cuFunc_ok frag1 st1 in
  rc1 = OMPI_ERROR /\ frag1 = NULL /\
  cuda_event_dtoh st1 = cuda_event_dtoh st_one /\
  num_used (cuda_event_dtoh st1) = 1 /\
  rc2 = 1 /\ rc2 <> OMPI_ERROR /\ frag2 = 11 /\
  num_used (cuda_event_dtoh st2) = 0.
Proof. vm_compute. split_and!; try done. Qed.

Lemma polls_hard_error d fs frag0 st :
  0 < num_used (pool d st) ->
  Forall (fun cuFunc => hard_error (cuEventQuery cuFunc 0%nat (head_event d st))) fs ->
  fst (polls d fs frag0 st) = replicate (length fs) (OMPI_ERROR, NULL) /\
  (forall d', pool d' (snd (polls d fs frag0 st)) = pool d' st).
Proof.
  intros Hn Hfs. revert frag0 st Hn Hfs.
  induction fs as [|cuFunc fs IH]; intros frag0 st Hn Hfs; simpl; [done|].
  apply Forall_cons_1 in Hfs as [Hh Hfs].
  rewrite (progress_one_hard_error _ _ _ _ Hn Hh).
  set (st1 := log (EventQuery (head_event d st)) st).
  assert (Hp : forall d', pool d' st1 = pool d' st) by (intros; apply pool_log).
  assert (Hhead : head_event d st1 = head_event d st)
    by (unfold head_event; by rewrite Hp).
  destruct (polls d fs NULL st1) as [rs st2] eqn:E.
  specialize (IH NULL st1). rewrite E, Hhead, Hp in IH.
  destruct (IH Hn Hfs) as [IH1 IH2]. simpl in *.
  split; [by rewrite IH1|]. intros d'. by rewrite IH2.
Qed.

(** C9, amended.  When the query of the head event reports a hard error the
    poll returns [OMPI_ERROR] with [*frag = NULL] and changes no pool
    ([num_used], [first_used], [first_avail] and the arrays keep their
    values); every further poll of that pool returns the same for as long as
    the query of the head event keeps reporting a hard error. *)
Theorem poll_hard_error_keeps_slot (d : direction) (cuFunc : cudaFunctionTable)
    (fs : list cudaFunctionTable) (frag0 : Z) (st : cuda_state) :
  0 < num_used (pool d st) ->
  hard_error (cuEventQuery cuFunc 0%nat (head_event d st)) ->
  Forall (fun cuFunc' => hard_error (cuEventQuery cuFunc' 0%nat (head_event d st))) fs ->
  let '(rc, frag, st1) := progress_one d cuFunc frag0 st in
  rc = OMPI_ERROR /\ frag = NULL /\
  (forall d', pool d' st1 = pool d' st) /\
  fst (polls d fs frag st1) = replicate (length fs) (OMPI_ERROR, NULL) /\
  (forall d', pool d' (snd (polls d fs frag st1)) = pool d' st).
Proof.
  intros Hn Hh Hfs.
  rewrite (progress_one_hard_error _ _ _ _ Hn Hh).
  set (st1 := log (EventQuery (head_event d st)) st).
  assert (Hp : forall d', pool d' st1 = pool d' st) by (intros; apply pool_log).
  assert (Hhead : head_event d st1 = head_event d st)
    by (unfold head_event; by rewrite Hp).
  split_and!; try done.
  - apply polls_hard_error; [by rewrite Hp | by rewrite Hhead].
  - intros d'. rewrite <- (Hp d'). apply polls_hard_error;
      [by rewrite Hp | by rewrite Hhead].
Qed.

Lemma poll_hard_error_keeps_slot_witness :
  let '(rc, frag, st1) :=
    progress_one DTOH (cuFunc_query_error 700) NULL st_one in
  rc = OMPI_ERROR /\ frag = NULL /\
  (forall d', pool d' st1 = pool d' st_one) /\
  fst (polls DTOH [cuFunc_query_error 700; cuFunc_query_error 4] frag st1)
    = replicate 2 (OMPI_ERROR, NULL) /\
  (forall d', pool d'
     (snd (polls DTOH [cuFunc_query_error 700; cuFunc_query_error 4] frag st1))
     = pool d' st_one).
Proof.
  apply (poll_hard_error_keeps_slot DTOH (cuFunc_query_error 700)
           [cuFunc_query_error 700; cuFunc_query_error 4] NULL st_one).
  - vm_compute. reflexivity.
  - split; discriminate.
  - repeat constructor; discriminate.
Defined.

(** ** Deferred registrations *)

Lemma release_registrations_spec l st :
  common_cuda_memory_registrations st = l ->
  release_registrations (length l) st = released l st.
Proof.
  revert st. induction l as [|r l IH]; intros st Hl; simpl.
  - destruct st; simpl in *; subst. unfold released; simpl. by rewrite app_nil_r.
  - rewrite Hl. rewrite IH by done.
    unfold released, log, set_registrations; simpl.
    by rewrite <- app_assoc.
Qed.

Lemma host_unregistrations_app l1 l2 :
  host_unregistrations (l1 ++ l2) = host_unregistrations l1 ++ host_unregistrations l2.
Proof. unfold host_unregistrations. by rewrite map_app, concat_app. Qed.

Lemma host_unregistrations_free l : host_unregistrations (map Free l) = [].
Proof. induction l; [done|]. simpl. done. Qed.

(** C10.  Called before the initialization, [mca_common_cuda_unregister]
    removes and frees every queued registration, whatever pointer it is
    given, leaves the queue empty and makes no driver call. *)
Theorem unregister_before_init_clears_queue (cuFunc : cudaFunctionTable)
    (p : Z) (m : string) (st : cuda_state) :
  common_cuda_initialized st = false ->
  mca_common_cuda_unregister cuFunc p m st
    = released (common_cuda_memory_registrations st) st /\
  common_cuda_memory_registrations (mca_common_cuda_unregister cuFunc p m st) = [] /\
  driver_log (mca_common_cuda_unregister cuFunc p m st)
    = driver_log st ++ map Free (common_cuda_memory_registrations st) /\
  host_unregistrations (driver_log (mca_common_cuda_unregister cuFunc p m st))
    = host_unregistrations (driver_log st) /\
  (forall p' m',
     mca_common_cuda_unregister cuFunc p' m' st
     = mca_common_cuda_unregister cuFunc p m st).
Proof.
  intros Hinit.
  assert (H : forall p m, mca_common_cuda_unregister cuFunc p m st
                = released (common_cuda_memory_registrations st) st).
  { intros p0 m0. unfold mca_common_cuda_unregister. rewrite Hinit. simpl.
    by apply release_registrations_spec. }
  rewrite !H. split_and!; try done.
  all: try (simpl; by rewrite host_unregistrations_app,
                              host_unregistrations_free, app_nil_r).
Qed.

Lemma unregister_before_init_clears_queue_witness :
  let st := register_all cuFunc_ok reqs_twice st_boot in
  mca_common_cuda_unregister cuFunc_ok 8192 "other" st
    = released (common_cuda_memory_registrations st) st /\
  common_cuda_memory_registrations
    (mca_common_cuda_unregister cuFunc_ok 8192 "other" st) = [] /\
  driver_log (mca_common_cuda_unregister cuFunc_ok 8192 "other" st)
    = driver_log st ++ map Free (common_cuda_memory_registrations st) /\
  host_unregistrations
    (driver_log (mca_common_cuda_unregister cuFunc_ok 8192 "other" st))
    = host_unregistrations (driver_log st) /\
  (forall p' m',
     mca_common_cuda_unregister cuFunc_ok p' m' st
     = mca_common_cuda_unregister cuFunc_ok 8192 "other" st).
Proof.
  apply (unregister_before_init_clears_queue cuFunc_ok 8192 "other"
           (register_all cuFunc_ok reqs_twice st_boot)).
  reflexivity.
Defined.

Example unregister_other_pointer :
  let st := register_all cuFunc_ok reqs_twice st_boot in
  length (common_cuda_memory_registrations st) = 2%nat /\
  driver_log (mca_common_cuda_unregister cuFunc_ok 8192 "other" st)
  = [Free (mk_reg 4096 64 "sm"); Free (mk_reg 4096 64 "sm")].
Proof. split; reflexivity. Qed.

Lemma same_queue_refl st : same_queue st st.
Proof. by repeat split. Qed.

Lemma same_queue_trans st1 st2 st3 :
  same_queue st1 st2 -> same_queue st2 st3 -> same_queue st1 st3.
Proof. intros (?&?&?&?) (?&?&?&?). repeat split; congruence. Qed.

Lemma host_registrations_app l1 l2 :
  host_registrations (l1 ++ l2) = host_registrations l1 ++ host_registrations l2.
Proof. unfold host_registrations. by rewrite map_app, concat_app. Qed.

Lemma same_queue_log c st :
  host_registrations [c] = [] -> same_queue st (log c st).
Proof.
  intros H. repeat split; simpl.
  by rewrite host_registrations_app, H, app_nil_r.
Qed.

Lemma same_queue_set_pool d p st : same_queue st (set_pool d p st).
Proof. by repeat split. Qed.

Lemma same_queue_set_stream d s st : same_queue st (set_stream d s st).
Proof. by repeat split. Qed.

Lemma create_events_same cuFunc base n i arr st ok arr' st' :
  create_events cuFunc base n i arr st = (ok, arr', st') -> same_queue st st'.
Proof.
  revert i arr st. induction n as [|n IH]; intros i arr st H; simpl in H.
  - simplify_eq. apply same_queue_refl.
  - destruct (cuEventCreate cuFunc (base + i)) as [[] ev]; simplify_eq;
      try (by apply same_queue_log).
    eapply same_queue_trans; [|by eapply IH]. by apply same_queue_log.
Qed.

Lemma setup_pool_same d env cuFunc k st ok st' :
  setup_pool d env cuFunc k st = (ok, st') -> same_queue st st'.
Proof.
  unfold setup_pool. intros H.
  destruct (malloc_ok env (2 * k)); simpl in H;
    [|simplify_eq; apply same_queue_set_pool].
  destruct create_events as [[ok1 arr] st2] eqn:E.
  apply create_events_same in E.
  assert (same_queue st st2).
  { eapply same_queue_trans; [apply same_queue_set_pool|done]. }
  repeat case_match; simplify_eq;
    repeat (eapply same_queue_trans; [|apply same_queue_set_pool]); done.
Qed.

Lemma create_stream_same d cuFunc k st ok st' :
  create_stream d cuFunc k st = (ok, st') -> same_queue st st'.
Proof.
  unfold create_stream. intros H.
  destruct (cuStreamCreate cuFunc k) as [[] s]; simplify_eq;
    try (by apply same_queue_log).
  all: eapply same_queue_trans; [by apply same_queue_log|apply same_queue_set_stream].
Qed.

(** The drain loop hands every queued request to the driver, in queue
    order, without looking at the others. *)
Lemma drain_registrations_spec l st :
  common_cuda_memory_registrations st = l ->
  let st' := drain_registrations (length l) st in
  common_cuda_memory_registrations st' = [] /\
  host_registrations (driver_log st') =
    host_registrations (driver_log st) ++
    (if mca_common_cuda_enabled st && mca_common_cuda_register_memory st
     then map (fun r => (ptr r, amount r)) l else []) /\
  mca_common_cuda_enabled st' = mca_common_cuda_enabled st /\
  mca_common_cuda_register_memory st' = mca_common_cuda_register_memory st.
Proof.
  revert st. induction l as [|r l IH]; intros st Hl; simpl.
  - split_and!; try done. case_match; by rewrite app_nil_r.
  - rewrite Hl.
    match goal with |- context [drain_registrations _ ?s] => set (st1 := s) end.
    destruct (IH st1) as (H1 & H2 & H3 & H4).
    { subst st1. by case_match. }
    rewrite H1, H2, H3, H4. subst st1.
    destruct (mca_common_cuda_enabled st && mca_common_cuda_register_memory st) eqn:E;
      simpl; rewrite E; simpl; split_and!; try done;
      rewrite !host_registrations_app; simpl; rewrite ?app_nil_r, <- ?app_assoc; done.
Qed.

Lemma queue_of_init env cuFunc st st' :
  common_cuda_initialized st = false ->
  mca_common_cuda_init env cuFunc st = (OMPI_SUCCESS, st') ->
  common_cuda_memory_registrations st' = [] /\
  host_registrations (driver_log st') =
    host_registrations (driver_log st) ++
    (if mca_common_cuda_register_memory st'
     then map (fun r => (ptr r, amount r)) (common_cuda_memory_registrations st)
     else []).
Proof.
  intros Hinit. unfold mca_common_cuda_init. rewrite Hinit.
  destruct (ompi_mpi_cuda_support st); simpl; [|discriminate].
  set (st0 := mca_common_cuda_register_mca_variables (mca env) st).
  assert (H0 : common_cuda_memory_registrations st0 = common_cuda_memory_registrations st
               /\ driver_log st0 = driver_log st).
  { subst st0. unfold mca_common_cuda_register_mca_variables. by case_match. }
  destruct H0 as [Hq0 Hl0].
  destruct (load_libcuda env =? 0); simpl; [|discriminate].
  destruct (cuCtxGetCurrent cuFunc) as [res cuContext].
  match goal with |- context [mca_common_cuda_enabled ?s] => set (st1 := s) end.
  assert (H1 : common_cuda_memory_registrations st1 = common_cuda_memory_registrations st0
               /\ driver_log st1 = driver_log st0).
  { subst st1. by repeat case_match. }
  destruct H1 as [Hq1 Hl1].
  destruct (mca_common_cuda_enabled st1) eqn:Hen; simpl; [|discriminate].
  destruct (setup_pool IPC env cuFunc 0 st1) as [[] st2] eqn:E2; [|discriminate].
  destruct (setup_pool DTOH env cuFunc 1 st2) as [[] st3] eqn:E3; [|discriminate].
  destruct (setup_pool HTOD env cuFunc 2 st3) as [[] st4] eqn:E4; [|discriminate].
  apply setup_pool_same in E2, E3, E4.
  pose proof (same_queue_trans _ _ _ (same_queue_trans _ _ _ E2 E3) E4)
    as (Hq4 & Hh4 & Hen4 & Hrm4).
  pose proof (drain_registrations_spec _ st4 eq_refl) as (D1 & D2 & D3 & D4).
  set (st5 := drain_registrations (length (common_cuda_memory_registrations st4)) st4) in *.
  destruct (create_stream IPC cuFunc 0 st5) as [[] st6] eqn:E6; [|discriminate].
  destruct (create_stream DTOH cuFunc 1 st6) as [[] st7] eqn:E7; [|discriminate].
  destruct (create_stream HTOD cuFunc 2 st7) as [[] st8] eqn:E8; [|discriminate].
  apply create_stream_same in E6, E7, E8.
  pose proof (same_queue_trans _ _ _ (same_queue_trans _ _ _ E6 E7) E8)
    as (Hq8 & Hh8 & Hen8 & Hrm8).
  intros [= <-]. simpl.
  rewrite Hq8, Hh8, Hrm8, D1, D2, D4, Hen4, Hen, Hq4, Hh4, Hl1, Hl0, Hq1, Hq0.
  done.
Qed.

Lemma register_before_init cuFunc p n m st :
  common_cuda_initialized st = false ->
  (common_cuda_init_function_added st = false ->
   common_cuda_memory_registrations st = []) ->
  let st' := mca_common_cuda_register cuFunc p n m st in
  common_cuda_initialized st' = false /\
  common_cuda_init_function_added st' = true /\
  common_cuda_memory_registrations st' =
    common_cuda_memory_registrations st ++ [mk_reg p n m] /\
  driver_log st' = driver_log st.
Proof.
  intros Hinit Hq. unfold mca_common_cuda_register. rewrite Hinit. simpl.
  destruct (common_cuda_init_function_added st) eqn:E; simpl; split_and!; try done.
  by rewrite Hq.
Qed.

Lemma register_all_before_init cuFunc reqs st :
  common_cuda_initialized st = false ->
  (common_cuda_init_function_added st = false ->
   common_cuda_memory_registrations st = []) ->
  let st' := register_all cuFunc reqs st in
  common_cuda_initialized st' = false /\
  common_cuda_memory_registrations st' =
    common_cuda_memory_registrations st
    ++ map (fun r => mk_reg r.1.1 r.1.2 r.2) reqs /\
  driver_log st' = driver_log st.
Proof.
  revert st. induction reqs as [|[[p n] m] reqs IH]; intros st Hinit Hq; simpl.
  { split_and!; try done. by rewrite app_nil_r. }
  destruct (register_before_init cuFunc p n m st Hinit Hq) as (R1 & R2 & R3 & R4).
  destruct (IH (mca_common_cuda_register cuFunc p n m st) R1) as (I1 & I2 & I3).
  { rewrite R2. discriminate. }
  unfold register_all in *. simpl in *.
  rewrite I1, I2, I3, R3, R4, <- app_assoc. done.
Qed.

(** C4 as stated fails: two requests for the same region before the
    initialization stay two entries of the queue, and the initialization
    hands the region to [cuMemHostRegister] twice. *)
Lemma duplicate_requests_registered_twice :
  let st1 := register_all cuFunc_ok reqs_twice st_boot in
  let '(rc, st2) := mca_common_cuda_init env_ok cuFunc_ok st1 in
  common_cuda_memory_registrations st1
    = [mk_reg 4096 64 "sm"; mk_reg 4096 64 "sm"] /\
  rc = OMPI_SUCCESS /\
  host_registrations (driver_log st2) = [(4096, 64); (4096, 64)] /\
  host_registrations (driver_log st2) <> [(4096, 64)].
Proof. vm_compute. split_and!; try done. Qed.

(** C4, amended.  Every registration request made before the
    initialization is appended to the pending queue as an entry of its own
    (requests for the same region are not merged).  An initialization that
    completes empties the queue and, when registration of memory is enabled,
    has called [cuMemHostRegister] once per queued request, in request
    order; a region requested k times is registered k times. *)
Theorem queued_requests_registered_one_by_one (env : init_env)
    (cuFunc : cudaFunctionTable) (reqs : list (Z * Z * string))
    (st st' : cuda_state) :
  common_cuda_initialized st = false ->
  (common_cuda_init_function_added st = false ->
   common_cuda_memory_registrations st = []) ->
  mca_common_cuda_init env cuFunc (register_all cuFunc reqs st) = (OMPI_SUCCESS, st') ->
  common_cuda_memory_registrations (register_all cuFunc reqs st)
    = common_cuda_memory_registrations st
      ++ map (fun r => mk_reg r.1.1 r.1.2 r.2) reqs /\
  common_cuda_memory_registrations st' = [] /\
  host_registrations (driver_log st')
    = host_registrations (driver_log st)
      ++ (if mca_common_cuda_register_memory st'
          then map (fun r => (ptr r, amount r)) (common_cuda_memory_registrations st)
               ++ map (fun r => (r.1.1, r.1.2)) reqs
          else []).
Proof.
  intros Hinit Hq Hrun.
  destruct (register_all_before_init cuFunc reqs st Hinit Hq) as (R1 & R2 & R3).
  destruct (queue_of_init _ _ _ _ R1 Hrun) as [Q1 Q2].
  split_and!; try done.
  rewrite Q2, R2, R3, map_app, map_map. done.
Qed.

Lemma queued_requests_registered_one_by_one_witness :
  let st' := snd (mca_common_cuda_init env_ok cuFunc_ok
                    (register_all cuFunc_ok reqs_twice st_boot)) in
  common_cuda_memory_registrations (register_all cuFunc_ok reqs_twice st_boot)
    = common_cuda_memory_registrations st_boot
      ++ map (fun r => mk_reg r.1.1 r.1.2 r.2) reqs_twice /\
  common_cuda_memory_registrations st' = [] /\
  host_registrations (driver_log st')
    = host_registrations (driver_log st_boot)
      ++ (if mca_common_cuda_register_memory st'
          then map (fun r => (ptr r, amount r))
                   (common_cuda_memory_registrations st_boot)
               ++ map (fun r => (r.1.1, r.1.2)) reqs_twice
          else []).
Proof.
  apply (queued_requests_registered_one_by_one env_ok cuFunc_ok reqs_twice st_boot).
  - reflexivity.
  - reflexivity.
  - vm_compute. reflexivity.
Defined.

(** A completed initialization leaves the three pools fresh, which is where
    the runs of [event_pool_bounded_fifo] start. *)
Example init_pools_fresh :
  let st' := snd (mca_common_cuda_init env_ok cuFunc_ok st_boot) in
  cuda_event_max st' = 2 /\
  cuda_event_ipc st' = mk_pool [100; 101] [NULL; NULL] 0 0 0 /\
  cuda_event_dtoh st' = mk_pool [102; 103] [NULL; NULL] 0 0 0 /\
  cuda_event_htod st' = mk_pool [104; 105] [NULL; NULL] 0 0 0.
Proof. vm_compute. split_and!; reflexivity. Qed.

(** ** The pools after the initialization *)

Lemma same_pools_refl st : same_pools st st.
Proof. by split. Qed.

Lemma same_pools_trans st1 st2 st3 :
  same_pools st1 st2 -> same_pools st2 st3 -> same_pools st1 st3.
Proof. intros [? H1] [? H2]. split; [congruence|]. intros d. by rewrite H2, H1. Qed.

Lemma same_pools_log c st : same_pools st (log c st).
Proof. split; [done|]. intros d. apply pool_log. Qed.

Lemma same_pools_set_stream d s st : same_pools st (set_stream d s st).
Proof. split; [done|]. by intros []. Qed.

Lemma create_events_pools cuFunc base n i arr st ok arr' st' :
  create_events cuFunc base n i arr st = (ok, arr', st') ->
  same_pools st st' /\ length arr' = length arr.
Proof.
  revert i arr st. induction n as [|n IH]; intros i arr st H; simpl in H.
  - simplify_eq. split; [apply same_pools_refl|done].
  - destruct (cuEventCreate cuFunc (base + i)) as [[] ev]; simplify_eq;
      try (split; [apply same_pools_log|done]).
    apply IH in H as [H ->]. rewrite length_insert. split; [|done].
    eapply same_pools_trans; [apply same_pools_log|done].
Qed.

Lemma setup_pool_fresh d env cuFunc k st st' :
  setup_pool d env cuFunc k st = (true, st') ->
  cuda_event_max st' = cuda_event_max st /\
  pool_fresh (cuda_event_max st) (pool d st') /\
  length (event_array (pool d st')) = Z.to_nat (cuda_event_max st) /\
  (forall d', d' <> d -> pool d' st' = pool d' st).
Proof.
  unfold setup_pool. intros H.
  destruct (malloc_ok env (2 * k)); cbn [negb] in H; [|discriminate].
  destruct create_events as [[ok arr] st2] eqn:E.
  apply create_events_pools in E as [[Hmax Hp] Hlen].
  destruct ok; cbn [negb] in H; [|discriminate].
  destruct (malloc_ok env (2 * k + 1)); cbn [negb] in H; [|discriminate].
  injection H as <-. simpl in *.
  rewrite !pool_set_pool_eq. simpl.
  rewrite Hlen, !length_replicate. split_and!; try done.
  { unfold pool_fresh; simpl. by rewrite length_replicate. }
  intros d' Hd'. rewrite !pool_set_pool, !decide_False by done.
  rewrite Hp, pool_set_pool. by rewrite decide_False.
Qed.

Lemma drain_registrations_pools s st :
  same_pools st (drain_registrations s st).
Proof.
  revert st. induction s as [|s IH]; intros st; simpl; [apply same_pools_refl|].
  destruct (common_cuda_memory_registrations st); [apply same_pools_refl|].
  eapply same_pools_trans; [|apply IH].
  split; [by case_match|]. intros d. rewrite pool_log. by case_match; destruct d.
Qed.

Lemma create_stream_pools d cuFunc k st ok st' :
  create_stream d cuFunc k st = (ok, st') -> same_pools st st'.
Proof.
  unfold create_stream. intros H.
  destruct (cuStreamCreate cuFunc k) as [[] s]; simplify_eq;
    try apply same_pools_log.
  all: eapply same_pools_trans; [apply same_pools_log|apply same_pools_set_stream].
Qed.

(** An initialization that completes leaves the three pools fresh: arrays
    of [cuda_event_max] slots, nothing in use, both cursors at 0. *)
Lemma init_pools_fresh_general env cuFunc st st' :
  common_cuda_initialized st = false ->
  mca_common_cuda_init env cuFunc st = (OMPI_SUCCESS, st') ->
  common_cuda_initialized st' = true /\
  forall d, pool_fresh (cuda_event_max st') (pool d st').
Proof.
  intros Hinit. unfold mca_common_cuda_init. rewrite Hinit.
  destruct (ompi_mpi_cuda_support st); simpl; [|discriminate].
  set (st0 := mca_common_cuda_register_mca_variables (mca env) st).
  destruct (load_libcuda env =? 0); simpl; [|discriminate].
  destruct (cuCtxGetCurrent cuFunc) as [res cuContext].
  match goal with |- context [mca_common_cuda_enabled ?s] => set (st1 := s) end.
  destruct (mca_common_cuda_enabled st1) eqn:Hen; simpl; [|discriminate].
  destruct (setup_pool IPC env cuFunc 0 st1) as [[] st2] eqn:E2; [|discriminate].
  destruct (setup_pool DTOH env cuFunc 1 st2) as [[] st3] eqn:E3; [|discriminate].
  destruct (setup_pool HTOD env cuFunc 2 st3) as [[] st4] eqn:E4; [|discriminate].
  apply setup_pool_fresh in E2 as (M2 & F2 & _ & O2).
  apply setup_pool_fresh in E3 as (M3 & F3 & _ & O3).
  apply setup_pool_fresh in E4 as (M4 & F4 & _ & O4).
  pose proof (drain_registrations_pools
                (length (common_cuda_memory_registrations st4)) st4) as D.
  set (st5 := drain_registrations _ st4) in *.
  destruct (create_stream IPC cuFunc 0 st5) as [[] st6] eqn:E6; [|discriminate].
  destruct (create_stream DTOH cuFunc 1 st6) as [[] st7] eqn:E7; [|discriminate].
  destruct (create_stream HTOD cuFunc 2 st7) as [[] st8] eqn:E8; [|discriminate].
  apply create_stream_pools in E6, E7, E8.
  pose proof (same_pools_trans _ _ _ D
               (same_pools_trans _ _ _ (same_pools_trans _ _ _ E6 E7) E8))
    as [Hmax Hp].
  intros [= <-]. split; [done|]. intros d.
  change (pool_fresh (cuda_event_max st8) (pool d st8)).
  rewrite Hmax, Hp, M4, M3, M2.
  destruct d.
  - rewrite O4, O3 by done. done.
  - rewrite O4 by done. by rewrite <- M2.
  - by rewrite <- M2, <- M3.
Qed.

(** With a positive capacity the cursors stay inside the arrays along every
    run, so no [int] of a pool leaves [0, cuda_event_max]. *)
Lemma run_cursors_in_range d cs st :
  0 < cuda_event_max st ->
  pool_fresh (cuda_event_max st) (pool d st) ->
  Forall (fun x => pool_wf (cuda_event_max st) (pool d (snd x))) (run cs st).
Proof.
  intros Hmax Hfresh.
  assert (Hinv : pool_inv (cuda_event_max st) (pool d st))
    by (apply pool_fresh_inv; [lia|done]).
  eapply Forall_impl; [|exact (run_inv d cs st Hinv)].
  intros x [_ [[? _]|?]]; [lia|done].
Qed.

End CudaFacts.


(* ===================================================================== *)
(** * Properties of the uGNI component                                    *)
(* ===================================================================== *)

Module UgniFacts.
Import Ugni.

(** ** The SMSG limit *)

Lemma smsg_setup_limit sz align bufsz rc2 nprocs c :
  ugni_smsg_limit (snd (mca_btl_ugni_smsg_setup sz align bufsz rc2 nprocs c))
  = if ugni_smsg_limit c =? 0 then autoset_smsg_limit nprocs else ugni_smsg_limit c.
Proof.
  unfold mca_btl_ugni_smsg_setup.
  destruct (bufsz _ _) as [[] mbox_size]; reflexivity.
Qed.

(** C8.  With [smsg_limit] 0 and 600 processes reported,
    [mca_btl_ugni_smsg_setup] selects 2048.  In general the selected limit
    is 8192 up to 512 processes, 2048 up to 1024, 1024 up to 8192, 512 up to
    16384 (each bound included) and 256 above. *)
Theorem smsg_limit_autoselect (sz : Z) (align : Z -> Z -> Z)
    (bufsz : Z -> Z -> gni_return_t * Z) (rc2 : gni_return_t -> Z)
    (c : mca_btl_ugni_component_t) :
  ugni_smsg_limit c = 0 ->
  ugni_smsg_limit (snd (mca_btl_ugni_smsg_setup sz align bufsz rc2 600 c)) = 2048 /\
  forall nprocs, 0 <= nprocs ->
    (nprocs <= 512 ->
     ugni_smsg_limit (snd (mca_btl_ugni_smsg_setup sz align bufsz rc2 nprocs c)) = 8192) /\
    (512 < nprocs <= 1024 ->
     ugni_smsg_limit (snd (mca_btl_ugni_smsg_setup sz align bufsz rc2 nprocs c)) = 2048) /\
    (1024 < nprocs <= 8192 ->
     ugni_smsg_limit (snd (mca_btl_ugni_smsg_setup sz align bufsz rc2 nprocs c)) = 1024) /\
    (8192 < nprocs <= 16384 ->
     ugni_smsg_limit (snd (mca_btl_ugni_smsg_setup sz align bufsz rc2 nprocs c)) = 512) /\
    (16384 < nprocs ->
     ugni_smsg_limit (snd (mca_btl_ugni_smsg_setup sz align bufsz rc2 nprocs c)) = 256).
Proof.
  intros H0. split.
  - by rewrite smsg_setup_limit, H0.
  - intros nprocs Hn. rewrite smsg_setup_limit, H0. simpl.
    unfold autoset_smsg_limit. split_and!; intros; zcases.
Qed.

Lemma smsg_limit_autoselect_witness :
  ugni_smsg_limit
    (snd (mca_btl_ugni_smsg_setup 16 (fun x _ => x) (fun _ _ => (GNI_RC_SUCCESS, 4096))
            rc_to_ompi 600 component_default)) = 2048 /\
  forall nprocs, 0 <= nprocs ->
    (nprocs <= 512 ->
     ugni_smsg_limit
       (snd (mca_btl_ugni_smsg_setup 16 (fun x _ => x) (fun _ _ => (GNI_RC_SUCCESS, 4096))
               rc_to_ompi nprocs component_default)) = 8192) /\
    (512 < nprocs <= 1024 ->
     ugni_smsg_limit
       (snd (mca_btl_ugni_smsg_setup 16 (fun x _ => x) (fun _ _ => (GNI_RC_SUCCESS, 4096))
               rc_to_ompi nprocs component_default)) = 2048) /\
    (1024 < nprocs <= 8192 ->
     ugni_smsg_limit
       (snd (mca_btl_ugni_smsg_setup 16 (fun x _ => x) (fun _ _ => (GNI_RC_SUCCESS, 4096))
               rc_to_ompi nprocs component_default)) = 1024) /\
    (8192 < nprocs <= 16384 ->
     ugni_smsg_limit
       (snd (mca_btl_ugni_smsg_setup 16 (fun x _ => x) (fun _ _ => (GNI_RC_SUCCESS, 4096))
               rc_to_ompi nprocs component_default)) = 512) /\
    (16384 < nprocs ->
     ugni_smsg_limit
       (snd (mca_btl_ugni_smsg_setup 16 (fun x _ => x) (fun _ _ => (GNI_RC_SUCCESS, 4096))
               rc_to_ompi nprocs component_default)) = 256).
Proof.
  apply (smsg_limit_autoselect 16 (fun x _ => x) (fun _ _ => (GNI_RC_SUCCESS, 4096))
           rc_to_ompi component_default).
  reflexivity.
Defined.

Example smsg_limit_at_the_bounds :
  map autoset_smsg_limit [0; 512; 513; 600; 1024; 1025; 8192; 8193; 16384; 16385]
  = [8192; 8192; 2048; 2048; 2048; 1024; 1024; 512; 512; 256].
Proof. reflexivity. Qed.

(** ** The RDMA retry policy *)

Lemma rdma_recoverable_error rc2 c env frag m :
  recoverable_error_of env frag ->
  mca_btl_ugni_progress_rdma rc2 c env m =
  if tries m frag + 1 >=? rdma_max_retries c
  then (OMPI_ERROR, act (Callback frag OMPI_ERROR) (set_tries frag (tries m frag + 1) m))
  else (0, act (Repost frag OMPI_SUCCESS) (set_tries frag (tries m frag + 1) m)).
Proof.
  intros (rc & ev & rc' & Hcq & Hnd & Hev & Hov & Hgc & Hst & Hrec).
  unfold mca_btl_ugni_progress_rdma. rewrite Hcq, Hnd, Hov, Hgc.
  assert ((negb (gni_ok rc) && (ev =? 0)) = false) as ->.
  { destruct Hev as [->|Hne]; [done|].
    apply Z.eqb_neq in Hne. rewrite Hne. by rewrite andb_false_r. }
  simpl.
  apply Z.eqb_neq in Hrec.
  destruct Hst as [->|[-> Hst]]; simpl; rewrite ?Hst, Hrec; simpl;
    by rewrite orb_false_r.
Qed.

Lemma tries_act a m frag : tries (act a m) frag = tries m frag.
Proof. done. Qed.

Lemma tries_set_tries frag t m : tries (set_tries frag t m) frag = t.
Proof. simpl. by rewrite decide_True. Qed.

(** While fewer than [rdma_max_retries - 1] recoverable errors were seen,
    the next one is answered by a repost. *)
Lemma rdma_reposts rc2 c frag envs m :
  Forall (fun env => recoverable_error_of env frag) envs ->
  tries m frag + Z.of_nat (length envs) < rdma_max_retries c ->
  let '(rcs, m') := rdma_completions rc2 c envs m in
  rcs = replicate (length envs) 0 /\
  actions m' = actions m ++ replicate (length envs) (Repost frag OMPI_SUCCESS) /\
  tries m' frag = tries m frag + Z.of_nat (length envs).
Proof.
  revert m. induction envs as [|env envs IH]; intros m Henvs Hlt; simpl.
  { split_and!; try done; [by rewrite app_nil_r|lia]. }
  apply Forall_cons_1 in Henvs as [Henv Henvs].
  rewrite (rdma_recoverable_error rc2 c env frag m Henv).
  simpl length in Hlt.
  destruct (tries m frag + 1 >=? rdma_max_retries c) eqn:E; zbool; [lia|].
  set (m1 := act _ _).
  assert (Ht : tries m1 frag = tries m frag + 1).
  { subst m1. by rewrite tries_act, tries_set_tries. }
  specialize (IH m1 Henvs). rewrite Ht in IH.
  destruct (rdma_completions rc2 c envs m1) as [rcs m'].
  destruct IH as (I1 & I2 & I3); [lia|].
  split_and!.
  - by rewrite I1.
  - rewrite I2. subst m1. simpl. by rewrite <- app_assoc.
  - lia.
Qed.

(** What the code does with a fragment that fails recoverably again and
    again: with [rdma_max_retries = r >= 1] and a fresh fragment, the first
    [r - 1] failures are reposted and the [r]-th is reported to the callback
    with [OMPI_ERROR]. *)
Lemma rdma_gives_up_at_limit rc2 c frag envs env m :
  1 <= rdma_max_retries c ->
  tries m frag = 0 ->
  Forall (fun env => recoverable_error_of env frag) (envs ++ [env]) ->
  Z.of_nat (length (envs ++ [env])) = rdma_max_retries c ->
  let '(rcs, m') := rdma_completions rc2 c (envs ++ [env]) m in
  rcs = replicate (length envs) 0 ++ [OMPI_ERROR] /\
  actions m' = actions m ++ replicate (length envs) (Repost frag OMPI_SUCCESS)
                         ++ [Callback frag OMPI_ERROR].
Proof.
  intros Hr Ht Hall Hlen. rewrite length_app in Hlen. simpl in Hlen.
  apply Forall_app in Hall as [Henvs Henv%Forall_cons_1].
  destruct Henv as [Henv _].
  assert (Happ : forall es m0,
    rdma_completions rc2 c (es ++ [env]) m0 =
    let '(rcs, m1) := rdma_completions rc2 c es m0 in
    let '(rc, m2) := mca_btl_ugni_progress_rdma rc2 c env m1 in
    (rcs ++ [rc], m2)).
  { induction es as [|e es IHes]; intros m0; simpl.
    - by destruct mca_btl_ugni_progress_rdma.
    - destruct (mca_btl_ugni_progress_rdma rc2 c e m0) as [rc m1].
      rewrite IHes. destruct (rdma_completions rc2 c es m1) as [rcs m2].
      by destruct (mca_btl_ugni_progress_rdma rc2 c env m2). }
  rewrite Happ.
  pose proof (rdma_reposts rc2 c frag envs m Henvs) as Hre.
  destruct (rdma_completions rc2 c envs m) as [rcs m1].
  destruct Hre as (R1 & R2 & R3); [lia|].
  rewrite (rdma_recoverable_error rc2 c env frag m1 Henv).
  destruct (tries m1 frag + 1 >=? rdma_max_retries c) eqn:E; zbool; [|lia].
  split; [by rewrite R1|]. simpl. rewrite R2, <- app_assoc. done.
Qed.

(** C2, the code at the default limit: of 16 recoverable failures of
    fragment 7 the first 15 are reposted and the 16th is reported to the
    callback with [OMPI_ERROR]; there is no 16th repost and no 17th
    failure. *)
Theorem rdma_retries_at_default_limit :
  rdma_max_retries component_default = 16 /\
  let '(rcs, m') :=
    rdma_completions rc_to_ompi component_default
      (replicate 16 (env_rdma_error 7)) module_idle in
  rcs = replicate 15 0 ++ [OMPI_ERROR] /\
  actions m' = replicate 15 (Repost 7 OMPI_SUCCESS) ++ [Callback 7 OMPI_ERROR] /\
  tries m' 7 = 16.
Proof. vm_compute. split_and!; reflexivity. Qed.

(** ** The value returned by the progress function *)

Lemma tries_retry_failed_loop count m :
  tries (retry_failed_loop count m) = tries m.
Proof.
  revert m. induction count as [|count IH]; intros m; simpl; [done|].
  destruct (failed_frags m); [done|]. by rewrite IH.
Qed.

Lemma tries_backpressure ep m : tries (backpressure ep m) = tries m.
Proof. unfold backpressure. by case_match. Qed.

Lemma tries_foldl_backpressure hits m :
  tries (foldl (fun m e => backpressure e m) m hits) = tries m.
Proof.
  revert m. induction hits as [|h hits IH]; intros m; simpl; [done|].
  by rewrite IH, tries_backpressure.
Qed.

Lemma tries_progress_wait_list_loop env count i m :
  tries (progress_wait_list_loop env count i m) = tries m.
Proof.
  revert i m. induction count as [|count IH]; intros i m; simpl; [done|].
  destruct (ep_wait_list m) as [|ep rest]; [done|].
  destruct (send_wait_list env i ep) as [rc hits]. rewrite IH.
  case_match; simpl; by rewrite tries_foldl_backpressure.
Qed.

Lemma datagram_count rc2 mask wild env m m' :
  fst (mca_btl_ugni_progress_datagram rc2 mask wild env m)
  = fst (mca_btl_ugni_progress_datagram rc2 mask wild env m').
Proof.
  unfold mca_btl_ugni_progress_datagram.
  destruct (PostDataProbeById env) as [grc id].
  destruct (negb (gni_ok grc)); [done|].
  destruct (EpPostDataWaitById env) as [grc' remote].
  destruct (negb (gni_ok grc')); [done|].
  by destruct (ep_connected env).
Qed.

Lemma tries_datagram rc2 mask wild env m :
  tries (snd (mca_btl_ugni_progress_datagram rc2 mask wild env m)) = tries m.
Proof.
  unfold mca_btl_ugni_progress_datagram.
  destruct (PostDataProbeById env) as [grc id].
  destruct (negb (gni_ok grc)); [done|].
  destruct (EpPostDataWaitById env) as [grc' remote].
  destruct (negb (gni_ok grc')); [done|].
  destruct (ep_connected env); simpl; by case_match.
Qed.

Lemma rdma_count rc2 c env m m' :
  tries m = tries m' ->
  fst (mca_btl_ugni_progress_rdma rc2 c env m)
  = fst (mca_btl_ugni_progress_rdma rc2 c env m').
Proof.
  intros Ht. unfold mca_btl_ugni_progress_rdma. rewrite Ht.
  repeat case_match; simplify_eq; done.
Qed.

Lemma progress_module_count rc2 mask wild c env m :
  fst (progress_module rc2 mask wild c env m) = polled_count rc2 mask wild c env m.
Proof.
  unfold progress_module, polled_count, mca_btl_ugni_retry_failed,
    mca_btl_ugni_progress_wait_list.
  set (m2 := progress_wait_list_loop _ _ _ _).
  assert (Ht2 : tries m2 = tries m).
  { subst m2. by rewrite tries_progress_wait_list_loop, tries_retry_failed_loop. }
  pose proof (datagram_count rc2 mask wild env m2 m) as Hd.
  pose proof (tries_datagram rc2 mask wild env m2) as Ht3.
  destruct (mca_btl_ugni_progress_datagram rc2 mask wild env m2) as [c1 m3].
  simpl in Hd, Ht3.
  match goal with |- context [mca_btl_ugni_progress_rdma rc2 c env ?x] =>
    pose proof (rdma_count rc2 c env x m) as Hr end.
  destruct (mca_btl_ugni_progress_rdma rc2 c env _) as [c4 m4].
  simpl in *. rewrite Hd, Hr; [done|]. by rewrite Ht3, Ht2.
Qed.

Lemma progress_loop_count rc2 mask wild c envs i modules count :
  fst (progress_loop rc2 mask wild c envs i modules count)
  = count + sum_polled rc2 mask wild c envs i modules.
Proof.
  revert i count. induction modules as [|m ms IH]; intros i count; simpl; [lia|].
  pose proof (progress_module_count rc2 mask wild c (envs i) m) as Hm.
  destruct (progress_module rc2 mask wild c (envs i) m) as [n m'].
  specialize (IH (S i) (count + n)).
  destruct (progress_loop rc2 mask wild c envs (S i) ms (count + n)) as [count' rest'].
  simpl in *. lia.
Qed.

(** C3 as stated fails: a fragment flushed from the failed-frags list is
    work done in the call, and the call returns 0. *)
Lemma progress_ignores_flushed_frags :
  let '(count, modules) :=
    mca_btl_ugni_component_progress rc_to_ompi 0 0 component_default
      (fun _ => env_idle) [module_failed] in
  fst (mca_btl_ugni_retry_failed module_failed) = 1 /\
  count = 0 /\
  map actions modules
    = [[Callback 7 OMPI_SUCCESS; ProgressLocalSmsg; ProgressRemoteSmsg]] /\
  map failed_frags modules = [[]].
Proof. vm_compute. split_and!; reflexivity. Qed.

(** C3, amended.  The value returned by [mca_btl_ugni_component_progress]
    is the sum, over the modules, of what the datagram, local SMSG, remote
    SMSG and RDMA steps return; the numbers of fragments flushed from the
    failed-frags list and of endpoints taken from the wait list are computed
    by their steps and not added.  So the call returns 0 whenever each of
    those four steps returns 0 on every module, whatever was flushed or
    drained. *)
Theorem component_progress_counts_polls (rc2 : gni_return_t -> Z) (mask wild : Z)
    (c : mca_btl_ugni_component_t) (envs : nat -> gni_env)
    (modules : list mca_btl_ugni_module_t) :
  fst (mca_btl_ugni_component_progress rc2 mask wild c envs modules)
    = sum_polled rc2 mask wild c envs 0 modules /\
  ((forall i m, modules !! i = Some m ->
                polled_count rc2 mask wild c (envs i) m = 0) ->
   fst (mca_btl_ugni_component_progress rc2 mask wild c envs modules) = 0).
Proof.
  unfold mca_btl_ugni_component_progress. rewrite progress_loop_count.
  split; [lia|]. intros H0.
  assert (Hsum : forall ms i,
            (forall j m, ms !! j = Some m ->
                         polled_count rc2 mask wild c (envs (i + j)%nat) m = 0) ->
            sum_polled rc2 mask wild c envs i ms = 0).
  { induction ms as [|m ms IH]; intros i Hms; simpl; [done|].
    rewrite <- (Hms 0%nat m eq_refl), Nat.add_0_r.
    rewrite (IH (S i)); [lia|].
    intros j m' Hj. replace (S i + j)%nat with (i + S j)%nat by lia.
    by apply Hms. }
  rewrite Hsum; [done|]. intros j m Hj. by apply H0.
Qed.

(** ** The endpoint wait list *)

Lemma appends_app l1 l2 : appends (l1 ++ l2) = appends l1 ++ appends l2.
Proof. unfold appends. by rewrite map_app, concat_app. Qed.

Lemma extends_refl m : extends m m.
Proof. exists []. by rewrite !app_nil_r. Qed.

Lemma extends_trans m1 m2 m3 : extends m1 m2 -> extends m2 m3 -> extends m1 m3.
Proof.
  intros (n1 & A1 & L1) (n2 & A2 & L2). exists (n1 ++ n2).
  rewrite A2, A1, L2, L1, appends_app, !app_assoc. done.
Qed.

Lemma wait_list_append_inv ep m :
  wl_inv m -> wait_listed m ep = false ->
  wl_inv (wait_list_append ep m) /\ extends m (wait_list_append ep m).
Proof.
  intros [Hnd Hfl] Hep. split; [split|]; simpl.
  - apply list.NoDup_app. split_and!; [done| |apply NoDup_singleton].
    intros x Hx ->%list_elem_of_singleton.
    apply Hfl in Hx. congruence.
  - intros x. rewrite elem_of_app, list_elem_of_singleton.
    destruct (decide (x = ep)) as [->|Hne]; [split; auto|].
    rewrite Hfl. split; [by auto|]. by intros [?|?].
  - exists [WaitListAppend ep]. done.
Qed.

Lemma backpressure_inv ep m :
  wl_inv m -> wl_inv (backpressure ep m) /\ extends m (backpressure ep m).
Proof.
  intros Hinv. unfold backpressure.
  destruct (wait_listed m ep) eqn:E; [split; [done|apply extends_refl]|].
  by apply wait_list_append_inv.
Qed.

Lemma foldl_backpressure_inv hits m :
  wl_inv m ->
  wl_inv (foldl (fun m e => backpressure e m) m hits) /\
  extends m (foldl (fun m e => backpressure e m) m hits).
Proof.
  revert m. induction hits as [|h hits IH]; intros m Hinv; simpl.
  { split; [done|apply extends_refl]. }
  destruct (backpressure_inv h m Hinv) as [H1 E1].
  destruct (IH _ H1) as [H2 E2]. split; [done|]. by eapply extends_trans.
Qed.

(** Taking the first endpoint off the list and clearing its flag. *)
Lemma remove_first_inv ep rest m :
  wl_inv m -> ep_wait_list m = ep :: rest ->
  wl_inv (set_wait_listed ep false (set_ep_wait_list rest m)).
Proof.
  intros [Hnd Hfl] Hl. rewrite Hl in Hnd. apply list.NoDup_cons in Hnd as [Hnotin Hnd].
  split; simpl; [done|]. intros x.
  destruct (decide (x = ep)) as [->|Hne]; [by split|].
  rewrite Hfl, Hl, elem_of_cons. split; [by intros [?|?]|by auto].
Qed.

(** The loop takes [count] endpoints from the front and only ever appends
    behind them: with [count] endpoints [front] in front of [back], it ends
    with [back] followed by the endpoints it appended. *)
Lemma progress_wait_list_loop_inv env count i m (front back : list Z) :
  wl_inv m ->
  ep_wait_list m = front ++ back -> length front = count ->
  let m' := progress_wait_list_loop env count i m in
  wl_inv m' /\
  exists new, actions m' = actions m ++ new /\
              ep_wait_list m' = back ++ appends new.
Proof.
  revert i m front back.
  induction count as [|count IH]; intros i m front back Hinv Hl Hlen; simpl.
  { destruct front; [|done]. split; [done|]. exists []. by rewrite !app_nil_r. }
  destruct front as [|ep front]; [done|]. simpl in Hl, Hlen. rewrite Hl.
  destruct (send_wait_list env i ep) as [rc hits].
  set (m1 := act (SendWaitList ep) _).
  assert (H1 : wl_inv m1).
  { apply (remove_first_inv ep (front ++ back) m Hinv Hl). }
  destruct (foldl_backpressure_inv hits m1 H1) as [H2 E2].
  set (m2 := foldl _ m1 hits) in *.
  match goal with |- context [progress_wait_list_loop env count (S i) ?x] =>
    set (m3 := x) end.
  assert (H3 : wl_inv m3 /\ extends m2 m3).
  { subst m3. destruct (negb (rc =? OMPI_SUCCESS)); simpl;
      [|split; [done|apply extends_refl]].
    destruct (wait_listed m2 ep) eqn:E; simpl;
      [split; [done|apply extends_refl]|].
    by apply wait_list_append_inv. }
  destruct H3 as [H3 E3].
  destruct (extends_trans _ _ _ E2 E3) as (new1 & A1 & L1).
  simpl in A1, L1.
  destruct (IH (S i) m3 front (back ++ appends new1) H3) as (H4 & new2 & A2 & L2).
  { rewrite L1. by rewrite app_assoc. }
  { lia. }
  split; [done|].
  exists ([SendWaitList ep] ++ new1 ++ new2).
  rewrite A2, A1, L2, !appends_app, <- !app_assoc. done.
Qed.

Lemma progress_wait_list_inv env m :
  wl_inv m ->
  wl_inv (snd (mca_btl_ugni_progress_wait_list env m)) /\
  exists new,
    actions (snd (mca_btl_ugni_progress_wait_list env m)) = actions m ++ new /\
    ep_wait_list (snd (mca_btl_ugni_progress_wait_list env m)) = appends new.
Proof.
  intros Hinv. unfold mca_btl_ugni_progress_wait_list. simpl.
  apply (progress_wait_list_loop_inv env _ 0 m (ep_wait_list m) []); try done.
  by rewrite app_nil_r.
Qed.

Lemma wl_run_inv evs m : wl_inv m -> wl_inv (wl_run evs m).
Proof.
  unfold wl_run. revert m. induction evs as [|ev evs IH]; intros m Hinv; simpl; [done|].
  apply IH. destruct ev as [ep|env]; simpl.
  - by apply backpressure_inv.
  - by apply progress_wait_list_inv.
Qed.

(** C7.  From a module whose wait list has no duplicate and whose
    [wait_listed] flags are set exactly on the listed endpoints (the empty
    list with all flags clear, for one), every sequence of backpressure
    events and progress calls leads to such a module again; and the
    endpoints a progress call appends are exactly the list it leaves, so each
    endpoint is appended at most once in that call. *)
Theorem wait_list_never_lists_twice (evs : list wl_event)
    (m0 : mca_btl_ugni_module_t) :
  wl_inv m0 ->
  NoDup (ep_wait_list (wl_run evs m0)) /\
  (forall ep, wait_listed (wl_run evs m0) ep = true <-> ep ∈ ep_wait_list (wl_run evs m0)) /\
  (forall env, exists new,
     actions (snd (mca_btl_ugni_progress_wait_list env (wl_run evs m0)))
       = actions (wl_run evs m0) ++ new /\
     ep_wait_list (snd (mca_btl_ugni_progress_wait_list env (wl_run evs m0)))
       = appends new /\
     NoDup (appends new)).
Proof.
  intros H0. pose proof (wl_run_inv evs m0 H0) as Hinv.
  destruct Hinv as [Hnd Hfl]. split_and!; try done.
  intros env.
  destruct (progress_wait_list_inv env (wl_run evs m0)) as ([Hnd' _] & new & A & L);
    [by split|].
  exists new. split_and!; try done. by rewrite <- L.
Qed.

Lemma wait_list_never_lists_twice_witness :
  let evs := [Backpressure 3; Backpressure 3; Backpressure 5;
              Progress env_stuck; Backpressure 5; Progress env_idle;
              Backpressure 3] in
  NoDup (ep_wait_list (wl_run evs module_idle)) /\
  (forall ep, wait_listed (wl_run evs module_idle) ep = true
              <-> ep ∈ ep_wait_list (wl_run evs module_idle)) /\
  (forall env, exists new,
     actions (snd (mca_btl_ugni_progress_wait_list env (wl_run evs module_idle)))
       = actions (wl_run evs module_idle) ++ new /\
     ep_wait_list (snd (mca_btl_ugni_progress_wait_list env (wl_run evs module_idle)))
       = appends new /\
     NoDup (appends new)).
Proof.
  apply (wait_list_never_lists_twice
           [Backpressure 3; Backpressure 3; Backpressure 5;
            Progress env_stuck; Backpressure 5; Progress env_idle;
            Backpressure 3] module_idle).
  split.
  - apply NoDup_nil_2.
  - intros ep. split; [discriminate|]. intros H. by apply elem_of_nil in H.
Defined.

Example wait_list_after_backpressure :
  ep_wait_list (wl_run [Backpressure 3; Backpressure 3; Backpressure 5] module_idle)
    = [3; 5] /\
  ep_wait_list
    (wl_run [Backpressure 3; Backpressure 3; Backpressure 5; Progress env_stuck]
            module_idle) = [3; 5] /\
  ep_wait_list
    (wl_run [Backpressure 3; Backpressure 3; Backpressure 5; Progress env_idle]
            module_idle) = [].
Proof. split_and!; reflexivity. Qed.

End UgniFacts.

(* ===================================================================== *)
(** * Further properties of the CUDA support code                         *)
(* ===================================================================== *)

Module CudaMore.
Import Cuda CudaFacts.

(** ** The initialization *)

Lemma same_params_refl st : same_params st st.
Proof. by repeat split. Qed.

Lemma same_params_trans st1 st2 st3 :
  same_params st1 st2 -> same_params st2 st3 -> same_params st1 st3.
Proof.
  intros (?&?&?&?&?&?&?) (?&?&?&?&?&?&?). repeat split; congruence.
Qed.

Lemma same_params_log c st : same_params st (log c st).
Proof. by repeat split. Qed.

Lemma same_params_set_pool d p st : same_params st (set_pool d p st).
Proof. by repeat split. Qed.

Lemma pool_set_flags d a b c e st : pool d (set_flags a b c e st) = pool d st.
Proof. by destruct d. Qed.

Lemma create_events_params cuFunc base n i arr st ok arr' st' :
  create_events cuFunc base n i arr st = (ok, arr', st') -> same_params st st'.
Proof.
  revert i arr st. induction n as [|n IH]; intros i arr st H; simpl in H.
  - simplify_eq. apply same_params_refl.
  - destruct (cuEventCreate cuFunc (base + i)) as [[] ev]; simplify_eq;
      try apply same_params_log.
    eapply same_params_trans; [apply same_params_log|by eapply IH].
Qed.

(** The events stored are the ones the driver created, in creation order. *)
Lemma create_events_lookup cuFunc base n i arr st arr' st' :
  create_events cuFunc base n i arr st = (true, arr', st') ->
  (forall j, (i <= j < i + n)%nat -> (j < length arr)%nat ->
             arr' !! j = Some (cuEventCreate cuFunc (base + j)%nat).2) /\
  (forall j, (j < i)%nat -> arr' !! j = arr !! j).
Proof.
  revert i arr st. induction n as [|n IH]; intros i arr st H; simpl in H.
  { simplify_eq. split; [intros; lia|done]. }
  destruct (cuEventCreate cuFunc (base + i)) as [res ev] eqn:E.
  destruct res; simplify_eq.
  apply IH in H as [H1 H2]. split.
  - intros j Hj Hlen. destruct (decide (j = i)) as [->|Hne].
    + rewrite H2 by lia. rewrite list_lookup_insert_eq by done. by rewrite E.
    + apply H1; [lia|]. by rewrite length_insert.
  - intros j Hj. rewrite H2 by lia. apply list_lookup_insert_ne. lia.
Qed.

Lemma setup_pool_events d env cuFunc k st st' :
  setup_pool d env cuFunc k st = (true, st') ->
  same_params st st' /\
  forall j, (j < Z.to_nat (cuda_event_max st))%nat ->
    event_array (pool d st') !! j
    = Some (cuEventCreate cuFunc (k * Z.to_nat (cuda_event_max st) + j)%nat).2.
Proof.
  unfold setup_pool. intros H.
  destruct (malloc_ok env (2 * k)); cbn [negb] in H; [|discriminate].
  destruct create_events as [[ok arr] st2] eqn:E.
  pose proof (create_events_params _ _ _ _ _ _ _ _ _ E) as Hp.
  destruct ok; cbn [negb] in H; [|discriminate].
  apply create_events_lookup in E as [Hl _].
  destruct (malloc_ok env (2 * k + 1)); cbn [negb] in H; [|discriminate].
  injection H as <-. split.
  - eapply same_params_trans; [apply same_params_set_pool|].
    eapply same_params_trans; [exact Hp|].
    eapply same_params_trans; apply same_params_set_pool.
  - intros j Hj. rewrite pool_set_pool_eq. simpl. apply Hl; [simpl in *; lia|].
    rewrite length_replicate. simpl in *. lia.
Qed.

Lemma drain_registrations_params s st : same_params st (drain_registrations s st).
Proof.
  revert st. induction s as [|s IH]; intros st; simpl; [apply same_params_refl|].
  destruct (common_cuda_memory_registrations st); [apply same_params_refl|].
  eapply same_params_trans; [|apply IH]. by case_match.
Qed.

Lemma create_stream_params d cuFunc k st ok st' :
  create_stream d cuFunc k st = (ok, st') -> same_params st st'.
Proof.
  unfold create_stream. intros H.
  destruct (cuStreamCreate cuFunc k) as [[] s]; by simplify_eq.
Qed.

(** The state in which the pools are set up: the variables are registered
    and the context was found. *)
Lemma init_success env cuFunc st st' :
  common_cuda_initialized st = false ->
  mca_common_cuda_init env cuFunc st = (OMPI_SUCCESS, st') ->
  let st0 := mca_common_cuda_register_mca_variables (mca env) st in
  ompi_mpi_cuda_support st = true /\
  load_libcuda env = 0 /\
  is_success (cuCtxGetCurrent cuFunc).1 = true /\
  (cuCtxGetCurrent cuFunc).2 <> NULL /\
  ompi_mpi_cuda_support st' = true /\
  common_cuda_initialized st' = true /\
  mca_common_cuda_enabled st' = true /\
  mca_common_cuda_register_memory st' = mca_common_cuda_register_memory st0 /\
  mca_common_cuda_async st' = mca_common_cuda_async st0 /\
  cuda_event_max st' = cuda_event_max st0 /\
  registered st' = registered st0 /\
  forall d j, (j < Z.to_nat (cuda_event_max st'))%nat ->
    event_array (pool d st') !! j
    = Some (cuEventCreate cuFunc
              (pool_index d * Z.to_nat (cuda_event_max st') + j)%nat).2.
Proof.
  intros Hinit. unfold mca_common_cuda_init. rewrite Hinit.
  destruct (ompi_mpi_cuda_support st) eqn:Hsup; simpl; [|discriminate].
  set (st0 := mca_common_cuda_register_mca_variables (mca env) st).
  assert (Hi0 : common_cuda_initialized st0 = false
                /\ ompi_mpi_cuda_support st0 = true).
  { subst st0. unfold mca_common_cuda_register_mca_variables. by case_match. }
  destruct Hi0 as [Hi0 Hs0].
  destruct (load_libcuda env =? 0) eqn:Hload; zbool; simpl; [|discriminate].
  destruct (cuCtxGetCurrent cuFunc) as [res cuContext].
  destruct (is_success res) eqn:Hres; simpl.
  2: { discriminate. }
  destruct (cuContext =? NULL) eqn:Hctx; zbool; simpl; [discriminate|].
  match goal with |- context [setup_pool IPC env cuFunc 0 ?s] => set (st1 := s) end.
  assert (P1 : same_params st0 st1 -> True) by done. clear P1.
  destruct (setup_pool IPC env cuFunc 0 st1) as [[] st2] eqn:E2; [|discriminate].
  destruct (setup_pool DTOH env cuFunc 1 st2) as [[] st3] eqn:E3; [|discriminate].
  destruct (setup_pool HTOD env cuFunc 2 st3) as [[] st4] eqn:E4; [|discriminate].
  pose proof (setup_pool_fresh _ _ _ _ _ _ E2) as (_ & _ & _ & O2).
  pose proof (setup_pool_fresh _ _ _ _ _ _ E3) as (_ & _ & _ & O3).
  pose proof (setup_pool_fresh _ _ _ _ _ _ E4) as (_ & _ & _ & O4).
  apply setup_pool_events in E2 as [P2 V2].
  apply setup_pool_events in E3 as [P3 V3].
  apply setup_pool_events in E4 as [P4 V4].
  pose proof (drain_registrations_params
                (length (common_cuda_memory_registrations st4)) st4) as P5.
  pose proof (drain_registrations_pools
                (length (common_cuda_memory_registrations st4)) st4) as D.
  set (st5 := drain_registrations _ st4) in *.
  destruct (create_stream IPC cuFunc 0 st5) as [[] st6] eqn:E6; [|discriminate].
  destruct (create_stream DTOH cuFunc 1 st6) as [[] st7] eqn:E7; [|discriminate].
  destruct (create_stream HTOD cuFunc 2 st7) as [[] st8] eqn:E8; [|discriminate].
  pose proof (create_stream_params _ _ _ _ _ _ E6) as P6.
  pose proof (create_stream_params _ _ _ _ _ _ E7) as P7.
  pose proof (create_stream_params _ _ _ _ _ _ E8) as P8.
  apply create_stream_pools in E6, E7, E8.
  pose proof (same_pools_trans _ _ _ D
               (same_pools_trans _ _ _ (same_pools_trans _ _ _ E6 E7) E8))
    as [_ Hp].
  pose proof (same_params_trans _ _ _ P2
               (same_params_trans _ _ _ P3
                 (same_params_trans _ _ _ P4
                   (same_params_trans _ _ _ P5
                     (same_params_trans _ _ _ P6
                       (same_params_trans _ _ _ P7 P8))))))
    as (Q1 & Q2 & Q3 & Q4 & Q5 & Q6 & Q7).
  destruct P2 as (_&_&_&_&_&M2&_). destruct P3 as (_&_&_&_&_&M3&_).
  intros [= <-]. cbn [ompi_mpi_cuda_support common_cuda_initialized
    mca_common_cuda_enabled mca_common_cuda_register_memory mca_common_cuda_async
    cuda_event_max registered set_flags fst snd].
  assert (M1 : cuda_event_max st1 = cuda_event_max st0) by done.
  rewrite Q1, Q3, Q4, Q5, Q6, Q7, M1.
  split_and!; try done.
  intros d j Hj. rewrite pool_set_flags, Hp, <- M1. destruct d; cbn [pool_index].
  - rewrite O4, O3 by done. by apply V2.
  - rewrite O4 by done. rewrite <- M2. apply V3. by rewrite M2.
  - rewrite <- M2, <- M3. apply V4. by rewrite M3, M2.
Qed.

(** X1 ([mca_common_cuda_init]).  A successful initialization marks the
    code initialized and enabled, leaves each of the three pools empty with
    both cursors at slot 0, and stores in slot [j] of a direction's event
    array the handle the driver returned for that event: the events are
    created pool by pool, IPC first, then device-to-host, then
    host-to-device, [cuda_event_max] for each. *)
Theorem init_creates_events_in_order env cuFunc st st' :
  common_cuda_initialized st = false ->
  mca_common_cuda_init env cuFunc st = (OMPI_SUCCESS, st') ->
  common_cuda_initialized st' = true /\
  mca_common_cuda_enabled st' = true /\
  forall d,
    pool_fresh (cuda_event_max st') (pool d st') /\
    forall j, (j < Z.to_nat (cuda_event_max st'))%nat ->
      event_array (pool d st') !! j
      = Some (cuEventCreate cuFunc
                (pool_index d * Z.to_nat (cuda_event_max st') + j)%nat).2.
Proof.
  intros Hi H.
  pose proof (init_pools_fresh_general _ _ _ _ Hi H) as [_ Hf].
  pose proof (init_success _ _ _ _ Hi H) as
    (_ & _ & _ & _ & _ & Hini & Hen & _ & _ & _ & _ & Hev).
  split_and!; try done. intros d. split; [apply Hf|apply Hev].
Qed.

Lemma init_creates_events_in_order_witness :
  let st' := (mca_common_cuda_init env_ok cuFunc_ok st_boot).2 in
  common_cuda_initialized st' = true /\
  mca_common_cuda_enabled st' = true /\
  forall d,
    pool_fresh (cuda_event_max st') (pool d st') /\
    forall j, (j < Z.to_nat (cuda_event_max st'))%nat ->
      event_array (pool d st') !! j
      = Some (cuEventCreate cuFunc_ok
                (pool_index d * Z.to_nat (cuda_event_max st') + j)%nat).2.
Proof.
  intros st'.
  apply (init_creates_events_in_order env_ok cuFunc_ok st_boot st');
    [reflexivity | vm_compute; reflexivity].
Defined.

(** X2 ([mca_common_cuda_init]).  Once the initialization has succeeded,
    every later call returns [OMPI_SUCCESS] at once and leaves the whole
    state as it is, whatever the environment and the driver would answer:
    the pools are set up once. *)
Theorem init_runs_once env cuFunc st st' env2 cuFunc2 :
  common_cuda_initialized st = false ->
  mca_common_cuda_init env cuFunc st = (OMPI_SUCCESS, st') ->
  mca_common_cuda_init env2 cuFunc2 st' = (OMPI_SUCCESS, st').
Proof.
  intros Hi H.
  pose proof (init_success _ _ _ _ Hi H) as (_ & _ & _ & _ & Hs & Hini & _).
  unfold mca_common_cuda_init. by rewrite Hs, Hini.
Qed.

Lemma init_runs_once_witness :
  let st' := (mca_common_cuda_init env_ok cuFunc_ok st_boot).2 in
  mca_common_cuda_init env_no_library cuFunc_no_context st' = (OMPI_SUCCESS, st').
Proof.
  intros st'.
  apply (init_runs_once env_ok cuFunc_ok st_boot st');
    [reflexivity | vm_compute; reflexivity].
Defined.

(** X3 ([mca_common_cuda_init]).  When the driver library cannot be loaded,
    the call returns [OMPI_ERROR], turns CUDA support off and marks the code
    initialized; it makes no driver call and leaves the queued registrations
    and the pools as they were.  Every later call returns [OMPI_ERROR]
    without changing anything, so the load is not tried again. *)
Theorem init_without_library_is_final env cuFunc st :
  ompi_mpi_cuda_support st = true ->
  common_cuda_initialized st = false ->
  load_libcuda env <> 0 ->
  let st1 := (mca_common_cuda_init env cuFunc st).2 in
  (mca_common_cuda_init env cuFunc st).1 = OMPI_ERROR /\
  ompi_mpi_cuda_support st1 = false /\
  common_cuda_initialized st1 = true /\
  common_cuda_memory_registrations st1 = common_cuda_memory_registrations st /\
  driver_log st1 = driver_log st /\
  (forall d, pool d st1 = pool d st) /\
  forall env2 cuFunc2, mca_common_cuda_init env2 cuFunc2 st1 = (OMPI_ERROR, st1).
Proof.
  intros Hs Hi Hl. unfold mca_common_cuda_init. rewrite Hs, Hi. cbn [negb].
  apply Z.eqb_neq in Hl. rewrite Hl. cbn [negb fst snd].
  unfold mca_common_cuda_register_mca_variables.
  split_and!; try done; by case_match.
Qed.

Lemma init_without_library_is_final_witness :
  let st1 := (mca_common_cuda_init env_no_library cuFunc_ok st_boot).2 in
  (mca_common_cuda_init env_no_library cuFunc_ok st_boot).1 = OMPI_ERROR /\
  ompi_mpi_cuda_support st1 = false /\
  common_cuda_initialized st1 = true /\
  common_cuda_memory_registrations st1 = common_cuda_memory_registrations st_boot /\
  driver_log st1 = driver_log st_boot /\
  (forall d, pool d st1 = pool d st_boot) /\
  forall env2 cuFunc2, mca_common_cuda_init env2 cuFunc2 st1 = (OMPI_ERROR, st1).
Proof.
  apply (init_without_library_is_final env_no_library cuFunc_ok st_boot);
    [reflexivity | reflexivity | discriminate].
Defined.

(** X4 ([mca_common_cuda_init]).  When the driver reports no current
    context, the call returns [OMPI_ERROR] with the code left uninitialized,
    CUDA disabled and host-memory registration switched off; the queued
    registrations stay queued.  A later call can therefore succeed, but
    registration stays off, because the variables are registered once: the
    retry empties the queue without handing any of its regions to
    [cuMemHostRegister]. *)
Theorem init_without_context_drops_queue env cuFunc st :
  ompi_mpi_cuda_support st = true ->
  common_cuda_initialized st = false ->
  load_libcuda env = 0 ->
  is_success (cuCtxGetCurrent cuFunc).1 = false \/ (cuCtxGetCurrent cuFunc).2 = NULL ->
  let st1 := (mca_common_cuda_init env cuFunc st).2 in
  (mca_common_cuda_init env cuFunc st).1 = OMPI_ERROR /\
  common_cuda_initialized st1 = false /\
  mca_common_cuda_enabled st1 = false /\
  mca_common_cuda_register_memory st1 = false /\
  common_cuda_memory_registrations st1 = common_cuda_memory_registrations st /\
  driver_log st1 = driver_log st /\
  forall env2 cuFunc2 st2,
    mca_common_cuda_init env2 cuFunc2 st1 = (OMPI_SUCCESS, st2) ->
    mca_common_cuda_register_memory st2 = false /\
    common_cuda_memory_registrations st2 = [] /\
    host_registrations (driver_log st2) = host_registrations (driver_log st).
Proof.
  intros Hs Hi Hl Hctx.
  assert (E : exists st1,
    mca_common_cuda_init env cuFunc st = (OMPI_ERROR, st1) /\
    common_cuda_initialized st1 = false /\
    mca_common_cuda_enabled st1 = false /\
    mca_common_cuda_register_memory st1 = false /\
    registered st1 = true /\
    common_cuda_memory_registrations st1 = common_cuda_memory_registrations st /\
    driver_log st1 = driver_log st).
  { unfold mca_common_cuda_init. rewrite Hs, Hi, Hl. cbn [negb Z.eqb].
    destruct (cuCtxGetCurrent cuFunc) as [res ctx]. cbn [fst snd] in Hctx.
    unfold mca_common_cuda_register_mca_variables.
    destruct (is_success res) eqn:Hres; cbn [negb].
    - destruct Hctx as [Hc | ->]; [done|]. cbn.
      eexists. split; [reflexivity|].
      destruct (registered st) eqn:Er; by split_and!.
    - cbn. eexists. split; [reflexivity|].
      destruct (registered st) eqn:Er; by split_and!. }
  destruct E as (st1 & -> & Hi1 & He1 & Hr1 & Hreg1 & Hq1 & Hlog1).
  cbn [fst snd]. split_and!; try done.
  intros env2 cuFunc2 st2 H2.
  pose proof (queue_of_init _ _ _ _ Hi1 H2) as [Hq Hh].
  pose proof (init_success _ _ _ _ Hi1 H2) as
    (_ & _ & _ & _ & _ & _ & _ & Hrm & _).
  unfold mca_common_cuda_register_mca_variables in Hrm.
  rewrite Hreg1, Hr1 in Hrm. rewrite Hrm in Hh. rewrite app_nil_r in Hh.
  split_and!; try done. by rewrite Hh, Hlog1.
Qed.

Lemma init_without_context_drops_queue_witness :
  let st := register_all cuFunc_ok reqs_twice st_boot in
  let st1 := (mca_common_cuda_init env_ok cuFunc_no_context st).2 in
  (mca_common_cuda_init env_ok cuFunc_no_context st).1 = OMPI_ERROR /\
  common_cuda_initialized st1 = false /\
  mca_common_cuda_enabled st1 = false /\
  mca_common_cuda_register_memory st1 = false /\
  common_cuda_memory_registrations st1 = common_cuda_memory_registrations st /\
  driver_log st1 = driver_log st /\
  forall env2 cuFunc2 st2,
    mca_common_cuda_init env2 cuFunc2 st1 = (OMPI_SUCCESS, st2) ->
    mca_common_cuda_register_memory st2 = false /\
    common_cuda_memory_registrations st2 = [] /\
    host_registrations (driver_log st2) = host_registrations (driver_log st).
Proof.
  apply (init_without_context_drops_queue env_ok cuFunc_no_context
           (register_all cuFunc_ok reqs_twice st_boot));
    [reflexivity | reflexivity | reflexivity | left; reflexivity].
Defined.

Lemma setup_pool_params d env cuFunc k st ok st' :
  setup_pool d env cuFunc k st = (ok, st') -> same_params st st'.
Proof.
  unfold setup_pool. intros H.
  destruct (malloc_ok env (2 * k)); cbn [negb] in H;
    [|injection H as _ <-; apply same_params_set_pool].
  destruct create_events as [[ok' arr] st2] eqn:E.
  apply create_events_params in E.
  assert (Hp : forall p q, same_params st (set_pool d p (set_pool d q st2))).
  { intros p q. eapply same_params_trans; [apply same_params_set_pool|].
    eapply same_params_trans; [exact E|].
    eapply same_params_trans; apply same_params_set_pool. }
  destruct ok'; cbn [negb] in H.
  - destruct (malloc_ok env (2 * k + 1)); cbn [negb] in H; injection H as _ <-.
    + apply Hp.
    + eapply same_params_trans; [apply same_params_set_pool|].
      eapply same_params_trans; [exact E|apply same_params_set_pool].
  - injection H as _ <-.
    eapply same_params_trans; [apply same_params_set_pool|].
    eapply same_params_trans; [exact E|apply same_params_set_pool].
Qed.

(** X5 ([mca_common_cuda_init]).  The function returns [OMPI_SUCCESS] or
    [OMPI_ERROR] and nothing else.  Of its error returns only the one for a
    driver library that cannot be loaded is final: it marks the code
    initialized and turns CUDA support off.  After every other error (no
    context, a failed allocation, a failed event or stream creation) the
    code is still uninitialized with support on, so the next call runs the
    initialization again. *)
Theorem init_error_final_only_without_library env cuFunc st :
  ompi_mpi_cuda_support st = true ->
  common_cuda_initialized st = false ->
  let r := mca_common_cuda_init env cuFunc st in
  (r.1 = OMPI_SUCCESS \/ r.1 = OMPI_ERROR) /\
  (r.1 = OMPI_ERROR ->
   (common_cuda_initialized r.2 = true <-> load_libcuda env <> 0) /\
   (ompi_mpi_cuda_support r.2 = false <-> load_libcuda env <> 0)).
Proof.
  intros Hs Hi. cbn zeta. unfold mca_common_cuda_init. rewrite Hs, Hi. cbn [negb].
  set (st0 := mca_common_cuda_register_mca_variables (mca env) st).
  assert (H0 : common_cuda_initialized st0 = false /\ ompi_mpi_cuda_support st0 = true).
  { subst st0. unfold mca_common_cuda_register_mca_variables. by case_match. }
  destruct H0 as [Hi0 Hs0].
  destruct (Z.eqb_spec (load_libcuda env) 0) as [Hl|Hl]; cbn [negb].
  2: { cbn. split; [by right|]. done. }
  assert (Hend : forall st1,
           common_cuda_initialized st1 = false /\ ompi_mpi_cuda_support st1 = true ->
           ((OMPI_ERROR, st1).1 = OMPI_SUCCESS \/ (OMPI_ERROR, st1).1 = OMPI_ERROR) /\
           ((OMPI_ERROR, st1).1 = OMPI_ERROR ->
            (common_cuda_initialized (OMPI_ERROR, st1).2 = true <-> load_libcuda env <> 0) /\
            (ompi_mpi_cuda_support (OMPI_ERROR, st1).2 = false <-> load_libcuda env <> 0))).
  { intros st1 [H1 H2]. cbn [fst snd]. rewrite H1, H2.
    split; [by right|]. intros _. split; split; done. }
  destruct (cuCtxGetCurrent cuFunc) as [res cuContext].
  match goal with |- context [setup_pool IPC env cuFunc 0 ?s] => set (st1 := s) end.
  assert (P1 : common_cuda_initialized st1 = false /\ ompi_mpi_cuda_support st1 = true).
  { subst st1. destruct (is_success res); cbn [negb]; [|done].
    by destruct (cuContext =? NULL). }
  destruct (mca_common_cuda_enabled st1); cbn [negb]; [|by apply Hend].
  assert (Hfrom : forall st2, same_params st1 st2 ->
            common_cuda_initialized st2 = false /\ ompi_mpi_cuda_support st2 = true).
  { intros st2 (Q1 & Q2 & _). destruct P1. by rewrite Q1, Q2. }
  destruct (setup_pool IPC env cuFunc 0 st1) as [ok2 st2] eqn:E2.
  apply setup_pool_params in E2.
  destruct ok2; [|by apply Hend, Hfrom].
  destruct (setup_pool DTOH env cuFunc 1 st2) as [ok3 st3] eqn:E3.
  apply setup_pool_params in E3.
  pose proof (same_params_trans _ _ _ E2 E3) as E13.
  destruct ok3; [|by apply Hend, Hfrom].
  destruct (setup_pool HTOD env cuFunc 2 st3) as [ok4 st4] eqn:E4.
  apply setup_pool_params in E4.
  pose proof (same_params_trans _ _ _ E13 E4) as E14.
  destruct ok4; [|by apply Hend, Hfrom].
  pose proof (drain_registrations_params
                (length (common_cuda_memory_registrations st4)) st4) as E5.
  set (st5 := drain_registrations _ st4) in *.
  pose proof (same_params_trans _ _ _ E14 E5) as E15.
  destruct (create_stream IPC cuFunc 0 st5) as [ok6 st6] eqn:E6.
  apply create_stream_params in E6.
  pose proof (same_params_trans _ _ _ E15 E6) as E16.
  destruct ok6; [|by apply Hend, Hfrom].
  destruct (create_stream DTOH cuFunc 1 st6) as [ok7 st7] eqn:E7.
  apply create_stream_params in E7.
  pose proof (same_params_trans _ _ _ E16 E7) as E17.
  destruct ok7; [|by apply Hend, Hfrom].
  destruct (create_stream HTOD cuFunc 2 st7) as [ok8 st8] eqn:E8.
  apply create_stream_params in E8.
  pose proof (same_params_trans _ _ _ E17 E8) as E18.
  destruct ok8; [|by apply Hend, Hfrom].
  cbn [fst snd]. split; [by left|]. done.
Qed.

Lemma init_error_final_only_without_library_witness :
  let r := mca_common_cuda_init env_ok cuFunc_no_context st_boot in
  (r.1 = OMPI_SUCCESS \/ r.1 = OMPI_ERROR) /\
  (r.1 = OMPI_ERROR ->
   (common_cuda_initialized r.2 = true <-> load_libcuda env_ok <> 0) /\
   (ompi_mpi_cuda_support r.2 = false <-> load_libcuda env_ok <> 0)).
Proof.
  apply (init_error_final_only_without_library env_ok cuFunc_no_context st_boot);
    reflexivity.
Defined.

(** A retry after a missing context that succeeds, on the queue of
    [reqs_twice]: nothing reaches the driver. *)
Example retry_after_missing_context :
  let st := register_all cuFunc_ok reqs_twice st_boot in
  let st1 := (mca_common_cuda_init env_ok cuFunc_no_context st).2 in
  let r := mca_common_cuda_init env_ok cuFunc_ok st1 in
  length (common_cuda_memory_registrations st1) = 2%nat /\
  r.1 = OMPI_SUCCESS /\
  common_cuda_memory_registrations r.2 = [] /\
  host_registrations (driver_log r.2) = [].
Proof. vm_compute. split_and!; reflexivity. Qed.

(** ** Registration of host memory *)

(** X6 ([mca_common_cuda_register_mca_variables]).  The variables are
    registered once: a second call changes nothing, whatever values the
    variable system would assign then. *)
Theorem mca_variables_registered_once m1 m2 st :
  let st1 := mca_common_cuda_register_mca_variables m1 st in
  registered st1 = true /\
  mca_common_cuda_register_mca_variables m2 st1 = st1.
Proof.
  unfold mca_common_cuda_register_mca_variables.
  destruct (registered st) eqn:E; cbn; by rewrite ?E.
Qed.

(** X7 ([mca_common_cuda_register]).  After the initialization a request is
    never queued.  With CUDA enabled and registration on, each request
    reaches [cuMemHostRegister] at once, in call order; otherwise the
    requests are dropped without a driver call. *)
Theorem register_after_init_is_immediate cuFunc reqs st :
  common_cuda_initialized st = true ->
  let st' := register_all cuFunc reqs st in
  common_cuda_memory_registrations st' = common_cuda_memory_registrations st /\
  driver_log st' =
    driver_log st ++
    (if mca_common_cuda_enabled st && mca_common_cuda_register_memory st
     then map (fun r => MemHostRegister r.1 r.2) (regions reqs) else []) /\
  (forall d, pool d st' = pool d st) /\
  same_params st st'.
Proof.
  intros Hi. cbn zeta. revert st Hi.
  induction reqs as [|r reqs IH]; intros st Hi.
  { cbn. split_and!; try done; try apply same_params_refl.
    case_match; by rewrite app_nil_r. }
  cbn [register_all foldl regions map].
  change (foldl _ ?s reqs) with (register_all cuFunc reqs s).
  unfold mca_common_cuda_register at 1 2 3 4. rewrite Hi. cbn [negb].
  destruct (mca_common_cuda_enabled st && mca_common_cuda_register_memory st) eqn:E.
  - destruct (IH (log (MemHostRegister r.1.1 r.1.2) st) Hi) as (Q & L & P & S).
    cbn [mca_common_cuda_enabled mca_common_cuda_register_memory log] in L.
    rewrite E in L. split_and!.
    + by rewrite Q.
    + rewrite L. cbn [driver_log log]. rewrite <- app_assoc. reflexivity.
    + intros d. rewrite P. by destruct d.
    + eapply same_params_trans; [apply same_params_log|exact S].
  - destruct (IH st Hi) as (Q & L & P & S). rewrite E in L. by split_and!.
Qed.

Lemma register_after_init_is_immediate_witness :
  let st' := register_all cuFunc_ok reqs_twice st_cap2 in
  common_cuda_memory_registrations st' = common_cuda_memory_registrations st_cap2 /\
  driver_log st' =
    driver_log st_cap2 ++
    (if mca_common_cuda_enabled st_cap2 && mca_common_cuda_register_memory st_cap2
     then map (fun r => MemHostRegister r.1 r.2) (regions reqs_twice) else []) /\
  (forall d, pool d st' = pool d st_cap2) /\
  same_params st_cap2 st'.
Proof.
  apply (register_after_init_is_immediate cuFunc_ok reqs_twice st_cap2).
  reflexivity.
Defined.

(** ** The event pools *)

Lemma step_effect cuFunc c st o st' :
  step cuFunc c st = Some (o, st') ->
  cuda_event_max st' = cuda_event_max st /\
  (forall d, d <> call_direction c -> pool d st' = pool d st) /\
  (pool (call_direction c) st' = pool (call_direction c) st \/
   (exists frag, pool (call_direction c) st'
                 = bump_avail (cuda_event_max st) frag (pool (call_direction c) st)) \/
   pool (call_direction c) st'
   = bump_used (cuda_event_max st) (pool (call_direction c) st) \/
   (exists frag, pool (call_direction c) st'
                 = bump_used (cuda_event_max st)
                     (bump_avail (cuda_event_max st) frag
                        (pool (call_direction c) st)))).
Proof.
  destruct c as [fuel dst src amt frag|frag|frag|d frag0]; cbn [step call_direction].
  - destruct mca_common_cuda_memcpy as [[[rc done] st1]|] eqn:E; [|discriminate].
    intros [= <- <-]. apply memcpy_effect in E as (Hm & _ & Ho & H).
    split_and!; try done.
    destruct H as [[_ H]|[(_ & _ & _ & H)|[(_ & _ & _ & _ & H)|(_ & _ & _ & p1 & [_ ->] & H)]]];
      eauto.
  - destruct mca_common_cuda_record_dtoh_event as [rc st1] eqn:E.
    intros [= <- <-]. apply record_event_effect in E as (Hm & _ & Ho & H).
    split_and!; try done. destruct H as [[_ [_ H]]|[_ H]]; eauto.
  - destruct mca_common_cuda_record_htod_event as [rc st1] eqn:E.
    intros [= <- <-]. apply record_event_effect in E as (Hm & _ & Ho & H).
    split_and!; try done. destruct H as [[_ [_ H]]|[_ H]]; eauto.
  - assert (E : exists rc frag st1, progress_one d cuFunc frag0 st = (rc, frag, st1) /\
        (let '(rc, frag, st') :=
           match d with
           | IPC => progress_one_cuda_ipc_event cuFunc frag0 st
           | DTOH => progress_one_cuda_dtoh_event cuFunc frag0 st
           | HTOD => progress_one_cuda_htod_event cuFunc frag0 st
           end in Some (Polled d rc frag, st')) = Some (Polled d rc frag, st1)).
    { destruct (progress_one d cuFunc frag0 st) as [[rc frag] st1] eqn:E.
      exists rc, frag, st1. split; [done|].
      destruct d; unfold progress_one_cuda_ipc_event, progress_one_cuda_dtoh_event,
        progress_one_cuda_htod_event; by rewrite E. }
    destruct E as (rc & frag & st1 & E & ->). intros [= <- <-].
    apply progress_one_effect in E as (Hm & _ & Ho & H).
    split_and!; try done. destruct H as [(_ & _ & _ & H)|[_ H]]; eauto.
Qed.

(** X8 ([mca_common_cuda_memcpy], the record functions and the progress
    functions).  A call works on the pool of its own direction only: the
    other two pools are left exactly as they were.  No call writes an event
    array or the capacity, so the events created by the initialization are
    the ones used for the whole run. *)
Theorem call_touches_one_pool cuFunc c st o st' :
  step cuFunc c st = Some (o, st') ->
  (forall d, d <> call_direction c -> pool d st' = pool d st) /\
  (forall d, event_array (pool d st') = event_array (pool d st)) /\
  cuda_event_max st' = cuda_event_max st.
Proof.
  intros H. apply step_effect in H as (Hm & Ho & H). split_and!; try done.
  intros d. destruct (decide (d = call_direction c)) as [->|Hne].
  - destruct H as [->|[[frag ->]|[->|[frag ->]]]]; reflexivity.
  - by rewrite Ho.
Qed.

Lemma call_touches_one_pool_witness :
  let st' := set_pool DTOH (bump_avail 2 11 (empty_pool2 102))
               (log (EventRecord 102 501) st_cap2) in
  (forall d, d <> call_direction (Call_record_dtoh 11) -> pool d st' = pool d st_cap2) /\
  (forall d, event_array (pool d st') = event_array (pool d st_cap2)) /\
  cuda_event_max st' = cuda_event_max st_cap2.
Proof.
  intros st'.
  apply (call_touches_one_pool cuFunc_ok (Call_record_dtoh 11) st_cap2
           (Recorded DTOH 11 OMPI_SUCCESS None) st').
  reflexivity.
Defined.

(** X9 ([mca_common_cuda_memcpy]).  In the synchronous mode a copy whose
    wait ends on a driver error returns [OMPI_ERROR] after the slot was
    taken: the descriptor stays stored, [num_used] stays one higher and
    [first_avail] stays advanced, so the event is still the oldest one in
    use when the IPC pool is polled next. *)
Theorem sync_copy_error_keeps_slot fuel cuFunc dst src amt frag st k :
  mca_common_cuda_async st = 0 ->
  num_used (pool IPC st) <> cuda_event_max st ->
  is_success (cuMemcpyAsync cuFunc dst src amt (ipcStream st)) = true ->
  is_success (cuEventRecord cuFunc
                (aget (event_array (pool IPC st)) (first_avail (pool IPC st)))
                (ipcStream st)) = true ->
  wait_event fuel cuFunc (head_event IPC st) 1
    (cuEventQuery cuFunc 0%nat (head_event IPC st)) = (Some false, k) ->
  exists st',
    mca_common_cuda_memcpy fuel cuFunc dst src amt frag st
    = Some (OMPI_ERROR, None, st') /\
    pool IPC st' = bump_avail (cuda_event_max st) frag (pool IPC st) /\
    num_used (pool IPC st') = num_used (pool IPC st) + 1 /\
    head_event IPC st' = head_event IPC st.
Proof.
  intros Ha Hn Hc Hr Hw. unfold mca_common_cuda_memcpy, start_copy.
  apply Z.eqb_neq in Hn. rewrite Hn, Ha, Hc, Hr. cbn [negb Z.eqb].
  rewrite pool_set_pool_eq. cbn [bump_avail event_array first_used].
  unfold head_event in Hw. rewrite Hw.
  eexists. split; [reflexivity|].
  rewrite pool_log_queries, pool_set_pool_eq. split_and!; try done.
  unfold head_event. by rewrite pool_log_queries, pool_set_pool_eq.
Qed.

Lemma sync_copy_error_keeps_slot_witness :
  exists st',
    mca_common_cuda_memcpy 5 (cuFunc_query_error 700) 4096 8192 64 21 st_cap2_sync
    = Some (OMPI_ERROR, None, st') /\
    pool IPC st' = bump_avail (cuda_event_max st_cap2_sync) 21 (pool IPC st_cap2_sync) /\
    num_used (pool IPC st') = num_used (pool IPC st_cap2_sync) + 1 /\
    head_event IPC st' = head_event IPC st_cap2_sync.
Proof.
  apply (sync_copy_error_keeps_slot 5 (cuFunc_query_error 700) 4096 8192 64 21
           st_cap2_sync 1%nat); try reflexivity. discriminate.
Defined.

Lemma record_event_full d cuFunc frag st :
  num_used (pool d st) = cuda_event_max st ->
  record_event d cuFunc frag st = (OMPI_ERR_OUT_OF_RESOURCE, st).
Proof. intros H. unfold record_event. by rewrite H, Z.eqb_refl. Qed.

Lemma record_event_room d cuFunc frag st :
  num_used (pool d st) <> cuda_event_max st ->
  is_success (cuEventRecord cuFunc
                (aget (event_array (pool d st)) (first_avail (pool d st)))
                (stream d st)) = true ->
  record_event d cuFunc frag st
  = (OMPI_SUCCESS,
     set_pool d (bump_avail (cuda_event_max st) frag (pool d st))
       (log (EventRecord (aget (event_array (pool d st)) (first_avail (pool d st)))
                         (stream d st)) st)).
Proof.
  intros H Hr. unfold record_event. apply Z.eqb_neq in H. by rewrite H, Hr.
Qed.

(** X10 ([mca_common_cuda_record_dtoh_event],
    [mca_common_cuda_record_htod_event]).  With a driver that accepts every
    event record, a pool takes exactly as many descriptors as it has free
    slots: of a series of record calls the first
    [cuda_event_max - num_used] return [OMPI_SUCCESS] and are queued in call
    order behind the descriptors already there, and every later one returns
    [OMPI_ERR_OUT_OF_RESOURCE] and is not stored. *)
Theorem pool_accepts_until_full d cuFunc frags st :
  pool_inv (cuda_event_max st) (pool d st) ->
  (forall ev s, is_success (cuEventRecord cuFunc ev s) = true) ->
  let free := Z.to_nat (cuda_event_max st - num_used (pool d st)) in
  let r := record_all d cuFunc frags st in
  r.1 = replicate (min (length frags) free) OMPI_SUCCESS
        ++ replicate (length frags - free) OMPI_ERR_OUT_OF_RESOURCE /\
  contents (cuda_event_max st) (pool d r.2)
  = contents (cuda_event_max st) (pool d st) ++ take free frags.
Proof.
  intros Hinv Hok. cbn zeta. revert st Hinv.
  induction frags as [|frag frags IH]; intros st Hinv.
  { cbn. by rewrite take_nil, app_nil_r. }
  pose proof (pool_inv_bound _ _ Hinv) as Hb.
  cbn [record_all length].
  destruct (decide (num_used (pool d st) = cuda_event_max st)) as [Hfull|Hroom].
  - rewrite record_event_full by done.
    specialize (IH st Hinv).
    destruct (record_all d cuFunc frags st) as [rcs st2]. cbn [fst snd] in *.
    destruct IH as [-> ->].
    replace (Z.to_nat (cuda_event_max st - num_used (pool d st))) with 0%nat by lia.
    rewrite !Nat.min_0_r, !Nat.sub_0_r. by cbn.
  - rewrite record_event_room by done.
    set (st1 := set_pool d _ _).
    assert (Hm : cuda_event_max st1 = cuda_event_max st) by done.
    assert (Hp : pool d st1 = bump_avail (cuda_event_max st) frag (pool d st))
      by apply pool_set_pool_eq.
    destruct (inv_push (cuda_event_max st) frag (pool d st) (pool d st1) Hinv)
      as [Hinv1 Hc1]; [by split|].
    specialize (IH st1). rewrite Hm in IH. specialize (IH Hinv1).
    destruct (record_all d cuFunc frags st1) as [rcs st2]. cbn [fst snd] in *.
    destruct IH as [-> ->]. rewrite Hc1, Hp. cbn [num_used bump_avail].
    destruct (Z.to_nat (cuda_event_max st - num_used (pool d st))) as [|free] eqn:Ef;
      [lia|].
    replace (Z.to_nat (cuda_event_max st - (num_used (pool d st) + 1))) with free by lia.
    cbn [take Nat.min Nat.sub replicate]. split; [done|].
    by rewrite <- app_assoc.
Qed.

Lemma pool_accepts_until_full_witness :
  let free := Z.to_nat (cuda_event_max st_one - num_used (pool DTOH st_one)) in
  let r := record_all DTOH cuFunc_ok [12; 13; 14] st_one in
  r.1 = replicate (min (length [12; 13; 14]) free) OMPI_SUCCESS
        ++ replicate (length [12; 13; 14] - free) OMPI_ERR_OUT_OF_RESOURCE /\
  contents (cuda_event_max st_one) (pool DTOH r.2)
  = contents (cuda_event_max st_one) (pool DTOH st_one) ++ take free [12; 13; 14].
Proof.
  apply (pool_accepts_until_full DTOH cuFunc_ok [12; 13; 14] st_one).
  - right. vm_compute. split_and!; try reflexivity; by intros ?.
  - reflexivity.
Defined.

(** ** The memory-handle functions *)

(** X11 ([cuda_getmemhandle]).  The function returns [OMPI_SUCCESS] exactly
    when the three driver calls succeed, and [OMPI_ERROR] otherwise.  A
    failure of one of the first two calls leaves the registration untouched.
    Once the address range is known the registration holds the real base of
    the allocation, the handle, and as bound the last byte of the range;
    this is so also when the event record then fails and [OMPI_ERROR] is
    returned.  The event and its handle are never written. *)
Theorem getmemhandle_stores_range t base size newreg :
  let r := cuda_getmemhandle t base size newreg in
  let got := is_success (cuIpcGetMemHandle t base).1 in
  let ranged := is_success (cuMemGetAddressRange t base).1.1 in
  let pbase := (cuMemGetAddressRange t base).1.2 in
  let psize := (cuMemGetAddressRange t base).2 in
  (r.1.1 = OMPI_SUCCESS <->
   got = true /\ ranged = true /\ is_success (cuEventRecord0 t (event newreg)) = true) /\
  (r.1.1 = OMPI_SUCCESS \/ r.1.1 = OMPI_ERROR) /\
  (got && ranged = false -> r.1.2 = newreg) /\
  (got && ranged = true ->
   reg_base r.1.2 = pbase /\
   memHandle r.1.2 = (cuIpcGetMemHandle t base).2 /\
   reg_bound r.1.2 = ptr_add pbase (psize - 1) /\
   (0 <= pbase -> 0 < psize -> pbase + psize <= 2 ^ 64 ->
    reg_bound r.1.2 - reg_base r.1.2 + 1 = psize)) /\
  event r.1.2 = event newreg /\
  evtHandle r.1.2 = evtHandle newreg /\
  reg_alloc_base r.1.2 = reg_alloc_base newreg.
Proof.
  cbn zeta. unfold cuda_getmemhandle.
  destruct (cuIpcGetMemHandle t base) as [r1 handle].
  destruct (cuMemGetAddressRange t base) as [[r2 pbase] psize]. cbn [fst snd].
  destruct (is_success r1); cbn [negb andb].
  2: { split_and!; try done; [|by right]. split; [done|]. by intros (? & _). }
  destruct (is_success r2); cbn [negb].
  2: { split_and!; try done; [|by right]. split; [done|]. by intros (_ & ? & _). }
  cbn [event]. destruct (is_success (cuEventRecord0 t (event newreg)));
    cbn [negb fst snd reg_base reg_bound memHandle event evtHandle reg_alloc_base].
  - split_and!; try done; [by left|]. intros _. split_and!; try done.
    intros H0 H1 H2. unfold ptr_add. rewrite Z.mod_small by lia. lia.
  - split_and!; try done; [|by right|].
    + split; [done|]. by intros (_ & _ & ?).
    + intros _. split_and!; try done.
      intros H0 H1 H2. unfold ptr_add. rewrite Z.mod_small by lia. lia.
Qed.

(** X12 ([cuda_openmemhandle]).  The return value tells the three outcomes
    of [cuIpcOpenMemHandle] apart: [OMPI_ERR_WOULD_BLOCK] exactly for
    [CUDA_ERROR_ALREADY_MAPPED], [OMPI_SUCCESS] exactly for success,
    [OMPI_ERROR] for every other result.  One driver call is made, on the
    handle of the registration, and the address the driver left is in
    [alloc_base] in every case; the rest of the registration is as it
    was. *)
Theorem openmemhandle_return_codes t base size newreg :
  let r := cuda_openmemhandle t base size newreg in
  let result := (cuIpcOpenMemHandle t (memHandle newreg)).1 in
  (r.1.1 = OMPI_ERR_WOULD_BLOCK <-> result = CUDA_ERROR_ALREADY_MAPPED) /\
  (r.1.1 = OMPI_SUCCESS <-> result = CUDA_SUCCESS) /\
  (r.1.1 = OMPI_ERROR <->
   result <> CUDA_SUCCESS /\ result <> CUDA_ERROR_ALREADY_MAPPED) /\
  r.2 = [IpcOpenMemHandle (memHandle newreg)] /\
  reg_alloc_base r.1.2 = (cuIpcOpenMemHandle t (memHandle newreg)).2 /\
  reg_base r.1.2 = reg_base newreg /\
  reg_bound r.1.2 = reg_bound newreg /\
  memHandle r.1.2 = memHandle newreg.
Proof.
  cbn zeta. unfold cuda_openmemhandle.
  destruct (cuIpcOpenMemHandle t (memHandle newreg)) as [result addr]. cbn [fst snd].
  destruct (decide (result = CUDA_ERROR_ALREADY_MAPPED)) as [->|Hne].
  { cbn. split_and!; try done; split; try done; by intros []. }
  destruct result as [| | |code]; cbn [is_success negb fst snd];
    split_and!; try done; split; try done; try (by intros []).
Qed.

Lemma memcmp_zero_iff n a b :
  length a = n -> length b = n -> (memcmp a b n = 0 <-> a = b).
Proof.
  revert a b. induction n as [|n IH]; intros a b Ha Hb.
  { by destruct a, b. }
  destruct a as [|x a], b as [|y b]; try done. cbn [memcmp].
  destruct (x <? y) eqn:E1; zbool. { split; [done|intros [= -> _]; lia]. }
  destruct (y <? x) eqn:E2; zbool. { split; [done|intros [= -> _]; lia]. }
  rewrite IH by (cbn in *; lia).
  split; [intros ->; f_equal; lia|by intros [= _ ->]].
Qed.

(** X13 ([mca_common_cuda_memhandle_matches]).  For two registrations with
    handles of 64 bytes the result is 1 exactly when the handles are equal
    byte for byte and 0 otherwise; no other field of the registrations is
    looked at, and the order of the two arguments does not matter. *)
Theorem memhandle_matches_iff_equal new_reg old_reg :
  length (memHandle new_reg) = 64%nat ->
  length (memHandle old_reg) = 64%nat ->
  (mca_common_cuda_memhandle_matches new_reg old_reg = 1
   <-> memHandle new_reg = memHandle old_reg) /\
  (mca_common_cuda_memhandle_matches new_reg old_reg = 0
   <-> memHandle new_reg <> memHandle old_reg) /\
  mca_common_cuda_memhandle_matches new_reg old_reg
  = mca_common_cuda_memhandle_matches old_reg new_reg.
Proof.
  intros Hn Ho. unfold mca_common_cuda_memhandle_matches.
  pose proof (memcmp_zero_iff 64 _ _ Hn Ho) as H.
  pose proof (memcmp_zero_iff 64 _ _ Ho Hn) as H'.
  destruct (memcmp (memHandle new_reg) (memHandle old_reg) 64 =? 0) eqn:E;
    destruct (memcmp (memHandle old_reg) (memHandle new_reg) 64 =? 0) eqn:E';
    zbool; split_and!; try done; intuition congruence.
Qed.

Lemma memhandle_matches_iff_equal_witness :
  (mca_common_cuda_memhandle_matches reg_empty reg_empty = 1
   <-> memHandle reg_empty = memHandle reg_empty) /\
  (mca_common_cuda_memhandle_matches reg_empty reg_empty = 0
   <-> memHandle reg_empty <> memHandle reg_empty) /\
  mca_common_cuda_memhandle_matches reg_empty reg_empty
  = mca_common_cuda_memhandle_matches reg_empty reg_empty.
Proof.
  apply (memhandle_matches_iff_equal reg_empty reg_empty); reflexivity.
Defined.

(** ** The datatype hooks *)


End CudaMore.

(* ===================================================================== *)
(** * Further properties of the uGNI component                            *)
(* ===================================================================== *)

Module UgniMore.
Import Ugni UgniFacts.

(** ** Flushing the failed fragments *)

Lemma retry_failed_loop_spec count m front back :
  failed_frags m = front ++ back -> length front = count ->
  let m' := retry_failed_loop count m in
  failed_frags m' = back /\
  actions m' = actions m ++ map (fun frag => Callback frag OMPI_SUCCESS) front /\
  ep_wait_list m' = ep_wait_list m /\
  wait_listed m' = wait_listed m /\
  tries m' = tries m.
Proof.
  revert m front. induction count as [|count IH]; intros m front Hl Hlen.
  { destruct front; [|done]. cbn. by rewrite app_nil_r. }
  destruct front as [|frag front]; [done|]. cbn [retry_failed_loop].
  rewrite Hl. cbn [app].
  destruct (IH (act (Callback frag OMPI_SUCCESS) (set_failed_frags (front ++ back) m))
              front) as (I1 & I2 & I3 & I4 & I5); [done|cbn in Hlen; lia|].
  split_and!; try done. rewrite I2. cbn. by rewrite <- app_assoc.
Qed.

(** X15 ([mca_btl_ugni_retry_failed]).  One call hands every fragment that
    is on the failed list at entry to its callback with status
    [OMPI_SUCCESS], oldest first, each once, and returns their number.  The
    callbacks being the only code that can put a fragment back, the list is
    empty afterwards in the model, where a callback is recorded and does not
    touch the list; the wait list, the flags and the try counts are left as
    they were. *)
Theorem retry_failed_flushes_in_order m :
  let r := mca_btl_ugni_retry_failed m in
  r.1 = Z.of_nat (length (failed_frags m)) /\
  failed_frags r.2 = [] /\
  actions r.2
  = actions m ++ map (fun frag => Callback frag OMPI_SUCCESS) (failed_frags m) /\
  ep_wait_list r.2 = ep_wait_list m /\
  wait_listed r.2 = wait_listed m /\
  tries r.2 = tries m.
Proof.
  cbn zeta. unfold mca_btl_ugni_retry_failed. cbn [fst snd]. split; [done|].
  apply (retry_failed_loop_spec _ m (failed_frags m) []); [by rewrite app_nil_r|done].
Qed.

(** ** RDMA completions *)

(** X16 ([mca_btl_ugni_progress_rdma]).  An error that the hardware reports
    as not recoverable ends the transfer at once: the fragment's callback
    gets [OMPI_ERROR] and the function returns [OMPI_ERROR], whatever the
    number of tries so far and whatever [rdma_max_retries] is; nothing is
    reposted. *)
Theorem rdma_unrecoverable_error_gives_up rc2 c env frag m :
  unrecoverable_error_of env frag ->
  mca_btl_ugni_progress_rdma rc2 c env m
  = (OMPI_ERROR,
     act (Callback frag OMPI_ERROR) (set_tries frag (tries m frag + 1) m)).
Proof.
  intros (rc & event_data & rc' & E1 & Hnd & Hev & Hover & E2 & Hrc' & Hrec).
  unfold mca_btl_ugni_progress_rdma. rewrite E1, Hnd, Hover, E2, Hrec.
  assert (Hfirst : negb (gni_ok rc) && (event_data =? 0) = false).
  { destruct Hev as [->|Hne]; [done|]. apply Z.eqb_neq in Hne. rewrite Hne.
    by rewrite andb_false_r. }
  rewrite Hfirst. cbn [orb Z.eqb].
  destruct Hrc' as [->|[-> Hst]]; cbn; [|rewrite Hst; cbn]; by rewrite orb_true_r.
Qed.

Lemma rdma_unrecoverable_error_gives_up_witness :
  mca_btl_ugni_progress_rdma rc_to_ompi component_default (env_rdma_fatal 7) module_idle
  = (OMPI_ERROR,
     act (Callback 7 OMPI_ERROR) (set_tries 7 (tries module_idle 7 + 1) module_idle)).
Proof.
  apply (rdma_unrecoverable_error_gives_up rc_to_ompi component_default
           (env_rdma_fatal 7) 7 module_idle).
  exists GNI_RC_SUCCESS, 1, GNI_RC_TRANSACTION_ERROR.
  split_and!; try reflexivity; [by left | by left].
Defined.

(** X17 ([mca_btl_ugni_progress_rdma]).  One call handles at most one
    fragment: it adds at most one action, a callback or a repost of the
    fragment of the completed descriptor, changes the try count of that
    fragment only, by at most one, and leaves the failed list, the wait list
    and the flags alone.  A repost comes with return value 0, status
    [OMPI_SUCCESS] and a try count, just incremented, that is still below
    [rdma_max_retries]. *)
Theorem rdma_handles_one_fragment rc2 c env m :
  let r := mca_btl_ugni_progress_rdma rc2 c env m in
  let frag := (GetCompleted env).2 in
  (exists new, actions r.2 = actions m ++ new /\
     (new = [] \/ (exists s, new = [Callback frag s]) \/
      (new = [Repost frag OMPI_SUCCESS] /\ r.1 = 0 /\
       tries r.2 frag = tries m frag + 1 /\
       tries r.2 frag < rdma_max_retries c))) /\
  failed_frags r.2 = failed_frags m /\
  ep_wait_list r.2 = ep_wait_list m /\
  wait_listed r.2 = wait_listed m /\
  (forall f, f <> frag -> tries r.2 f = tries m f) /\
  tries m frag <= tries r.2 frag <= tries m frag + 1.
Proof.
  cbn zeta. unfold mca_btl_ugni_progress_rdma.
  destruct (CqGetEvent env) as [rc event_data].
  destruct (GetCompleted env) as [rc' frag]. cbn [snd].
  assert (Hnone : forall z,
    (exists new, actions (z, m).2 = actions m ++ new /\
       (new = [] \/ (exists s, new = [Callback frag s]) \/
        (new = [Repost frag OMPI_SUCCESS] /\ (z, m).1 = 0 /\
         tries (z, m).2 frag = tries m frag + 1 /\
         tries (z, m).2 frag < rdma_max_retries c))) /\
    failed_frags (z, m).2 = failed_frags m /\
    ep_wait_list (z, m).2 = ep_wait_list m /\
    wait_listed (z, m).2 = wait_listed m /\
    (forall f, f <> frag -> tries (z, m).2 f = tries m f) /\
    tries m frag <= tries (z, m).2 frag <= tries m frag + 1).
  { intros z. cbn [fst snd]. split_and!; try done; try lia.
    exists []. split; [by rewrite app_nil_r|by left]. }
  destruct (gni_not_done rc); [apply Hnone|].
  destruct (negb (gni_ok rc) && (event_data =? 0) || CQ_OVERRUN env event_data);
    [apply Hnone|].
  destruct (negb (gni_ok rc') && negb (gni_transaction_error rc')); [apply Hnone|].
  destruct (negb (gni_ok rc') || negb (CQ_STATUS_OK env event_data)).
  - destruct (tries m frag + 1 >=? rdma_max_retries c) eqn:Ht; zbool; cbn [orb].
    + cbn [fst snd act set_tries tries actions failed_frags ep_wait_list wait_listed].
      rewrite decide_True by done. split_and!; try done; try lia.
      * eexists. split; [reflexivity|]. right; left. by eexists.
      * intros f Hf. by rewrite decide_False.
    + destruct (CqErrorRecoverable env event_data =? 0);
        cbn [fst snd act set_tries tries actions failed_frags ep_wait_list wait_listed];
        rewrite decide_True by done; split_and!; try done; try lia.
      * eexists. split; [reflexivity|]. right; left. by eexists.
      * intros f Hf. by rewrite decide_False.
      * eexists. split; [reflexivity|]. right; right. split_and!; try done; lia.
      * intros f Hf. by rewrite decide_False.
  - cbn [fst snd act tries actions failed_frags ep_wait_list wait_listed].
    split_and!; try done; try lia.
    eexists. split; [reflexivity|]. right; left. by eexists.
Qed.

(** ** Datagrams *)

(** X18 ([mca_btl_ugni_progress_datagram]).  The wildcard datagram is
    posted again exactly when the probe found it and the wait for it
    succeeded.  When the probe finds nothing, or the wait fails, the
    function does nothing to the module: no endpoint is progressed and a
    wildcard datagram that was consumed is not reposted.  The mailbox of an
    endpoint is processed only for the sender of the datagram and only when
    that endpoint is connected. *)
Theorem datagram_reposts_wildcard rc2 mask wild env m :
  let r := mca_btl_ugni_progress_datagram rc2 mask wild env m in
  let arrived :=
    gni_ok (PostDataProbeById env).1 && gni_ok (EpPostDataWaitById env).1 in
  exists new, actions r.2 = actions m ++ new /\
    (WildcardPost ∈ new <->
     arrived = true /\ is_wildcard mask wild (PostDataProbeById env).2 = true) /\
    (arrived = false -> new = [] /\ r.2 = m) /\
    (arrived = true -> head new = Some (ConnectProgress (EpPostDataWaitById env).2)) /\
    (forall ep, SmsgProcess ep ∈ new <->
       arrived = true /\ ep_connected env = true /\ ep = (EpPostDataWaitById env).2) /\
    (gni_ok (PostDataProbeById env).1 = false -> r.1 = 0).
Proof.
  cbn zeta. unfold mca_btl_ugni_progress_datagram.
  destruct (PostDataProbeById env) as [grc datagram_id].
  destruct (EpPostDataWaitById env) as [grc' remote_id]. cbn [fst snd].
  destruct (gni_ok grc); cbn [negb andb].
  2: { exists []. rewrite app_nil_r. split_and!; try done.
       - rewrite elem_of_nil. intuition congruence.
       - intros ep. rewrite elem_of_nil. intuition congruence. }
  destruct (gni_ok grc'); cbn [negb].
  2: { exists []. rewrite app_nil_r. split_and!; try done.
       - rewrite elem_of_nil. intuition congruence.
       - intros ep. rewrite elem_of_nil. intuition congruence. }
  destruct (ep_connected env), (is_wildcard mask wild datagram_id);
    cbn [fst snd act actions]; rewrite <- ?app_assoc; cbn [app];
    (eexists; split; [reflexivity|]); split_and!; try done;
    try (intros ep); rewrite ?elem_of_cons, ?elem_of_nil; intuition congruence.
Qed.

(** ** The wait list *)

Lemma sends_app l1 l2 : sends (l1 ++ l2) = sends l1 ++ sends l2.
Proof. unfold sends. by rewrite map_app, concat_app. Qed.

Lemma progress_wait_list_loop_pass env count i m front back :
  sends_keep_list env ->
  ep_wait_list m = front ++ back -> length front = count ->
  let m' := progress_wait_list_loop env count i m in
  ep_wait_list m' = back ++ still_waiting env i front /\
  sends (actions m') = sends (actions m) ++ front /\
  failed_frags m' = failed_frags m /\
  tries m' = tries m.
Proof.
  intros Hkeep. revert i m front back.
  induction count as [|count IH]; intros i m front back Hl Hlen.
  { destruct front; [|done]. cbn. by rewrite !app_nil_r. }
  destruct front as [|ep front]; [done|]. cbn [progress_wait_list_loop].
  rewrite Hl. cbn [app]. specialize (Hkeep i ep) as Hhits.
  destruct (send_wait_list env i ep) as [rc hits] eqn:Es. cbn [snd] in Hhits.
  subst hits. cbn [foldl still_waiting]. rewrite Es. cbn [fst].
  cbn [wait_listed act set_wait_listed]. rewrite decide_True by done.
  cbn [negb]. rewrite andb_true_r.
  destruct (rc =? OMPI_SUCCESS); cbn [negb].
  - match goal with |- context [progress_wait_list_loop env count (S i) ?x] =>
      destruct (IH (S i) x front back) as (I1 & I2 & I3 & I4) end;
      [done|cbn in Hlen; lia|].
    rewrite I1, I2, I3, I4.
    cbn [actions act set_wait_listed set_ep_wait_list failed_frags tries].
    split_and!; try done. rewrite sends_app. cbn. by rewrite <- app_assoc.
  - match goal with |- context [progress_wait_list_loop env count (S i) ?x] =>
      destruct (IH (S i) x front (back ++ [ep])) as (I1 & I2 & I3 & I4) end.
    { cbn. by rewrite <- app_assoc. }
    { cbn in Hlen; lia. }
    rewrite I1, I2, I3, I4.
    cbn [actions act set_wait_listed set_ep_wait_list wait_list_append
         failed_frags tries].
    split_and!; try done.
    + by rewrite <- app_assoc.
    + rewrite !sends_app. cbn. rewrite app_nil_r. by rewrite <- app_assoc.
Qed.

(** X19 ([mca_btl_ugni_progress_wait_list]).  When the sends leave the wait
    list alone, one call takes up every endpoint that is on the list at
    entry exactly once, in list order, and returns their number.  The
    endpoints whose send fails again are put back in the same order and are
    not retried within the call; those whose send goes through are off the
    list. *)
Theorem wait_list_pass_retries_each_once env m :
  sends_keep_list env ->
  let r := mca_btl_ugni_progress_wait_list env m in
  r.1 = Z.of_nat (length (ep_wait_list m)) /\
  ep_wait_list r.2 = still_waiting env 0 (ep_wait_list m) /\
  sends (actions r.2) = sends (actions m) ++ ep_wait_list m /\
  failed_frags r.2 = failed_frags m.
Proof.
  intros Hkeep. cbn zeta. unfold mca_btl_ugni_progress_wait_list. cbn [fst snd].
  destruct (progress_wait_list_loop_pass env (length (ep_wait_list m)) 0 m
              (ep_wait_list m) [] Hkeep) as (H1 & H2 & H3 & _);
    [by rewrite app_nil_r|done|].
  by split_and!.
Qed.

Lemma wait_list_pass_retries_each_once_witness :
  let r := mca_btl_ugni_progress_wait_list env_first_goes module_waiting in
  r.1 = Z.of_nat (length (ep_wait_list module_waiting)) /\
  ep_wait_list r.2 = still_waiting env_first_goes 0 (ep_wait_list module_waiting) /\
  sends (actions r.2) = sends (actions module_waiting) ++ ep_wait_list module_waiting /\
  failed_frags r.2 = failed_frags module_waiting.
Proof.
  apply (wait_list_pass_retries_each_once env_first_goes module_waiting).
  intros i ep. reflexivity.
Defined.

(** The pass of the witness: endpoint 3 leaves the list, endpoint 9 stays. *)
Example wait_list_pass_first_goes :
  ep_wait_list (mca_btl_ugni_progress_wait_list env_first_goes module_waiting).2 = [9].
Proof. reflexivity. Qed.

(** ** Set-up of the component *)

Lemma autoset_smsg_limit_range nprocs :
  0 < autoset_smsg_limit nprocs <= 8192.
Proof. unfold autoset_smsg_limit. zcases. Qed.

Lemma smsg_max_data_plus_header sz align bufsz rc2 nprocs c :
  smsg_max_data (mca_btl_ugni_smsg_setup sz align bufsz rc2 nprocs c).2 + sz
  = ugni_smsg_limit (mca_btl_ugni_smsg_setup sz align bufsz rc2 nprocs c).2.
Proof.
  unfold mca_btl_ugni_smsg_setup.
  destruct (bufsz _ _) as [[] mbox_size]; cbn; lia.
Qed.

(** X20 ([mca_btl_ugni_smsg_setup]).  After the call the smsg limit is not
    0, and [smsg_max_data] is the limit less the size of the send fragment
    header, also when the mailbox size could not be computed; a limit that
    was set is kept.  The credits and the retry limit are not written.  A
    second call changes nothing and returns the same value, even for another
    number of ranks: the limit is selected once. *)
Theorem smsg_setup_selects_once sz align bufsz rc2 nprocs nprocs' c :
  let r := mca_btl_ugni_smsg_setup sz align bufsz rc2 nprocs c in
  ugni_smsg_limit r.2 <> 0 /\
  smsg_max_data r.2 + sz = ugni_smsg_limit r.2 /\
  (ugni_smsg_limit c <> 0 -> ugni_smsg_limit r.2 = ugni_smsg_limit c) /\
  smsg_max_credits r.2 = smsg_max_credits c /\
  rdma_max_retries r.2 = rdma_max_retries c /\
  mca_btl_ugni_smsg_setup sz align bufsz rc2 nprocs' r.2 = r.
Proof.
  cbn zeta. unfold mca_btl_ugni_smsg_setup.
  set (limit := if ugni_smsg_limit c =? 0 then autoset_smsg_limit nprocs
                else ugni_smsg_limit c).
  assert (Hl : limit <> 0).
  { subst limit. destruct (ugni_smsg_limit c =? 0) eqn:E; zbool; [|done].
    pose proof (autoset_smsg_limit_range nprocs). lia. }
  assert (Hk : ugni_smsg_limit c <> 0 -> limit = ugni_smsg_limit c).
  { intros Hc. subst limit. apply Z.eqb_neq in Hc. by rewrite Hc. }
  apply Z.eqb_neq in Hl as Hl'.
  destruct (bufsz limit (smsg_max_credits c)) as [grc mbox_size] eqn:E.
  destruct grc; cbn [fst snd ugni_smsg_limit smsg_max_data smsg_max_credits
                     rdma_max_retries smsg_mbox_size];
    rewrite Hl', E; split_and!; try done; lia.
Qed.

(** X21 ([mca_btl_ugni_autoset_leave_pinned]).  Without both memory hooks
    the two leave-pinned parameters are switched off.  With them, a
    parameter the user set is kept, and an unset [ompi_mpi_leave_pinned]
    (-1) becomes 1 exactly when the pipeline variant is off.  So after the
    call an unset parameter is resolved to 0 or 1 and never enabled together
    with the pipeline variant, and a second call changes nothing. *)
Theorem autoset_leave_pinned_resolves free munmap value lp :
  let both := Z.lor free munmap in
  let r := mca_btl_ugni_autoset_leave_pinned free munmap value lp in
  (Z.land both value <> both -> r = (0, 0)) /\
  (Z.land both value = both -> lp.1 <> -1 -> r = lp) /\
  (lp.1 = -1 ->
   (r.1 = 0 \/ r.1 = 1) /\ (r.1 = 1 -> r.2 = 0) /\
   (r.1 = 1 <-> Z.land both value = both /\ lp.2 = 0)) /\
  mca_btl_ugni_autoset_leave_pinned free munmap value r = r.
Proof.
  cbn zeta. unfold mca_btl_ugni_autoset_leave_pinned. destruct lp as [a b].
  cbn [fst snd].
  destruct (Z.eqb_spec (Z.lor free munmap) (Z.land (Z.lor free munmap) value))
    as [E|E].
  - destruct (Z.eqb_spec (-1) a) as [Ea|Ea].
    + subst a. destruct (Z.eqb_spec b 0) as [Eb|Eb]; cbn [fst snd Z.eqb];
        (split_and!; [congruence|congruence| |reflexivity]);
        intros _; (split_and!; [lia|lia|]); split; try lia; intros; lia.
    + cbn [fst snd]. apply Z.eqb_neq in Ea as Ea'. rewrite Ea'.
      split_and!; [congruence|done|congruence|reflexivity].
  - cbn [fst snd]. split_and!; [done|congruence| |reflexivity].
    intros ->. split_and!; [lia|lia|]. split; [lia|]. intros [? _]. congruence.
Qed.

Lemma init_modules_spec a count i l :
  init_modules a count i = Some l ->
  l = seq i count /\
  forall j, (i <= j < i + count)%nat -> mca_btl_ugni_module_init a j = OMPI_SUCCESS.
Proof.
  revert i l. induction count as [|count IH]; intros i l H; cbn in H.
  { simplify_eq. split; [done|intros; lia]. }
  destruct (mca_btl_ugni_module_init a i =? OMPI_SUCCESS) eqn:E; [|done]. zbool.
  destruct (init_modules a count (S i)) as [l'|] eqn:E'; [|done].
  simplify_eq. apply IH in E' as [-> Hall]. split; [done|].
  intros j Hj. destruct (decide (j = i)) as [->|]; [done|]. apply Hall. lia.
Qed.

(** X22 ([mca_btl_ugni_component_init]).  On every path out of the function
    the smsg limit is at most 16384 and the FMA limit at most 65536.  The
    module count is reported to the caller only together with a module
    array.  When an array is returned, the common uGNI code was initialized,
    there is one module per device, in device order, each initialized with
    success, the count reported is the device count, the pipeline send
    length equals the eager limit, and an eager limit that was equal to the
    smsg limit has been lowered to the payload an smsg message can carry
    (the device count is an unsigned number in the code). *)
Theorem component_init_result sz align bufsz rc2 free munmap a g :
  let r := mca_btl_ugni_component_init sz align bufsz rc2 free munmap a g in
  let g' := r.2 in
  ugni_smsg_limit (component g') <= 16384 /\
  ugni_fma_limit g' <= 65536 /\
  (r.1.1 = None <-> r.1.2 = None) /\
  forall base_modules, 0 <= device_count a -> r.1.1 = Some base_modules ->
    ompi_common_ugni_init a = OMPI_SUCCESS /\
    r.1.2 = Some (device_count a) /\
    ugni_num_btls g' = device_count a /\
    base_modules = seq 0 (Z.to_nat (device_count a)) /\
    (forall j, (j < Z.to_nat (device_count a))%nat ->
               mca_btl_ugni_module_init a j = OMPI_SUCCESS) /\
    btl_rdma_pipeline_send_length g' = btl_eager_limit g' /\
    smsg_max_data (component g') + sz = ugni_smsg_limit (component g') /\
    (btl_eager_limit g = ugni_smsg_limit (component g') ->
     btl_eager_limit g' = smsg_max_data (component g')) /\
    (btl_eager_limit g <> ugni_smsg_limit (component g') ->
     btl_eager_limit g' = btl_eager_limit g).
Proof.
  cbn zeta. unfold mca_btl_ugni_component_init.
  set (c1 := if 16384 <? ugni_smsg_limit (component g) then _ else component g).
  set (fma := if 65536 <? ugni_fma_limit g then 65536 else ugni_fma_limit g).
  assert (Hc1 : ugni_smsg_limit c1 <= 16384).
  { subst c1. destruct (16384 <? ugni_smsg_limit (component g)) eqn:E; zbool;
      cbn; lia. }
  assert (Hfma : fma <= 65536).
  { subst fma. destruct (65536 <? ugni_fma_limit g) eqn:E; zbool; lia. }
  destruct (ompi_common_ugni_init a =? OMPI_SUCCESS) eqn:Ei; zbool; cbn [negb].
  2: { cbn [fst snd component ugni_fma_limit]. by split_and!. }
  destruct (calloc_modules_ok a); cbn [negb].
  2: { cbn [fst snd component ugni_fma_limit]. by split_and!. }
  destruct (calloc_base_modules_ok a); cbn [negb].
  2: { cbn [fst snd component ugni_fma_limit]. by split_and!. }
  pose proof (smsg_setup_limit sz align bufsz rc2 (ompi_proc_world_size a) c1) as Hlim.
  pose proof (smsg_max_data_plus_header sz align bufsz rc2 (ompi_proc_world_size a) c1)
    as Hdata.
  destruct (mca_btl_ugni_smsg_setup sz align bufsz rc2 (ompi_proc_world_size a) c1)
    as [rc c2]. cbn [snd] in Hlim, Hdata.
  assert (Hc2 : ugni_smsg_limit c2 <= 16384).
  { rewrite Hlim. destruct (ugni_smsg_limit c1 =? 0); [|done].
    pose proof (autoset_smsg_limit_range (ompi_proc_world_size a)). lia. }
  destruct (rc =? OMPI_SUCCESS) eqn:Erc; zbool; cbn [negb].
  2: { cbn [fst snd component ugni_fma_limit]. by split_and!. }
  destruct (init_modules a (Z.to_nat (device_count a)) 0) as [l|] eqn:Em.
  2: { cbn [fst snd component ugni_fma_limit]. by split_and!. }
  cbn [fst snd component ugni_fma_limit ugni_num_btls btl_eager_limit
       btl_rdma_pipeline_send_length].
  apply init_modules_spec in Em as [-> Hall].
  split_and!; try done. intros base_modules _ [= <-].
  split_and!; try done.
  - intros j Hj. apply Hall. lia.
  - intros He. apply Z.eqb_eq in He. rewrite Z.eqb_sym in He. by rewrite He.
  - intros He. destruct (ugni_smsg_limit c2 =? btl_eager_limit g) eqn:E; zbool; [|done].
    congruence.
Qed.

(** An initialization with two devices and 600 ranks, from the registered
    defaults. *)
Example component_init_two_devices :
  let r := mca_btl_ugni_component_init 16 (fun x _ => x)
             (fun _ _ => (GNI_RC_SUCCESS, 4096)) rc_to_ompi 1 2
             (answers_ok 600) globals_default in
  r.1.1 = Some [0; 1]%nat /\ r.1.2 = Some 2 /\
  ugni_smsg_limit (component r.2) = 2048 /\
  btl_eager_limit r.2 = 8192 /\
  ompi_mpi_leave_pinned r.2 = 1.
Proof. vm_compute. by split_and!. Qed.

End UgniMore.
